(** * cheesedex: the directory walker, the search callback, the archive
      encoders and the directory index, embedded from the Go source.

    - [walk.WalkDir] / [walk.walkDir]  (internal/walk)
    - [handleSearch], [archiveZIP], [archiveTarGZ], [IndexContext.Populate],
      [FileInfo.PopulateFrom], [FileInfo.mode]  (cheesedex.go)

    Go strings are byte strings: [string] of the Standard Library.  Go's
    [fs.FileMode] is a 32-bit word: [N] with the bit masks written out. *)

From Stdlib Require Import NArith Ascii String List Bool Lia.
From Stdlib Require Import Sorted Permutation OrderedTypeEx.
From stdpp Require Import base gmap strings list.

Local Open Scope string_scope.
Local Open Scope list_scope.

(* ===================================================================== *)
(** ** Byte-string helpers (Go packages [strings] and [path])            *)
(* ===================================================================== *)

Module Strings.

(** [strings.ToLower] on ASCII bytes. *)
Definition lower_ascii (c : ascii) : ascii :=
  let n := nat_of_ascii c in
  if (65 <=? n)%nat && (n <=? 90)%nat then ascii_of_nat (n + 32) else c.

Fixpoint ToLower (s : string) : string :=
  match s with
  | EmptyString => EmptyString
  | String c s' => String (lower_ascii c) (ToLower s')
  end.

(** [strings.HasPrefix s p]. *)
Fixpoint HasPrefix (s p : string) : bool :=
  match p, s with
  | EmptyString, _ => true
  | String _ _, EmptyString => false
  | String a p', String b s' => Ascii.eqb a b && HasPrefix s' p'
  end.

(** [strings.Contains s substr]: some suffix of [s] starts with [substr]. *)
Fixpoint Contains (s substr : string) : bool :=
  HasPrefix s substr ||
  match s with
  | EmptyString => false
  | String _ s' => Contains s' substr
  end.

(** [strings.Split s "/"]. *)
Fixpoint SplitSlash (s : string) : list string :=
  match s with
  | EmptyString => [EmptyString]
  | String c s' =>
      if Ascii.eqb c "/" then EmptyString :: SplitSlash s'
      else match SplitSlash s' with
           | w :: ws => String c w :: ws
           | [] => [String c EmptyString]
           end
  end.

(** [strings.Join elems "/"]. *)
Definition JoinSlash (elems : list string) : string := String.concat "/" elems.

End Strings.

Module Path.
Import Strings.

(** [path.IsAbs]. *)
Definition IsAbs (p : string) : bool :=
  match p with
  | String c _ => Ascii.eqb c "/"
  | EmptyString => false
  end.

(** One element of a path processed by [Clean]: the stack holds the kept
    elements, last one first. *)
Definition clean_step (rooted : bool) (stack : list string) (elem : string)
  : list string :=
  if String.eqb elem "" then stack
  else if String.eqb elem "." then stack
  else if String.eqb elem ".." then
    match stack with
    | top :: below =>
        if String.eqb top ".." then elem :: stack else below
    | [] => if rooted then [] else [elem]
    end
  else elem :: stack.

(** The elements [path.Clean] keeps, in order. *)
Definition clean_elems (p : string) : list string :=
  rev (fold_left (clean_step (IsAbs p)) (SplitSlash p) []).

(** [path.Clean]: collapse slashes, drop ".", resolve inner "..", drop
    ".." at the root; the empty result is ".". *)
Definition Clean (p : string) : string :=
  let body := JoinSlash (clean_elems p) in
  if IsAbs p then String "/" body
  else if String.eqb body "" then "." else body.

(** [path.Join]: empty elements are ignored, the rest joined by "/" and
    cleaned; no non-empty element gives "". *)
Definition Join (elems : list string) : string :=
  match List.filter (fun e => negb (String.eqb e "")) elems with
  | [] => ""
  | es => Clean (JoinSlash es)
  end.

(** [path.Split]: [(dir, file)], split after the final slash. *)
Fixpoint Split (p : string) : string * string :=
  match p with
  | EmptyString => (EmptyString, EmptyString)
  | String c p' =>
      let '(d, f) := Split p' in
      if String.eqb d "" then
        if Ascii.eqb c "/" then (String c EmptyString, f)
        else (EmptyString, String c f)
      else (String c d, f)
  end.

(** Longest common prefix of two element lists removed from both. *)
Fixpoint strip_common (b t : list string) : list string * list string :=
  match b, t with
  | x :: b', y :: t' =>
      if String.eqb x y then strip_common b' t' else (b, t)
  | _, _ => (b, t)
  end.

(** [filepath.Rel] (Unix): [None] is its error. *)
Definition Rel (basepath targpath : string) : option string :=
  let base := Clean basepath in
  let targ := Clean targpath in
  if String.eqb targ base then Some "."
  else if negb (Bool.eqb (IsAbs base) (IsAbs targ)) then None
  else
    let '(b, t) := strip_common (clean_elems base) (clean_elems targ) in
    match b with
    | [] => Some (JoinSlash t)
    | x :: _ =>
        if String.eqb x ".." then None
        else Some (JoinSlash (map (fun _ => "..") b ++ t))
    end.

End Path.

(* ===================================================================== *)
(** ** Errors, file modes, file information                              *)
(* ===================================================================== *)

(** Go [error] values the program tells apart.  [SkipDir] is [fs.SkipDir],
    [SkipAll] is [fs.SkipAll];
    [EACCES] satisfies [errors.Is(err, os.ErrPermission)]; the others are
    the remaining system errors and errors carrying only a message. *)
Inductive error : Type :=
| SkipDir
| EACCES
| ENOENT
| ENOTDIR
| ELOOP
| EISDIR
| ErrWriteTooLong
| SkipAll
| ErrMsg (msg : string).

Definition error_eqb (a b : error) : bool :=
  match a, b with
  | SkipDir, SkipDir | EACCES, EACCES | ENOENT, ENOENT | ENOTDIR, ENOTDIR
  | ELOOP, ELOOP | EISDIR, EISDIR | ErrWriteTooLong, ErrWriteTooLong
  | SkipAll, SkipAll => true
  | ErrMsg x, ErrMsg y => String.eqb x y
  | _, _ => false
  end.

(** [errors.Is(err, os.ErrPermission)]. *)
Definition IsPermission (e : error) : bool :=
  match e with EACCES => true | _ => false end.

(** A Go result pair [(v, err)] with exactly one side set. *)
Inductive result (A : Type) : Type :=
| ok (a : A)
| failed (e : error).
Arguments ok {A} a.
Arguments failed {A} e.

(* ===================================================================== *)
(** ** A state monad with panics and fuel                                *)
(* ===================================================================== *)

Inductive Outcome (St A : Type) : Type :=
| Done (a : A) (s : St)
| Panic (msg : string) (s : St)
| OutOfFuel.
Arguments Done {St A} a s.
Arguments Panic {St A} msg s.
Arguments OutOfFuel {St A}.

Definition M (St A : Type) : Type := St -> Outcome St A.

Definition M_ret {St A} (a : A) : M St A := fun s => Done a s.

Definition M_bind {St A B} (f : A -> M St B) (m : M St A) : M St B :=
  fun s =>
    match m s with
    | Done a s' => f a s'
    | Panic msg s' => Panic msg s'
    | OutOfFuel => OutOfFuel
    end.

#[global] Instance M_mret {St} : MRet (M St) := @M_ret St.
#[global] Instance M_mbind {St} : MBind (M St) := @M_bind St.

Definition panic {St A} (msg : string) : M St A := fun s => Panic msg s.
Definition out_of_fuel {St A} : M St A := fun _ => OutOfFuel.
Definition gets {St A} (f : St -> A) : M St A := fun s => Done (f s) s.
Definition modify {St} (f : St -> St) : M St unit := fun s => Done tt (f s).

(* ===================================================================== *)
(** ** Package [io/fs] of the Go standard library, as the program uses it *)
(* ===================================================================== *)

Module fs.

(** [fs.FileMode]: a [uint32]; the type bits of package [io/fs]. *)
Definition FileMode : Type := N.
Definition ModeDir        : FileMode := N.shiftl 1 31.
Definition ModeSymlink    : FileMode := N.shiftl 1 27.
Definition ModeDevice     : FileMode := N.shiftl 1 26.
Definition ModeNamedPipe  : FileMode := N.shiftl 1 25.
Definition ModeSocket     : FileMode := N.shiftl 1 24.
Definition ModeCharDevice : FileMode := N.shiftl 1 21.
Definition ModeIrregular  : FileMode := N.shiftl 1 19.
Definition ModeType : FileMode :=
  N.lor ModeDir (N.lor ModeSymlink (N.lor ModeNamedPipe (N.lor ModeSocket
    (N.lor ModeDevice (N.lor ModeCharDevice ModeIrregular))))).

(** [m.IsDir()], [m.IsRegular()], [m.Type()]. *)
Definition IsDir (m : FileMode) : bool := negb (N.eqb (N.land m ModeDir) 0%N).
Definition IsRegular (m : FileMode) : bool := N.eqb (N.land m ModeType) 0%N.
Definition Type_ (m : FileMode) : FileMode := N.land m ModeType.

(** [fs.FileInfo]: what [Stat] and [Lstat] describe of a file. *)
Record FileInfo : Type := mkFileInfo {
  Name : string;
  Size : N;
  Mode : FileMode;
  ModTime : N
}.

(** [fs.DirEntry]: either a [statDirEntry] around a [FileInfo], or an
    entry read from a directory, which knows its parent directory, its
    name and its type bits and fetches its [Info] by an [lstat] of
    [parent/name]. *)
Inductive DirEntry : Type :=
| statDirEntry (info : FileInfo)
| dirent (parent name : string) (typ : FileMode).

Definition DirEntry_Name (d : DirEntry) : string :=
  match d with
  | statDirEntry info => Name info
  | dirent _ name _ => name
  end.

Definition DirEntry_IsDir (d : DirEntry) : bool :=
  match d with
  | statDirEntry info => IsDir (Mode info)
  | dirent _ _ typ => IsDir typ
  end.

Definition DirEntry_Type (d : DirEntry) : FileMode :=
  match d with
  | statDirEntry info => Type_ (Mode info)
  | dirent _ _ typ => Type_ typ
  end.

(** [fs.File]: an open file; [Read] is everything read up to the end of
    the file or up to a read error. *)
Record File : Type := mkFile {
  File_Stat : result FileInfo;
  File_Read : string * option error
}.

(** [fs.FS] with [Stat] and [ReadDir], as [os.DirFS] provides them. *)
Record FS : Type := mkFS {
  Open : string -> result File;
  Stat : string -> result FileInfo;
  ReadDir : string -> list DirEntry * option error
}.

Section WalkDir.
Context {St : Type}.
Variable fsys : FS.

(** [fs.WalkDirFunc]; the entry is nil ([None]) when the root cannot be
    described. *)
Definition WalkDirFunc : Type :=
  string -> option DirEntry -> option error -> M St (option error).

(** The loop [for _, d1 := range dirs] of [walkDir], around the
    recursive call [rec]: [SkipDir] from an entry ends the loop, any
    other error is returned. *)
Fixpoint range_dirs (rec : string -> DirEntry -> M St (option error))
    (name : string) (dirs : list DirEntry) : M St (option error) :=
  match dirs with
  | [] => mret None
  | d1 :: dirs' =>
      let name1 := Path.Join [name; DirEntry_Name d1] in
      err ← rec name1 d1;
      match err with
      | Some e =>
          if error_eqb e SkipDir then mret None else mret (Some e)
      | None => range_dirs rec name dirs'
      end
  end.

(** [fs.walkDir] of the standard library; [fuel] bounds the depth. *)
Fixpoint walkDir (fuel : nat) (name : string) (d : DirEntry)
    (walkDirFn : WalkDirFunc) : M St (option error) :=
  match fuel with
  | O => out_of_fuel
  | S fuel' =>
      err ← walkDirFn name (Some d) None;
      match err with
      | Some e =>
          if error_eqb e SkipDir && DirEntry_IsDir d then mret None
          else mret (Some e)
      | None =>
          if negb (DirEntry_IsDir d) then mret None
          else
            let '(dirs, rerr) := ReadDir fsys name in
            err ← match rerr with
                  | Some e => walkDirFn name (Some d) (Some e)
                  | None => mret None
                  end;
            match err with
            | Some e =>
                if error_eqb e SkipDir && DirEntry_IsDir d then mret None
                else mret (Some e)
            | None =>
                range_dirs (fun name1 d1 => walkDir fuel' name1 d1 walkDirFn)
                  name dirs
            end
      end
  end.

(** [fs.WalkDir]. *)
Definition WalkDir (fuel : nat) (root : string) (fn : WalkDirFunc)
  : M St (option error) :=
  err ← match Stat fsys root with
        | failed e => fn root None (Some e)
        | ok info => walkDir fuel root (statDirEntry info) fn
        end;
  match err with
  | Some e =>
      if error_eqb e SkipDir || error_eqb e SkipAll then mret None
      else mret (Some e)
  | None => mret None
  end.
End WalkDir.

End fs.

(** The operating system as the program sees it: package [os]. [ReadDir]
    returns the entries read before an error together with the error. *)
Record OS : Type := mkOS {
  os_Stat : string -> result fs.FileInfo;
  os_Lstat : string -> result fs.FileInfo;
  os_Readlink : string -> result string;
  os_ReadDir : string -> list fs.DirEntry * option error;
  os_ReadFile : string -> result string;
  os_Open : string -> result fs.File
}.

(** A file-system call, as recorded in a trace. *)
Inductive Syscall : Type :=
| SysStat (p : string)
| SysLstat (p : string)
| SysReadlink (p : string)
| SysReadDir (p : string)
| SysReadFile (p : string).

(* ===================================================================== *)
(** ** internal/walk: the cycle-aware walker                             *)
(* ===================================================================== *)

(** What a [WalkDirFunc] may do while it runs: call the accessor [info]
    it was handed, call [os.Stat], read and write its own captured
    variables (of type [U]), panic, and return. *)
Inductive Visit (U A : Type) : Type :=
| VRet (a : A)
| VInfo (k : result fs.FileInfo -> Visit U A)
| VStat (p : string) (k : result fs.FileInfo -> Visit U A)
| VGet (k : U -> Visit U A)
| VPut (u : U) (k : Visit U A)
| VPanic (msg : string).
Arguments VRet {U A} a.
Arguments VInfo {U A} k.
Arguments VStat {U A} p k.
Arguments VGet {U A} k.
Arguments VPut {U A} u k.
Arguments VPanic {U A} msg.

Fixpoint Visit_bind {U A B} (f : A -> Visit U B) (v : Visit U A) : Visit U B :=
  match v with
  | VRet a => f a
  | VInfo k => VInfo (fun r => Visit_bind f (k r))
  | VStat p k => VStat p (fun r => Visit_bind f (k r))
  | VGet k => VGet (fun u => Visit_bind f (k u))
  | VPut u k => VPut u (Visit_bind f k)
  | VPanic msg => VPanic msg
  end.

#[global] Instance Visit_mret {U} : MRet (Visit U) := @VRet U.
#[global] Instance Visit_mbind {U} : MBind (Visit U) := @Visit_bind U.

(** [type WalkDirFunc func(path string, info func() (fs.FileInfo, error),
    err error) error]; the accessor is reached through [VInfo]. *)
Definition WalkDirFunc (U : Type) : Type :=
  string -> option error -> Visit U (option error).

Module walk.

(** The state one traversal works on: the [visited] map shared by all
    [walkDir] frames, the [stat] variable of the frame whose callback is
    running (each frame declares its own and reads it only right after
    its first callback returns), the file-system calls made so far, and
    the callback's captured variables. *)
Record State (U : Type) : Type := mkState {
  visited : gset string;
  stat : option fs.FileInfo;
  trace : list Syscall;
  user : U
}.
Arguments mkState {U}.
Arguments visited {U}.
Arguments stat {U}.
Arguments trace {U}.
Arguments user {U}.

Definition W (U A : Type) : Type := M (State U) A.

Definition set_visited {U} (v : gset string) (s : State U) : State U :=
  mkState v (stat s) (trace s) (user s).
Definition set_stat {U} (i : option fs.FileInfo) (s : State U) : State U :=
  mkState (visited s) i (trace s) (user s).
Definition set_user {U} (u : U) (s : State U) : State U :=
  mkState (visited s) (stat s) (trace s) u.
Definition log {U} (c : Syscall) (s : State U) : State U :=
  mkState (visited s) (stat s) (trace s ++ [c]) (user s).

Section Walker.
Context {U : Type}.
Variable os : OS.

Definition sys_Stat (p : string) : W U (result fs.FileInfo) :=
  modify (log (SysStat p));; mret (os_Stat os p).
Definition sys_Lstat (p : string) : W U (result fs.FileInfo) :=
  modify (log (SysLstat p));; mret (os_Lstat os p).
Definition sys_Readlink (p : string) : W U (result string) :=
  modify (log (SysReadlink p));; mret (os_Readlink os p).
Definition sys_ReadDir (p : string) : W U (list fs.DirEntry * option error) :=
  modify (log (SysReadDir p));; mret (os_ReadDir os p).

(** [d.Info()]. *)
Definition DirEntry_Info (d : fs.DirEntry) : W U (result fs.FileInfo) :=
  match d with
  | fs.statDirEntry info => mret (ok info)
  | fs.dirent parent name _ => sys_Lstat (parent +:+ "/" +:+ name)
  end.

(** Running a callback: [info] is the accessor it was handed, [None]
    for Go's nil function value, calling which panics. *)
Fixpoint run_visit {A} (info : option (W U (result fs.FileInfo)))
    (v : Visit U A) : W U A :=
  match v with
  | VRet a => mret a
  | VInfo k =>
      match info with
      | None => panic "invalid memory address or nil pointer dereference"
      | Some get => r ← get; run_visit info (k r)
      end
  | VStat p k => r ← sys_Stat p; run_visit info (k r)
  | VGet k => u ← gets user; run_visit info (k u)
  | VPut u k => modify (set_user u);; run_visit info k
  | VPanic msg => panic msg
  end.

(** The closure [getinfo] of [walkDir]. *)
Definition getinfo (name : string) : W U (result fs.FileInfo) :=
  st ← gets stat;
  match st with
  | Some i => mret (ok i)
  | None =>
      r ← sys_Stat name;
      match r with
      | ok i => modify (set_stat (Some i));; mret r
      | failed _ => modify (set_stat None);; mret r
      end
  end.

(** The closure [willwalk] of [walkDir]: its answer and the value it
    leaves in [realname]. *)
Definition willwalk (name : string) (d : fs.DirEntry) : W U (bool * string) :=
  if fs.DirEntry_IsDir d then
    v ← gets visited;
    mret (negb (bool_decide (name ∈ v)), name)
  else if N.eqb (fs.DirEntry_Type d) fs.ModeSymlink then
    r ← sys_Readlink name;
    match r with
    | failed _ => mret (false, name)
    | ok link =>
        let realname :=
          if Path.IsAbs link then link else Path.Join [name; link] in
        v ← gets visited;
        if bool_decide (realname ∈ v) then mret (false, realname)
        else
          r ← sys_Stat realname;
          match r with
          | failed _ => mret (false, realname)
          | ok finfo => mret (fs.IsDir (fs.Mode finfo), realname)
          end
    end
  else mret (false, name).

(** The loop [for _, d1 := range dirs] of [walkDir], around the
    recursive call [rec]: [SkipDir] from an entry ends the loop, any
    other error is returned. *)
Fixpoint range_dirs (rec : string -> fs.DirEntry -> W U (option error))
    (name : string) (dirs : list fs.DirEntry) : W U (option error) :=
  match dirs with
  | [] => mret None
  | d1 :: dirs' =>
      let name1 := Path.Join [name; fs.DirEntry_Name d1] in
      err ← rec name1 d1;
      match err with
      | Some e =>
          if error_eqb e SkipDir then mret None else mret (Some e)
      | None => range_dirs rec name dirs'
      end
  end.

(** [walkDir]; [fuel] bounds the depth of the recursion. *)
Fixpoint walkDir (fuel : nat) (name : string) (d : fs.DirEntry)
    (fn : WalkDirFunc U) : W U (option error) :=
  match fuel with
  | O => out_of_fuel
  | S fuel' =>
      modify (set_stat None);;
      err ← run_visit (Some (getinfo name)) (fn name None);
      match err with
      | Some e =>
          if error_eqb e SkipDir then
            st ← gets stat;
            match st with
            | None =>
                panic "invalid memory address or nil pointer dereference"
            | Some i =>
                if fs.IsDir (fs.Mode i) then mret None else mret (Some e)
            end
          else mret (Some e)
      | None =>
          '(w, realname) ← willwalk name d;
          if negb w then mret None
          else
            modify (fun s => set_visited ({[realname]} ∪ visited s) s);;
            '(dirs, rerr) ← sys_ReadDir name;
            err ← match rerr with
                  | Some e =>
                      run_visit (Some (DirEntry_Info d)) (fn name (Some e))
                  | None => mret None
                  end;
            match err with
            | Some e => mret (Some e)
            | None =>
                range_dirs (fun name1 d1 => walkDir fuel' name1 d1 fn)
                  name dirs
            end
      end
  end.

(** [WalkDir]. *)
Definition WalkDir (fuel : nat) (root : string) (fn : WalkDirFunc U)
  : W U (option error) :=
  modify (set_visited ∅);;
  r ← sys_Stat root;
  match r with
  | failed e => run_visit None (fn root (Some e))
  | ok info => walkDir fuel root (fs.statDirEntry info) fn
  end.

End Walker.
End walk.

(* ===================================================================== *)
(** ** An in-memory file system, to run the program on                   *)
(* ===================================================================== *)

#[local] Set Warnings "-register-all".

(** A file-system object.  A directory lists its entries in name order, as
    [os.ReadDir] returns them; [readable = false] makes opening a file or
    listing a directory fail with a permission error. *)
Inductive node : Type :=
| NFile (readable : bool) (data : string)
| NDir (readable : bool) (entries : list (string * node))
| NLink (target : string)
| NOther (typ : fs.FileMode).

Module MemFS.

Fixpoint assoc (name : string) (es : list (string * node)) : option node :=
  match es with
  | [] => None
  | (n, x) :: es' => if String.eqb n name then Some x else assoc name es'
  end.

(** The object at a list of names below [t], no link followed. *)
Fixpoint lookup (t : node) (names : list string) : option node :=
  match names with
  | [] => Some t
  | c :: names' =>
      match t with
      | NDir _ es =>
          match assoc c es with
          | Some x => lookup x names'
          | None => None
          end
      | _ => None
      end
  end.

Definition mode_of (x : node) : fs.FileMode :=
  match x with
  | NFile _ _ => 420%N
  | NDir _ _ => N.lor fs.ModeDir 493%N
  | NLink _ => N.lor fs.ModeSymlink 511%N
  | NOther typ => typ
  end.

Definition size_of (x : node) : N :=
  match x with
  | NFile _ data => N.of_nat (String.length data)
  | NDir _ _ => 4096%N
  | NLink target => N.of_nat (String.length target)
  | NOther _ => 0%N
  end.

Definition info_of (name : string) (x : node) : fs.FileInfo :=
  fs.mkFileInfo name (size_of x) (mode_of x) 0%N.

(** The kernel follows at most this many links in one path resolution. *)
Definition MAXSYMLINKS : nat := 40.

(** Path resolution: [cur] is the directory reached so far (names from the
    root, link-free), [rest] the elements still to resolve; [follow] says
    whether a link in final position is followed ([stat]) or returned
    ([lstat], [readlink]).  A relative link target is resolved against
    the directory that holds the link. *)
Fixpoint resolve (root : node) (links : nat) (follow : bool)
    (cur rest : list string) {struct links} : result node :=
  (fix go (cur rest : list string) {struct rest} : result node :=
     match rest with
     | [] =>
         match lookup root cur with
         | Some x => ok x
         | None => failed ENOENT
         end
     | c :: rest' =>
         match lookup root cur with
         | Some (NDir _ es) =>
             if String.eqb c "" || String.eqb c "." then go cur rest'
             else if String.eqb c ".." then go (removelast cur) rest'
             else
               match assoc c es with
               | None => failed ENOENT
               | Some (NLink target) =>
                   match rest', follow with
                   | [], false => ok (NLink target)
                   | _, _ =>
                       match links with
                       | O => failed ELOOP
                       | S links' =>
                           resolve root links' follow
                             (if Path.IsAbs target then [] else cur)
                             (Strings.SplitSlash target ++ rest')
                       end
                   end
               | Some _ => go (cur ++ [c]) rest'
               end
         | Some _ => failed ENOTDIR
         | None => failed ENOENT
         end
     end) cur rest.

Section Mount.
(** The whole file system, and the working directory of the process. *)
Variable root : node.
Variable cwd : list string.

Definition namei (follow : bool) (p : string) : result node :=
  if String.eqb p "" then failed ENOENT
  else resolve root MAXSYMLINKS follow
         (if Path.IsAbs p then [] else cwd) (Strings.SplitSlash p).

(** The base name [os.Stat] reports for the path it was given. *)
Definition basename (p : string) : string :=
  List.last (List.filter (fun e => negb (String.eqb e ""))
               (Strings.SplitSlash p)) "/".

Definition Stat (p : string) : result fs.FileInfo :=
  match namei true p with
  | ok x => ok (info_of (basename p) x)
  | failed e => failed e
  end.

Definition Lstat (p : string) : result fs.FileInfo :=
  match namei false p with
  | ok x => ok (info_of (basename p) x)
  | failed e => failed e
  end.

Definition Readlink (p : string) : result string :=
  match namei false p with
  | ok (NLink target) => ok target
  | ok _ => failed (ErrMsg "invalid argument")
  | failed e => failed e
  end.

Definition ReadDir (p : string) : list fs.DirEntry * option error :=
  match namei true p with
  | ok (NDir true es) =>
      (map (fun e => fs.dirent p (fst e) (fs.Type_ (mode_of (snd e)))) es,
       None)
  | ok (NDir false _) => ([], Some EACCES)
  | ok _ => ([], Some ENOTDIR)
  | failed e => ([], Some e)
  end.

Definition ReadFile (p : string) : result string :=
  match namei true p with
  | ok (NFile true data) => ok data
  | ok (NFile false _) => failed EACCES
  | ok (NDir _ _) => failed EISDIR
  | ok _ => failed (ErrMsg "invalid argument")
  | failed e => failed e
  end.

Definition Open (p : string) : result fs.File :=
  match namei true p with
  | ok (NFile true data) =>
      ok (fs.mkFile (ok (info_of (basename p) (NFile true data)))
            (data, None))
  | ok (NFile false _) => failed EACCES
  | ok (NDir true es) =>
      ok (fs.mkFile (ok (info_of (basename p) (NDir true es)))
            ("", Some EISDIR))
  | ok (NDir false _) => failed EACCES
  | ok x =>
      ok (fs.mkFile (ok (info_of (basename p) x))
            ("", Some (ErrMsg "invalid argument")))
  | failed e => failed e
  end.

Definition mount : OS := mkOS Stat Lstat Readlink ReadDir ReadFile Open.
End Mount.
End MemFS.


(* ===================================================================== *)
(** ** Libraries the program calls: [os.DirFS], [regexp], [html],
       [archive/zip], [archive/tar] with [compress/gzip]                  *)
(* ===================================================================== *)

(** [fs.ValidPath]: "." or slash-separated elements none of which is empty,
    "." or "..". *)
Definition ValidPath (name : string) : bool :=
  String.eqb name "." ||
  forallb (fun e => negb (String.eqb e "" || String.eqb e "." || String.eqb e ".."))
    (Strings.SplitSlash name).

Fixpoint ends_with_slash (s : string) : bool :=
  match s with
  | EmptyString => false
  | String c EmptyString => Ascii.eqb c "/"
  | String _ s' => ends_with_slash s'
  end.

(** The file the name [name] of [os.DirFS(dir)] stands for. *)
Definition DirFS_join (dir name : string) : result string :=
  if String.eqb dir "" then failed (ErrMsg "os: DirFS with empty root")
  else if negb (ValidPath name) then failed (ErrMsg "invalid argument")
  else if ends_with_slash dir then ok (dir +:+ name)
  else ok (dir +:+ String "/" name).

(** [os.DirFS(dir)]: every operation is the [os] one on [dir/name]. *)
Definition os_DirFS (os : OS) (dir : string) : fs.FS :=
  fs.mkFS
    (fun name => match DirFS_join dir name with
                 | ok full => os_Open os full
                 | failed e => failed e
                 end)
    (fun name => match DirFS_join dir name with
                 | ok full => os_Stat os full
                 | failed e => failed e
                 end)
    (fun name => match DirFS_join dir name with
                 | ok full => os_ReadDir os full
                 | failed e => ([], Some e)
                 end).

(** Package [regexp]: compiled expressions, [regexp.Compile] and
    [Regexp.MatchString]. *)
Record RegexpLib : Type := mkRegexpLib {
  Regexp : Type;
  Compile : string -> result Regexp;
  MatchString : Regexp -> string -> bool
}.

(** [html.EscapeString]. *)
Fixpoint EscapeString (s : string) : string :=
  match s with
  | EmptyString => EmptyString
  | String c s' =>
      (if Ascii.eqb c "&" then "&amp;"
       else if Ascii.eqb c "'" then "&#39;"
       else if Ascii.eqb c "<" then "&lt;"
       else if Ascii.eqb c ">" then "&gt;"
       else if Ascii.eqb c (ascii_of_nat 34) then "&#34;"
       else String c EmptyString) +:+ EscapeString s'
  end.

(** The header both archive packages keep per file. *)
Record Header : Type := mkHeader {
  h_Name : string;
  h_Size : N;
  h_Mode : fs.FileMode;
  h_ModTime : N
}.

Definition set_h_Name (name : string) (h : Header) : Header :=
  mkHeader name (h_Size h) (h_Mode h) (h_ModTime h).

(** Appends [data] to the payload of the last record. *)
Fixpoint write_last (data : string) (rs : list (Header * string))
  : list (Header * string) :=
  match rs with
  | [] => []
  | [(h, p)] => [(h, p +:+ data)]
  | r :: rs' => r :: write_last data rs'
  end.

Module zip.
(** [zip.Writer]: the records written so far, and whether [Close] wrote
    the central directory. *)
Record Writer : Type := mkWriter {
  entries : list (Header * string);
  closed : bool
}.
Definition NewWriter : Writer := mkWriter [] false.

(** [zip.FileInfoHeader]. *)
Definition FileInfoHeader (fi : fs.FileInfo) : result Header :=
  ok (mkHeader (fs.Name fi) (fs.Size fi) (fs.Mode fi) (fs.ModTime fi)).

(** [w.CreateHeader(header)]. *)
Definition CreateHeader (h : Header) : M Writer (option error) :=
  fun w =>
    if closed w then Done (Some (ErrMsg "zip: write to closed file")) w
    else Done None (mkWriter (entries w ++ [(h, "")]) (closed w)).

(** [fw.Write(data)] on the writer [CreateHeader] returned. *)
Definition Write (data : string) : M Writer (option error) :=
  fun w => Done None (mkWriter (write_last data (entries w)) (closed w)).

(** [w.Close()]. *)
Definition Close : M Writer (option error) :=
  fun w =>
    if closed w then Done (Some (ErrMsg "zip: writer closed twice")) w
    else Done None (mkWriter (entries w) true).

(** A standard reader: the central directory must be there. *)
Definition read (w : Writer) : result (list (string * string)) :=
  if closed w then ok (map (fun r => (h_Name (fst r), snd r)) (entries w))
  else failed (ErrMsg "zip: not a valid zip file").
End zip.

Module tar.
(** [tar.Writer] inside a [gzip.Writer]: the records written so far and
    which of the two writers has been closed. *)
Record Writer : Type := mkWriter {
  entries : list (Header * string);
  closed : bool;
  gzip_closed : bool
}.
Definition NewWriter : Writer := mkWriter [] false false.

(** Bytes the last header announced and that were not written yet. *)
Definition missing (w : Writer) : N :=
  match List.last (map Some (entries w)) None with
  | Some (h, p) => (h_Size h - N.of_nat (String.length p))%N
  | None => 0%N
  end.

(** [tar.FileInfoHeader(fi, "")]: only a regular file has a size;
    sockets have no tar representation. *)
Definition FileInfoHeader (fi : fs.FileInfo) : result Header :=
  if fs.IsRegular (fs.Mode fi) then
    ok (mkHeader (fs.Name fi) (fs.Size fi) (fs.Mode fi) (fs.ModTime fi))
  else if negb (N.eqb (N.land (fs.Mode fi) fs.ModeSocket) 0%N) then
    failed (ErrMsg "archive/tar: sockets not supported")
  else ok (mkHeader (fs.Name fi) 0%N (fs.Mode fi) (fs.ModTime fi)).

(** [w.WriteHeader(hdr)]: the previous file must be complete. *)
Definition WriteHeader (h : Header) : M Writer (option error) :=
  fun w =>
    if closed w then Done (Some (ErrMsg "archive/tar: write after close")) w
    else if negb (N.eqb (missing w) 0%N) then
      Done (Some (ErrMsg "archive/tar: missed writing bytes")) w
    else Done None (mkWriter (entries w ++ [(h, "")]) (closed w) (gzip_closed w)).

(** [w.Write(data)]: at most the announced size is accepted. *)
Definition Write (data : string) : M Writer (option error) :=
  fun w =>
    let room := N.to_nat (missing w) in
    if (String.length data <=? room)%nat then
      Done None (mkWriter (write_last data (entries w)) (closed w) (gzip_closed w))
    else
      Done (Some ErrWriteTooLong)
        (mkWriter (write_last (String.substring 0 room data) (entries w))
           (closed w) (gzip_closed w)).

(** [w.Close()] of the tar writer. *)
Definition Close : M Writer (option error) :=
  fun w =>
    if closed w then Done None w
    else if negb (N.eqb (missing w) 0%N) then
      Done (Some (ErrMsg "archive/tar: missed writing bytes")) w
    else Done None (mkWriter (entries w) true (gzip_closed w)).

(** [zw.Close()] of the gzip writer around it. *)
Definition gzip_Close : M Writer (option error) :=
  fun w => Done None (mkWriter (entries w) (closed w) true).

(** A standard reader: gunzip needs the gzip trailer, then the tar
    reader wants the end-of-archive marker. *)
Definition read (w : Writer) : result (list (string * string)) :=
  if negb (gzip_closed w) then failed (ErrMsg "unexpected EOF")
  else if negb (closed w) then failed (ErrMsg "unexpected EOF")
  else ok (map (fun r => (h_Name (fst r), snd r)) (entries w)).
End tar.

(** [io.Copy(dst, f)]: everything read from [f] is written; the first
    write or read error is returned. *)
Definition io_Copy {St} (Write : string -> M St (option error)) (f : fs.File)
  : M St (option error) :=
  let '(data, rerr) := fs.File_Read f in
  werr ← Write data;
  match werr with
  | Some e => mret (Some e)
  | None => mret rerr
  end.


(* ===================================================================== *)
(** ** Package [main]: cheesedex.go                                      *)
(* ===================================================================== *)

Record Server : Type := mkServer { dir : string }.

(** [type FileInfo struct { fs.FileInfo; path string; TargetMode
    fs.FileMode }]. *)
Record FileInfo : Type := mkFileInfo {
  info : fs.FileInfo;
  path : string;
  TargetMode : fs.FileMode
}.

(** The zero value a [var finfo FileInfo] starts from; its embedded
    [fs.FileInfo] is set by [PopulateFrom] before it is read. *)
Definition zero_FileInfo : FileInfo :=
  mkFileInfo (fs.mkFileInfo "" 0%N 0%N 0%N) "" 0%N.

Definition set_path (p : string) (f : FileInfo) : FileInfo :=
  mkFileInfo (info f) p (TargetMode f).

(** [f.RelPath()]. *)
Definition RelPath (f : FileInfo) : string :=
  if negb (String.eqb (path f) "") then path f else fs.Name (info f).

(** [f.mode()]. *)
Definition mode (f : FileInfo) : fs.FileMode :=
  if N.eqb (fs.Type_ (fs.Mode (info f))) fs.ModeSymlink then TargetMode f
  else fs.Mode (info f).

(** [f.GoesToDir()]. *)
Definition GoesToDir (f : FileInfo) : bool := fs.IsDir (mode f).

(** [f.PopulateFrom(fpath, i)], written once for every way of calling
    [os.Stat]: [Stat p k] runs the call on [p] and continues with [k]; the
    method's results, the populated receiver and the error, go to [k]. *)
Definition PopulateFrom {R : Type}
    (Stat : string -> (result fs.FileInfo -> R) -> R)
    (f : FileInfo) (fpath : string) (i : fs.FileInfo)
    (k : FileInfo -> option error -> R) : R :=
  let f := mkFileInfo i (path f) (TargetMode f) in
  if N.eqb (fs.Type_ (fs.Mode (info f))) fs.ModeSymlink then
    Stat fpath (fun r =>
      match r with
      | failed e => k f (Some e)
      | ok st => k (mkFileInfo (info f) (path f) (fs.Mode st)) None
      end)
  else k f None.

(** *** Search *)

Record SearchContext : Type := mkSearchContext {
  sc_Name : string;
  sc_Path : string;
  sc_Query : string;
  Results : list FileInfo
}.

(** What a handler leaves in the [http.ResponseWriter]. *)
Inductive Response : Type :=
| http_Error (err : error) (code : nat)
| ExecuteTemplate (name : string) (ctx : SearchContext).

Definition StatusBadRequest : nat := 400.

Section Search.
Variable re : RegexpLib.
Variable os : OS.

(** The closure [fn] of [handleSearch].  Its captured channel [results]
    is the list of the values sent so far: the channel is unbuffered and
    the template reads it until it is closed, so that list is what the
    consumer receives, in order. *)
Definition search_fn (basepath : string) (exp : option (Regexp re))
    (lowerq : string) : WalkDirFunc (list FileInfo) :=
  fun fpath err =>
    let continue : Visit (list FileInfo) (option error) :=
      match Path.Rel basepath fpath with
      | None => VPanic "impossible"
      | Some name =>
          if String.eqb name "." then VRet None
          else
            let matched :=
              match exp with
              | Some exp => MatchString re exp fpath
              | None =>
                  let '(_, name) := Path.Split name in
                  Strings.Contains (Strings.ToLower name) lowerq
              end in
            if negb matched then VRet None
            else
              VInfo (fun r =>
                match r with
                | failed e => VRet (Some e)
                | ok info =>
                    PopulateFrom VStat zero_FileInfo fpath info
                      (fun finfo _ =>
                         let finfo := set_path name finfo in
                         VGet (fun results =>
                           VPut (results ++ [finfo]) (VRet None)))
                end)
      end in
    match err with
    | Some e => if IsPermission e then continue else VRet (Some e)
    | None => continue
    end.

(** [handleSearch]: the response, and the error the traversal logged.
    The traversal goroutine is run to its end before the template reads
    the channel; the state is the trace of file-system calls. *)
Definition handleSearch (fuel : nat) (s : Server) (relpath query : string)
    (isregexp : bool) : M (list Syscall) (Response * option error) :=
  fun tr =>
    let compiled : result (option (Regexp re) * string) :=
      if isregexp then
        match Compile re query with
        | failed e => failed e
        | ok exp => ok (Some exp, "")
        end
      else ok (None, Strings.ToLower query) in
    match compiled with
    | failed e => Done (http_Error e StatusBadRequest, None) tr
    | ok (exp, lowerq) =>
        let basepath := Path.Join [dir s; relpath] in
        let fn := search_fn basepath exp lowerq in
        match walk.WalkDir os fuel (Path.Join [dir s; relpath]) fn
                (walk.mkState ∅ None tr []) with
        | OutOfFuel => OutOfFuel
        | Panic msg st => Panic msg (walk.trace st)
        | Done err st =>
            let ctx := mkSearchContext query relpath query (walk.user st) in
            Done (ExecuteTemplate "search.html" ctx, err)
              (walk.trace st ++ [SysReadFile (Path.Join [dir s; "banners"])])
        end
    end.
End Search.

(** *** Archives *)

Section Archive.
Variable os : OS.

(** The closure [archiveZIP] hands to [fs.WalkDir]. *)
Definition zip_visit (fsys : fs.FS) : fs.WalkDirFunc (St := zip.Writer) :=
  fun fpath d err =>
    match err with
    | Some e => mret (Some e)
    | None =>
        match d with
        | None => panic "invalid memory address or nil pointer dereference"
        | Some d =>
            if negb (N.eqb (fs.DirEntry_Type d) 0%N) then mret None
            else
              match fs.Open fsys fpath with
              | failed e => mret (Some e)
              | ok f =>
                  match fs.File_Stat f with
                  | failed e => mret (Some e)
                  | ok info =>
                      match zip.FileInfoHeader info with
                      | failed e => mret (Some e)
                      | ok header =>
                          let header := set_h_Name fpath header in
                          err ← zip.CreateHeader header;
                          match err with
                          | Some e => mret (Some e)
                          | None => io_Copy zip.Write f
                          end
                      end
                  end
              end
        end
    end.

(** [archiveZIP]; the state is the [zip.Writer] on [wr]. *)
Definition archiveZIP (fuel : nat) (root : string)
  : M zip.Writer (option error) :=
  let fsys := os_DirFS os root in
  err ← fs.WalkDir fsys fuel "." (zip_visit fsys);
  match err with
  | Some e => mret (Some e)
  | None => zip.Close
  end.

(** The closure [archiveTarGZ] hands to [fs.WalkDir]. *)
Definition tar_visit (fsys : fs.FS) : fs.WalkDirFunc (St := tar.Writer) :=
  fun fpath d err =>
    match err with
    | Some e => mret (Some e)
    | None =>
        match d with
        | None => panic "invalid memory address or nil pointer dereference"
        | Some d =>
            if negb (fs.IsRegular (fs.DirEntry_Type d)) then mret None
            else
              match fs.Open fsys fpath with
              | failed e => mret (Some e)
              | ok f =>
                  match fs.File_Stat f with
                  | failed e => mret (Some e)
                  | ok info =>
                      match tar.FileInfoHeader info with
                      | failed e => mret (Some e)
                      | ok header =>
                          let header := set_h_Name fpath header in
                          err ← tar.WriteHeader header;
                          match err with
                          | Some e => mret (Some e)
                          | None => io_Copy tar.Write f
                          end
                      end
                  end
              end
        end
    end.

(** [archiveTarGZ]; the state is the [tar.Writer] on the [gzip.Writer]
    on [wr]. *)
Definition archiveTarGZ (fuel : nat) (root : string)
  : M tar.Writer (option error) :=
  let fsys := os_DirFS os root in
  err ← fs.WalkDir fsys fuel "." (tar_visit fsys);
  match err with
  | Some e => mret (Some e)
  | None =>
      err ← tar.Close;
      match err with
      | Some e => mret (Some e)
      | None => tar.gzip_Close
      end
  end.
End Archive.

(** *** Directory index *)

Record IndexContext : Type := mkIndexContext {
  ic_Name : string;
  ic_Path : string;
  Files : list FileInfo;
  ReadMe : option string;
  Root : bool
}.

(** The [less] function [Populate] hands to [sort.Slice]; Go's [<] on
    strings compares bytes. *)
Definition less (a b : FileInfo) : bool :=
  let im := mode a in
  let jm := mode b in
  if Bool.eqb (fs.IsDir im) (fs.IsDir jm) then
    String.ltb (fs.Name (info a)) (fs.Name (info b))
  else if fs.IsDir im then true
  else false.

(** [sort.Slice]: insertion from the right, each element placed before the
    first one it is [less] than. *)
Fixpoint sort_insert {A} (less : A -> A -> bool) (x : A) (l : list A) : list A :=
  match l with
  | [] => [x]
  | y :: l' => if less x y then x :: l else y :: sort_insert less x l'
  end.

Definition sort_Slice {A} (less : A -> A -> bool) (l : list A) : list A :=
  fold_right (sort_insert less) [] l.

Section Index.
Variable os : OS.
(** goldmark's [md.Convert] with the GFM extension and unsafe HTML. *)
Variable Markdown : string -> result string.

(** The README loop of [Populate]: the first entry whose lower-cased name
    is one of the three decides; [ok None] when there is none. *)
Fixpoint readme_loop (root dirpath : string) (files : list FileInfo)
  : result (option string) :=
  match files with
  | [] => ok None
  | finfo :: files' =>
      let name := Strings.ToLower (fs.Name (info finfo)) in
      let p := os_ReadFile os (Path.Join [root; dirpath; fs.Name (info finfo)]) in
      if String.eqb name "readme.txt" then
        match p with
        | failed e => failed e
        | ok p => ok (Some ("<pre>" +:+ EscapeString p +:+ "</pre>"))
        end
      else if String.eqb name "readme.html" then
        match p with
        | failed e => failed e
        | ok p => ok (Some p)
        end
      else if String.eqb name "readme.md" then
        match p with
        | failed e => failed e
        | ok p =>
            match Markdown p with
            | failed e => failed e
            | ok html => ok (Some html)
            end
        end
      else readme_loop root dirpath files'
  end.

(** [d.Populate(files, dirpath, root)] on a fresh [IndexContext]. *)
Definition Populate (files : list fs.FileInfo) (dirpath root : string)
  : result IndexContext :=
  let Files :=
    map (fun f =>
           PopulateFrom (fun p k => k (os_Stat os p)) zero_FileInfo
             (Path.Join [root; dirpath; fs.Name f]) f
             (fun finfo _ => finfo))
      files in
  let '(_, Name) := Path.Split dirpath in
  let Files := sort_Slice less Files in
  match readme_loop root dirpath Files with
  | failed e => failed e
  | ok readme =>
      ok (mkIndexContext Name dirpath Files readme (String.eqb dirpath "/"))
  end.
End Index.


(* ===================================================================== *)
(** ** Concrete libraries and file systems for the examples              *)
(* ===================================================================== *)

(** A small [regexp] library: literal bytes, [.], a leading [^] and a
    trailing [$].  It rejects every other operator of the syntax, of which
    Go's library compiles the well-formed uses. *)
Module LitRegexp.
Record t : Type := mk {
  at_start : bool;
  at_end : bool;
  body : list (option ascii)
}.

Definition is_operator (c : ascii) : bool :=
  existsb (Ascii.eqb c)
    ["\"; "["; "]"; "("; ")"; "{"; "}"; "|"; "*"; "+"; "?"; "^"; "$"]%char.

Fixpoint parse_body (s : string) : result (bool * list (option ascii)) :=
  match s with
  | EmptyString => ok (false, [])
  | String c EmptyString =>
      if Ascii.eqb c "$" then ok (true, [])
      else if is_operator c then failed (ErrMsg "error parsing regexp")
      else ok (false, [if Ascii.eqb c "." then None else Some c])
  | String c s' =>
      if is_operator c then failed (ErrMsg "error parsing regexp")
      else
        match parse_body s' with
        | failed e => failed e
        | ok (e, b) => ok (e, (if Ascii.eqb c "." then None else Some c) :: b)
        end
  end.

Definition Compile (s : string) : result t :=
  match s with
  | String "^" s' =>
      match parse_body s' with
      | failed e => failed e
      | ok (e, b) => ok (mk true e b)
      end
  | _ =>
      match parse_body s with
      | failed e => failed e
      | ok (e, b) => ok (mk false e b)
      end
  end.

Fixpoint match_here (at_end : bool) (b : list (option ascii)) (s : string) : bool :=
  match b, s with
  | [], EmptyString => true
  | [], String _ _ => negb at_end
  | _ :: _, EmptyString => false
  | c :: b', String x s' =>
      match c with
      | None => true
      | Some c => Ascii.eqb c x
      end && match_here at_end b' s'
  end.

Fixpoint search (at_end : bool) (b : list (option ascii)) (s : string) : bool :=
  match_here at_end b s ||
  match s with
  | EmptyString => false
  | String _ s' => search at_end b s'
  end.

Definition MatchString (r : t) (s : string) : bool :=
  if at_start r then match_here (at_end r) (body r) s
  else search (at_end r) (body r) s.

Definition lib : RegexpLib := mkRegexpLib t Compile MatchString.
End LitRegexp.

(** A stand-in for the markdown converter: one paragraph around the text. *)
Definition paragraph (src : string) : result string :=
  ok ("<p>" +:+ src +:+ "</p>").

(** A callback that only records the paths it is shown. *)
Definition tracer : WalkDirFunc (list string) :=
  fun p err => VGet (fun l => VPut (l ++ [p]) (VRet None)).

(** Runs [walk.WalkDir] on the in-memory file system [root], from the
    working directory "/". *)
Definition run_walk {U : Type} (root : node) (fuel : nat) (p : string)
    (fn : WalkDirFunc U) (u : U) : Outcome (walk.State U) (option error) :=
  walk.WalkDir (MemFS.mount root []) fuel p fn (walk.mkState ∅ None [] u).

(** What a run returned and what its callback recorded. *)
Definition outcome_of {U A : Type} (o : Outcome (walk.State U) A)
  : option ((A + string) * U) :=
  match o with
  | Done a s => Some (inl a, walk.user s)
  | Panic msg s => Some (inr msg, walk.user s)
  | OutOfFuel => None
  end.


(** Two files side by side, and a callback that asks for the second one's
    [info] and then answers [SkipDir]. *)
Definition two_files : node :=
  NDir true [("r", NDir true [("a", NFile true "A"); ("b", NFile true "B")])].

Definition skip_at (target : string) : WalkDirFunc (list string) :=
  fun p err =>
    VGet (fun l =>
      VPut (l ++ [p])
        (if String.eqb p target then VInfo (fun _ => VRet (Some SkipDir))
         else VRet None)).

(** A callback that answers [SkipDir] at once, without touching [info]. *)
Definition skip_blind : WalkDirFunc (list string) :=
  fun p err => VRet (Some SkipDir).

(** A served directory [/srv] with a public directory and a directory
    whose listing is denied. *)
Definition served : node :=
  NDir true
    [("srv", NDir true
        [("pub", NDir true [("notes.txt", NFile true "n")]);
         ("secret", NDir false [("key", NFile true "k")])])].

(** The value [search_fn] sends for a matching entry [fpath] whose
    traversal-relative path is [name] and whose [info()] is [i]. *)
Definition match_of (name : string) (i : fs.FileInfo) : FileInfo :=
  mkFileInfo i name
    (if N.eqb (fs.Type_ (fs.Mode i)) fs.ModeSymlink then fs.Mode i else 0%N).

(** [/r] holds a file and a link [loop] to ".", the directory [/r] itself:
    a cycle back to the parent. *)
Definition dot_cycle : node :=
  NDir true [("r", NDir true [("loop", NLink "."); ("z", NFile true "")])].

(** The same cycle through the absolute target "/r/", spelled with a
    trailing slash. *)
Definition slash_cycle : node :=
  NDir true [("r", NDir true [("loop", NLink "/r/"); ("z", NFile true "")])].

(** A cycle through the absolute target "/r", spelled as the walk spells
    the root. *)
Definition plain_cycle : node :=
  NDir true
    [("r", NDir true
        [("a", NDir true [("f", NFile true "x"); ("loop", NLink "/r")]);
         ("b", NFile true "y")])].

(** [/r] holds the link [a] to its sibling directory [d], by the relative
    target "d". *)
Definition sibling_link : node :=
  NDir true
    [("r", NDir true [("a", NLink "d"); ("d", NDir true [("f", NFile true "x")])])].

(** How often [p] occurs in a list of visited paths. *)
Definition visits_of (p : string) (l : list string) : nat :=
  length (List.filter (String.eqb p) l).

(** The number of file-system objects in a tree. *)
Fixpoint count_nodes (x : node) : nat :=
  match x with
  | NDir _ es =>
      S ((fix sum (es : list (string * node)) : nat :=
            match es with
            | [] => 0
            | (_, y) :: es' => count_nodes y + sum es'
            end) es)
  | _ => 1
  end.

(** Whether [Populate]'s README loop stops at an entry: its lower-cased
    name is one of the three. *)
Definition readme_name (name : string) : bool :=
  let name := Strings.ToLower name in
  String.eqb name "readme.txt" || String.eqb name "readme.html"
  || String.eqb name "readme.md".

Definition is_readme (f : FileInfo) : bool := readme_name (fs.Name (info f)).

(** The entry [Populate] makes of a file of the directory. *)
Definition populated (os : OS) (root dirpath : string) (f : fs.FileInfo)
  : FileInfo :=
  PopulateFrom (fun p k => k (os_Stat os p)) zero_FileInfo
    (Path.Join [root; dirpath; fs.Name f]) f (fun finfo _ => finfo).

(** The order [sort.Slice] leaves the entries in: no entry is [less] than
    an earlier one. *)
Definition listing_order (l : list FileInfo) : Prop :=
  StronglySorted (fun a b => less b a = false) l.

(** A directory with three READMEs, in lower and in upper case. *)
Definition readmes : node :=
  NDir true
    [("docs", NDir true
        [("README.md", NFile true "# Title");
         ("README.txt", NFile true "plain <text>");
         ("notes", NDir true []);
         ("readme.md", NFile true "lower md");
         ("readme.txt", NFile true "lower txt")])].

Definition regular (name : string) : fs.FileInfo :=
  fs.mkFileInfo name 0%N 420%N 0%N.

(** The index of [/docs] in [readmes], as [Populate] computes it from the
    directory's entries in the order the system lists them. *)
Definition readmes_files : list fs.FileInfo :=
  [regular "README.md"; regular "README.txt";
   fs.mkFileInfo "notes" 4096%N (N.lor fs.ModeDir 493%N) 0%N;
   regular "readme.md"; regular "readme.txt"].

Definition readmes_index : IndexContext :=
  Eval vm_compute in
    match Populate (MemFS.mount readmes []) paragraph readmes_files
            "/docs" "/" with
    | ok ic => ic
    | failed _ => mkIndexContext "" "" [] None false
    end.

Definition two_readmes_files : list fs.FileInfo :=
  [regular "README.txt"; regular "README.md";
   fs.mkFileInfo "notes" 4096%N (N.lor fs.ModeDir 493%N) 0%N].

(** *** Trees to archive *)

Fixpoint no_slash (s : string) : bool :=
  match s with
  | EmptyString => true
  | String c s' => negb (Ascii.eqb c "/") && no_slash s'
  end.

(** A name a directory entry can have. *)
Definition valid_name (n : string) : bool :=
  negb (String.eqb n "") && negb (String.eqb n ".")
  && negb (String.eqb n "..") && no_slash n.

Fixpoint distinct (names : list string) : bool :=
  match names with
  | [] => true
  | n :: names' => negb (existsb (String.eqb n) names') && distinct names'
  end.

(** A tree the archive functions can read through: entries have valid,
    distinct names, every file can be opened and every directory listed,
    and an object that is neither file, directory nor link has the type
    bits of neither. *)
Fixpoint archivable (x : node) : bool :=
  match x with
  | NFile readable _ => readable
  | NDir readable es =>
      readable && forallb valid_name (map fst es) && distinct (map fst es)
      && (fix all (es : list (string * node)) : bool :=
            match es with
            | [] => true
            | (_, y) :: es' => archivable y && all es'
            end) es
  | NLink _ => true
  | NOther typ => negb (fs.IsDir typ) && negb (fs.IsRegular typ)
  end.

(** The regular files of a tree, in the order of its entries, each with
    its path: the names that lead to it from the root [x], joined by "/".
    [names] are the names that lead to [x]. *)
Fixpoint files_of (names : list string) (x : node) : list (string * string) :=
  match x with
  | NFile _ data => [(Strings.JoinSlash names, data)]
  | NDir _ es =>
      (fix entries (es : list (string * node)) : list (string * string) :=
         match es with
         | [] => []
         | (n, y) :: es' => files_of (names ++ [n]) y ++ entries es'
         end) es
  | _ => []
  end.

(** The depth of recursion a walk of the tree needs. *)
Fixpoint depth (x : node) : nat :=
  match x with
  | NDir _ es =>
      S ((fix deepest (es : list (string * node)) : nat :=
            match es with
            | [] => 0
            | (_, y) :: es' => Nat.max (depth y) (deepest es')
            end) es)
  | _ => 1
  end.

(** The path [fs.WalkDir] from "." calls an entry by. *)
Definition walk_name (names : list string) : string :=
  match names with
  | [] => "."
  | _ => Strings.JoinSlash names
  end.

(** An absolute path from names. *)
Definition abs_path (names : list string) : string :=
  String "/" (Strings.JoinSlash names).

(** A tree with files at two levels, a link and a named pipe. *)
Definition mixed_entries : list (string * node) :=
  [("a", NDir true
      [("f", NFile true "xyz"); ("l", NLink "f");
       ("p", NOther fs.ModeNamedPipe)]);
   ("b", NFile true "y");
   ("e", NDir true [])].

Definition mixed_tree : node := NDir true mixed_entries.

Definition mixed_fs : node :=
  NDir true [("srv", NDir true [("data", mixed_tree)])].

Definition is_link (x : node) : bool :=
  match x with NLink _ => true | _ => false end.

(** The elements of the walker's name for [names]. *)
Definition walk_elems (names : list string) : list string :=
  match names with
  | [] => ["."]
  | _ => names
  end.

Definition is_dir (x : node) : bool :=
  match x with NDir _ _ => true | _ => false end.

(** The regular files below the entries [es] of the directory at [names]. *)
Definition entries_files (names : list string) (es : list (string * node))
  : list (string * string) :=
  flat_map (fun e => files_of (names ++ [fst e]) (snd e)) es.

(** [os.DirFS] on the directory [abs_path ps] of the file system [whole]. *)
Definition mounted (whole : node) (ps : list string) : fs.FS :=
  os_DirFS (MemFS.mount whole []) (abs_path ps).

(** Adding the files [l], one after the other, by [emit]. *)
Definition emit_all {St : Type} (emit : string -> string -> St -> St)
    (l : list (string * string)) (w : St) : St :=
  fold_left (fun w e => emit (fst e) (snd e) w) l w.

(** The entry a directory listing, or the stat of the root, gives for an
    object. *)
Definition entry_for (d : fs.DirEntry) (x : node) : Prop :=
  fs.DirEntry_Type d = fs.Type_ (MemFS.mode_of x)
  /\ fs.DirEntry_IsDir d = fs.IsDir (MemFS.mode_of x).

(** A relative path of valid names: no leading slash, no empty element,
    no "." and no "..". *)
Definition archive_name (p : string) : bool :=
  negb (Path.IsAbs p) && forallb valid_name (Strings.SplitSlash p).

(** The header both archive functions write for the file at [p]. *)
Definition file_header (p data : string) : Header :=
  mkHeader p (N.of_nat (String.length data)) 420%N 0%N.

(** What writing the file at [p] adds to a [zip.Writer], to a [tar.Writer]. *)
Definition zip_emit (p data : string) (w : zip.Writer) : zip.Writer :=
  zip.mkWriter (zip.entries w ++ [(file_header p data, data)]) (zip.closed w).

Definition tar_emit (p data : string) (w : tar.Writer) : tar.Writer :=
  tar.mkWriter (tar.entries w ++ [(file_header p data, data)])
    (tar.closed w) (tar.gzip_closed w).

(** A computation of the walker under which [visited] only grows. *)
Definition grows {U A : Type} (m : walk.W U A) : Prop :=
  forall s,
    match m s with
    | Done _ s' | Panic _ s' => walk.visited s ⊆ walk.visited s'
    | OutOfFuel => True
    end.

(** [strings.ReplaceAll s old new] for a one-byte [old]. *)
Fixpoint ReplaceAll (s : string) (old : ascii) (new : string) : string :=
  match s with
  | EmptyString => EmptyString
  | String c s' =>
      (if Ascii.eqb c old then new else String c EmptyString)
      +:+ ReplaceAll s' old new
  end.

(** [strings.Repeat s count]. *)
Fixpoint Repeat (s : string) (count : nat) : string :=
  match count with
  | O => EmptyString
  | S n => s +:+ Repeat s n
  end.

(** [f.RelHREF()]. *)
Definition RelHREF (f : FileInfo) : string := ReplaceAll (RelPath f) "#" "%23".

(** [f.IconName()]. *)
Definition IconName (f : FileInfo) : string :=
  let t := fs.Type_ (fs.Mode (info f)) in
  if N.eqb t fs.ModeDir then "folder"
  else if N.eqb t fs.ModeSymlink then
    if fs.IsDir (TargetMode f) then "folder-shortcut" else "file-shortcut"
  else "file".

Record Crumb : Type := mkCrumb { Link : string; Text : string }.

(** [Crumbs]: one crumb per segment of [dirpath], a final empty segment
    dropped; the crumb of segment [i] links [len - i - 1] levels up. *)
Definition Crumbs (dirpath : string) : list Crumb :=
  let split := Strings.SplitSlash dirpath in
  let split :=
    if String.eqb (List.last split "") "" then removelast split else split in
  imap (fun i segment =>
          mkCrumb (Repeat "../" (length split - i - 1)) segment) split.

Fixpoint has_byte (c : ascii) (s : string) : bool :=
  match s with
  | EmptyString => false
  | String x s' => Ascii.eqb x c || has_byte c s'
  end.

(** *** Requests *)

(** The parts of an [http.Request] the handlers read: the method, the
    path of the URL, and the first value of each query parameter. *)
Record Request : Type := mkRequest {
  Method : string;
  URL_Path : string;
  URL_Query : gmap string string
}.

(** [r.URL.Query().Get(key)]: "" when the key is missing. *)
Definition Query_Get (r : Request) (key : string) : string :=
  default "" (URL_Query r !! key).

(** The call by which [ServeHTTP] answers: [http.Error] with its message
    and status, [http.Redirect] with the url and status it is given,
    [http.ServeContent] and [http.ServeFile] with their arguments, the
    search handler with its run, an archive function with the
    [Content-Disposition] header set before it and its run on the
    response, or the template "dir.html" with its context. *)
Inductive Reply : Type :=
| Reply_Error (err : error) (code : nat)
| Reply_Redirect (url : string) (code : nat)
| Reply_ServeContent (name : string) (modtime : N) (content : fs.File)
| Reply_ServeFile (name : string)
| Reply_Search (run : Outcome (list Syscall) (Response * option error))
| Reply_TarGZ (disposition : string) (run : Outcome tar.Writer (option error))
| Reply_ZIP (disposition : string) (run : Outcome zip.Writer (option error))
| Reply_Dir (ctx : IndexContext).

Definition StatusMethodNotAllowed : nat := 405.
Definition StatusTemporaryRedirect : nat := 307.
Definition StatusNotFound : nat := 404.
Definition StatusInternalServerError : nat := 500.

(** [file.Readdir(0)] on the directory opened at [p]: the entries are
    listed and each is described by an [lstat]; an entry that is gone by
    then is left out, another failure ends the listing with the error. *)
Fixpoint lstat_entries (os : OS) (p : string) (ds : list fs.DirEntry)
  : list fs.FileInfo * option error :=
  match ds with
  | [] => ([], None)
  | d :: ds' =>
      match os_Lstat os (p +:+ "/" +:+ fs.DirEntry_Name d) with
      | ok i => let '(l, err) := lstat_entries os p ds' in (i :: l, err)
      | failed ENOENT => lstat_entries os p ds'
      | failed e => ([], Some e)
      end
  end.

Definition Readdir (os : OS) (p : string) : list fs.FileInfo * option error :=
  let '(ds, err) := os_ReadDir os p in
  match err with
  | Some e => (fst (lstat_entries os p ds), Some e)
  | None => lstat_entries os p ds
  end.

(** The name [handleDir] gives a download: the last element of the request
    path, "root" for the served directory itself. *)
Definition download_name (relpath : string) : string :=
  let '(_, dirname) := Path.Split relpath in
  if String.eqb dirname "" then "root" else dirname.

Section Serve.
Variable re : RegexpLib.
Variable Markdown : string -> result string.
Variable os : OS.

(** [handleDir]: [p] is the path [file] was opened at. *)
Definition handleDir (fuel : nat) (s : Server) (r : Request)
    (relpath : string) : Reply :=
  if negb (String.eqb (Method r) "GET") then
    Reply_Error (ErrMsg "Method Not Allowed") StatusMethodNotAllowed
  else if negb (ends_with_slash (URL_Path r)) then
    Reply_Redirect (URL_Path r +:+ "/") StatusTemporaryRedirect
  else
    let dl := Query_Get r "dl" in
    if negb (String.eqb dl "") then
      let dirname := download_name relpath in
      if String.eqb dl "targz" then
        Reply_TarGZ ("attachment; filename=" +:+ dirname +:+ ".tar.gz")
          (archiveTarGZ os fuel (Path.Join [dir s; relpath]) tar.NewWriter)
      else if String.eqb dl "zip" then
        Reply_ZIP ("attachment; filename=" +:+ dirname +:+ ".zip")
          (archiveZIP os fuel (Path.Join [dir s; relpath]) zip.NewWriter)
      else
        Reply_Error (ErrMsg "dl must be one of 'targz', 'zip'") StatusBadRequest
    else
      let '(files, err) := Readdir os (Path.Join [dir s; relpath]) in
      match err with
      | Some e => Reply_Error e StatusInternalServerError
      | None =>
          if existsb (fun file => String.eqb (fs.Name file) "index.html") files
          then Reply_ServeFile (Path.Join [dir s; relpath; "index.html"])
          else
            match Populate os Markdown files relpath (dir s) with
            | failed e => Reply_Error e StatusInternalServerError
            | ok d => Reply_Dir d
            end
      end.

(** [ServeHTTP]. *)
Definition ServeHTTP (fuel : nat) (s : Server) (r : Request) : Reply :=
  if negb (String.eqb (Method r) "GET" || String.eqb (Method r) "HEAD") then
    Reply_Error (ErrMsg "Method Not Allowed") StatusMethodNotAllowed
  else
    let d := Query_Get r "dir" in
    if negb (String.eqb d "") then
      Reply_Redirect ("/" +:+ d) StatusTemporaryRedirect
    else
      let relpath := Path.Clean (URL_Path r) in
      match os_Open os (Path.Join [dir s; relpath]) with
      | failed e => Reply_Error e StatusNotFound
      | ok file =>
          match fs.File_Stat file with
          | failed e => Reply_Error e StatusInternalServerError
          | ok stat =>
              if fs.IsDir (fs.Mode stat) then
                let query := Query_Get r "q" in
                if negb (String.eqb query "") then
                  let isregexp := String.eqb (Query_Get r "regexp") "on" in
                  Reply_Search
                    (handleSearch re os fuel s relpath query isregexp [])
                else handleDir fuel s r relpath
              else
                Reply_ServeContent (fs.Name stat) (fs.ModTime stat) file
          end
      end.
End Serve.

(** A GET request with query parameters. *)
Definition get (p : string) (q : list (string * string)) : Request :=
  mkRequest "GET" p (list_to_map q).

(** A tree without links, which the walker can read through: entries have
    valid, distinct names, every directory can be listed, and an object
    that is neither file nor directory has the type bits of neither a
    directory nor a link. *)
Fixpoint link_free (x : node) : bool :=
  match x with
  | NFile _ _ => true
  | NDir readable es =>
      readable && forallb valid_name (map fst es) && distinct (map fst es)
      && (fix all (es : list (string * node)) : bool :=
            match es with
            | [] => true
            | (_, y) :: es' => link_free y && all es'
            end) es
  | NLink _ => false
  | NOther typ =>
      negb (fs.IsDir typ) && negb (N.eqb (fs.Type_ typ) fs.ModeSymlink)
  end.

(** The objects of a tree, each with the names that lead to it from the
    root [x]: a directory, then its entries in their order, each followed
    by what is below it.  [names] are the names that lead to [x]. *)
Fixpoint objects_of (names : list string) (x : node)
  : list (list string * node) :=
  (names, x) ::
  match x with
  | NDir _ es =>
      (fix entries (es : list (string * node)) : list (list string * node) :=
         match es with
         | [] => []
         | (n, y) :: es' => objects_of (names ++ [n]) y ++ entries es'
         end) es
  | _ => []
  end.

(** The objects below the entries [es] of the directory at [names]. *)
Definition entries_objects (names : list string) (es : list (string * node))
  : list (list string * node) :=
  flat_map (fun e => objects_of (names ++ [fst e]) (snd e)) es.

(** What a callback that adds to its variables by [emit] has after it was
    shown the objects [l], one after the other. *)
Definition emit_objects {U : Type} (emit : list string -> node -> U -> U)
    (l : list (list string * node)) (u : U) : U :=
  fold_left (fun u o => emit (fst o) (snd o) u) l u.

(** Nothing at or below the path of [q] is in [V]. *)
Definition unvisited_below (q : list string) (V : gset string) : Prop :=
  forall r, forallb valid_name r = true -> abs_path (q ++ r) ∉ V.

(** What [V'] holds beyond [V] lies at or below the path of [q]. *)
Definition visited_below (q : list string) (V V' : gset string) : Prop :=
  forall p, p ∈ V' ->
    p ∈ V \/ exists r, forallb valid_name r = true /\ p = abs_path (q ++ r).

(** The results a search sends for the object [o] of the tree served at
    [ps]: nothing for the root of the search; for any other object, when
    the expression matches its path, or when its lowered name holds the
    lowered query, its [info] with its path from the root of the search.
    [lower] is [strings.ToLower]. *)
Definition search_hit (re : RegexpLib) (lower : string -> string)
    (exp : option (Regexp re)) (query : string) (ps : list string)
    (o : list string * node) : list FileInfo :=
  match fst o with
  | [] => []
  | names =>
      if match exp with
         | Some e => MatchString re e (abs_path (ps ++ names))
         | None =>
             Strings.Contains (lower (List.last names "")) (lower query)
         end
      then [match_of (Strings.JoinSlash names)
              (MemFS.info_of (List.last names "") (snd o))]
      else []
  end.

(** A served directory [/srv] with files at two levels and a named pipe. *)
Definition notes_tree : node :=
  NDir true
    [("docs", NDir true [("Notes.txt", NFile true "a"); ("todo", NFile false "b")]);
     ("notes", NFile true "n");
     ("pipe", NOther fs.ModeNamedPipe)].

Definition notes_fs : node := NDir true [("srv", notes_tree)].

(** *** Banners *)

(** [type Banner struct { ImageURL, Link string }]; its field [Link] is
    [Banner_Link] here, [Crumb] having a [Link] too. *)
Record Banner : Type :=
  mkBanner { ImageURL : string; Banner_Link : string }.

(** The errors [banner] makes: "reading file: ..." around the error of
    [os.ReadFile], "empty file", "no banners specified", "invalid file". *)
Inductive BannerError : Type :=
| ReadingFile (err : error)
| EmptyFile
| NoBanners
| InvalidFile.

(** How a call of [banner] ends: with a banner, with an error, or in the
    panic of an index out of range. *)
Inductive BannerResult : Type :=
| banner_ok (b : Banner)
| banner_failed (e : BannerError)
| banner_panic (msg : string).

Definition newline : ascii := "010"%char.

(** [bytes.Split(s, sep)] for a one-byte [sep]. *)
Fixpoint SplitByte (sep : ascii) (s : string) : list string :=
  match s with
  | EmptyString => [EmptyString]
  | String c s' =>
      if Ascii.eqb c sep then EmptyString :: SplitByte sep s'
      else match SplitByte sep s' with
           | w :: ws => String c w :: ws
           | [] => [String c EmptyString]
           end
  end.

(** [bytes.Cut(s, sep)] for a one-byte [sep]: what is before and what is
    after the first [sep], if there is one. *)
Fixpoint Cut (sep : ascii) (s : string) : option (string * string) :=
  match s with
  | EmptyString => None
  | String c s' =>
      if Ascii.eqb c sep then Some (EmptyString, s')
      else match Cut sep s' with
           | Some (before, after) => Some (String c before, after)
           | None => None
           end
  end.

(** [bytes.SplitN(s, sep, 2)] for a one-byte [sep]. *)
Definition SplitN2 (sep : ascii) (s : string) : list string :=
  match Cut sep s with
  | Some (before, after) => [before; after]
  | None => [s]
  end.

(** The lines of a banners file that are not empty. *)
Definition banner_lines (p : string) : list string :=
  List.filter (fun b => negb (String.eqb b "")) (SplitByte newline p).

(** [banner(path)]; [Intn] is [rand.Intn]. *)
Definition banner (os : OS) (Intn : nat -> nat) (path : string)
  : BannerResult :=
  match os_ReadFile os path with
  | failed err => banner_failed (ReadingFile err)
  | ok p =>
      if Nat.eqb (String.length p) 0 then banner_failed EmptyFile
      else
        let banners := banner_lines p in
        if Nat.eqb (length banners) 0 then banner_failed NoBanners
        else
          match banners !! Intn (length banners) with
          | None => banner_panic "index out of range"
          | Some b =>
              match SplitN2 " " b with
              | [url; link] => banner_ok (mkBanner url link)
              | _ => banner_failed InvalidFile
              end
          end
  end.

(** A banners file with an empty line and a link that holds a space. *)
Definition banners_fs : node :=
  NDir true
    [("srv", NDir true
        [("banners",
          NFile true
            ("a.png http://a" +:+ String newline (String newline
             ("b.png http://b c" +:+ String newline ""))))])].

(** A computation that keeps [P] of the state, however it ends. *)
Definition keeps {St A : Type} (P : St -> Prop) (m : M St A) : Prop :=
  forall s, P s ->
    match m s with
    | Done _ s' | Panic _ s' => P s'
    | OutOfFuel => True
    end.

(** The entries of [/docs] in [readmes] whose README is a text file. *)
Definition txt_files : list fs.FileInfo :=
  [regular "README.txt";
   fs.mkFileInfo "notes" 4096%N (N.lor fs.ModeDir 493%N) 0%N].

Definition txt_index : IndexContext :=
  Eval vm_compute in
    match Populate (MemFS.mount readmes []) paragraph txt_files
            "/docs" "/" with
    | ok ic => ic
    | failed _ => mkIndexContext "" "" [] None false
    end.

(** The bytes that open or close a tag or an attribute value. *)
Definition markup_free (s : string) : bool :=
  negb (has_byte "<" s) && negb (has_byte ">" s)
  && negb (has_byte "'" s) && negb (has_byte (ascii_of_nat 34) s).

(** *** Search, with Go's lower-casing as a parameter *)

Section SearchWith.
Variable re : RegexpLib.
(** [strings.ToLower], which lower-cases the letters of every script;
    [Strings.ToLower] is that function on strings of ASCII bytes. *)
Variable lower : string -> string.
Variable os : OS.

(** The closure [fn] of [handleSearch], as [search_fn], with
    [strings.ToLower] as [lower]. *)
Definition search_fn_with (basepath : string) (exp : option (Regexp re))
    (lowerq : string) : WalkDirFunc (list FileInfo) :=
  fun fpath err =>
    let continue : Visit (list FileInfo) (option error) :=
      match Path.Rel basepath fpath with
      | None => VPanic "impossible"
      | Some name =>
          if String.eqb name "." then VRet None
          else
            let matched :=
              match exp with
              | Some exp => MatchString re exp fpath
              | None =>
                  let '(_, name) := Path.Split name in
                  Strings.Contains (lower name) lowerq
              end in
            if negb matched then VRet None
            else
              VInfo (fun r =>
                match r with
                | failed e => VRet (Some e)
                | ok info =>
                    PopulateFrom VStat zero_FileInfo fpath info
                      (fun finfo _ =>
                         let finfo := set_path name finfo in
                         VGet (fun results =>
                           VPut (results ++ [finfo]) (VRet None)))
                end)
      end in
    match err with
    | Some e => if IsPermission e then continue else VRet (Some e)
    | None => continue
    end.

(** [handleSearch], as above, with [strings.ToLower] as [lower]. *)
Definition handleSearch_with (fuel : nat) (s : Server)
    (relpath query : string) (isregexp : bool)
  : M (list Syscall) (Response * option error) :=
  fun tr =>
    let compiled : result (option (Regexp re) * string) :=
      if isregexp then
        match Compile re query with
        | failed e => failed e
        | ok exp => ok (Some exp, "")
        end
      else ok (None, lower query) in
    match compiled with
    | failed e => Done (http_Error e StatusBadRequest, None) tr
    | ok (exp, lowerq) =>
        let basepath := Path.Join [dir s; relpath] in
        let fn := search_fn_with basepath exp lowerq in
        match walk.WalkDir os fuel (Path.Join [dir s; relpath]) fn
                (walk.mkState ∅ None tr []) with
        | OutOfFuel => OutOfFuel
        | Panic msg st => Panic msg (walk.trace st)
        | Done err st =>
            let ctx := mkSearchContext query relpath query (walk.user st) in
            Done (ExecuteTemplate "search.html" ctx, err)
              (walk.trace st ++ [SysReadFile (Path.Join [dir s; "banners"])])
        end
    end.
End SearchWith.

(** The callback [fn], run on the entry [fpath] as [walkDir] runs it,
    decides as [matched] says.  Not matched, it returns nil, sends nothing
    and makes no file-system call.  Matched, it asks for [info]: when
    [os.Stat] fails it returns that error and sends nothing, otherwise it
    returns nil and sends the entry once, with that info and the
    traversal-relative path [name]. *)
Definition decides (os : OS) (fn : WalkDirFunc (list FileInfo))
    (fpath name : string) (s : walk.State (list FileInfo)) (matched : bool)
  : Prop :=
  exists r s',
    walk.run_visit os (Some (walk.getinfo os fpath)) (fn fpath None)
      (walk.set_stat None s) = Done r s'
    /\ if matched then
         match os_Stat os fpath with
         | ok i => r = None /\ walk.user s' = walk.user s ++ [match_of name i]
         | failed e => r = Some e /\ walk.user s' = walk.user s
         end
       else r = None /\ walk.user s' = walk.user s
            /\ walk.trace s' = walk.trace s.

(** What a callback that adds to its variables by [emit] and answers
    [ret] has after a walk that shows it the objects [l] one after the
    other and ends at the first for which [ret] is an error: that error,
    if there is one, and the callback's variables. *)
Fixpoint emit_until {U : Type} (emit : list string -> node -> U -> U)
    (ret : list string -> node -> option error)
    (l : list (list string * node)) (u : U) : option error * U :=
  match l with
  | [] => (None, u)
  | o :: l' =>
      let u' := emit (fst o) (snd o) u in
      match ret (fst o) (snd o) with
      | Some e => (Some e, u')
      | None => emit_until emit ret l' u'
      end
  end.

(** A callback that records the paths it is shown and answers the error
    [e] at the path [target]. *)
Definition fail_at (target : string) (e : error) : WalkDirFunc (list string) :=
  fun p err =>
    VGet (fun l =>
      VPut (l ++ [p])
        (if String.eqb p target then VRet (Some e) else VRet None)).

(** The paths of [l] up to the first [target], that one included; all of
    [l] when [target] is not among them. *)
Fixpoint take_until (target : string) (l : list string) : list string :=
  match l with
  | [] => []
  | p :: l' => p :: (if String.eqb p target then [] else take_until target l')
  end.

(** The directory [/docs] with README.md, README.txt and one more README:
    README.html in [html_readmes], README.TXT in [upper_readmes]. *)
Definition html_readmes : node :=
  NDir true
    [("docs", NDir true
        [("README.html", NFile true "<b>raw</b>");
         ("README.md", NFile true "# Title");
         ("README.txt", NFile true "plain")])].

Definition html_readmes_files : list fs.FileInfo :=
  [regular "README.html"; regular "README.md"; regular "README.txt"].

Definition upper_readmes : node :=
  NDir true
    [("docs", NDir true
        [("README.TXT", NFile true "shout");
         ("README.md", NFile true "# Title");
         ("README.txt", NFile true "plain")])].

Definition upper_readmes_files : list fs.FileInfo :=
  [regular "README.TXT"; regular "README.md"; regular "README.txt"].

(** What [stat] holds was returned by an [os.Stat] of [name] made since
    the trace was [tr0]. *)
Definition stat_kept {U : Type} (os : OS) (name : string)
    (tr0 : list Syscall) (s : walk.State U) : Prop :=
  exists added,
    walk.trace s = tr0 ++ added
    /\ forall i, walk.stat s = Some i ->
         os_Stat os name = ok i /\ In (SysStat name) added.

(* ===================================================================== *)
(** * Properties                                                         *)
(* ===================================================================== *)

Ltac monad_unfold :=
  unfold mbind, mret, M_mbind, M_mret, M_bind, M_ret, modify, gets, panic,
    out_of_fuel in *.

Section WalkerFacts.
Context {U : Type}.
Variable os : OS.

(** A callback that returns although it was handed no accessor did not
    call [info]: it returns the same with any accessor, and leaves the
    walker's [visited] and [stat] alone. *)
Lemma run_visit_without_info {A} (v : Visit U A) :
  forall (get : walk.W U (result fs.FileInfo)) s a s',
    walk.run_visit os None v s = Done a s' ->
    walk.run_visit os (Some get) v s = Done a s'
    /\ walk.stat s' = walk.stat s /\ walk.visited s' = walk.visited s.
Proof.
  induction v as [a0 | k IH | p k IH | k IH | u k IH | msg];
    intros get s a s' Hrun; simpl in *.
  - monad_unfold. inversion Hrun; subst. auto.
  - monad_unfold. discriminate.
  - unfold walk.sys_Stat in *. monad_unfold. simpl in *.
    destruct (IH _ get _ _ _ Hrun) as (H1 & H2 & H3). auto.
  - monad_unfold. simpl in *.
    destruct (IH _ get _ _ _ Hrun) as (H1 & H2 & H3). auto.
  - monad_unfold. simpl in *.
    destruct (IH get _ _ _ Hrun) as (H1 & H2 & H3). auto.
  - monad_unfold. discriminate.
Qed.

(** One frame of [walkDir] whose callback returned an error [err]. *)
Lemma walkDir_callback_error fuel name d (fn : WalkDirFunc U) s err s1 :
  walk.run_visit os (Some (walk.getinfo os name)) (fn name None)
    (walk.set_stat None s) = Done (Some err) s1 ->
  walk.walkDir os (S fuel) name d fn s =
    if error_eqb err SkipDir then
      match walk.stat s1 with
      | None => Panic "invalid memory address or nil pointer dereference" s1
      | Some i =>
          if fs.IsDir (fs.Mode i) then Done None s1 else Done (Some err) s1
      end
    else Done (Some err) s1.
Proof.
  intros Hrun. simpl. monad_unfold. simpl. rewrite Hrun.
  destruct (error_eqb err SkipDir); [|reflexivity].
  destruct (walk.stat s1) as [i|]; [|reflexivity].
  destruct (fs.IsDir (fs.Mode i)); reflexivity.
Qed.

(** The loop over the entries of a directory, when walking the first
    entry returned an error. *)
Lemma range_dirs_error rec name d1 dirs (s : walk.State U) e s1 :
  rec (Path.Join [name; fs.DirEntry_Name d1]) d1 s = Done (Some e) s1 ->
  walk.range_dirs rec name (d1 :: dirs) s =
    Done (if error_eqb e SkipDir then None else Some e) s1.
Proof.
  intros Hrec. simpl. monad_unfold. rewrite Hrec.
  destruct (error_eqb e SkipDir); reflexivity.
Qed.

End WalkerFacts.

Lemma error_eqb_eq (a b : error) : error_eqb a b = true <-> a = b.
Proof.
  split.
  - destruct a, b; simpl; try discriminate; try reflexivity.
    intros H. apply String.eqb_eq in H. now subst.
  - intros ->. destruct b; simpl; try reflexivity. apply String.eqb_refl.
Qed.

Lemma error_eqb_neq (a b : error) : error_eqb a b = false <-> a <> b.
Proof.
  rewrite <- error_eqb_eq. destruct (error_eqb a b); split; congruence.
Qed.

(* --------------------------------------------------------------------- *)
(** ** The walker's handling of what the callback returns                *)
(* --------------------------------------------------------------------- *)

(** C10.  If the callback returns [fs.SkipDir] for an entry without having
    called that entry's lazy [info] accessor (it returns [SkipDir] even
    when it is handed no accessor at all), [walkDir] evaluates
    [stat.IsDir()] on the nil [stat] and panics; it neither prunes nor
    continues. *)
Theorem walkDir_SkipDir_without_info_panics
    {U : Type} (os : OS) (fuel : nat) (name : string) (d : fs.DirEntry)
    (fn : WalkDirFunc U) (s s' : walk.State U) :
  walk.run_visit os None (fn name None) (walk.set_stat None s)
    = Done (Some SkipDir) s' ->
  walk.walkDir os (S fuel) name d fn s
    = Panic "invalid memory address or nil pointer dereference" s'.
Proof.
  intros Hrun.
  destruct (run_visit_without_info os _ (walk.getinfo os name) _ _ _ Hrun)
    as (Hget & Hstat & _).
  rewrite (walkDir_callback_error os fuel name d fn s SkipDir s' Hget).
  simpl in *. rewrite Hstat. reflexivity.
Qed.

Lemma walkDir_SkipDir_without_info_panics_witness :
  let os := MemFS.mount two_files [] in
  let s := walk.mkState ∅ None [] [] in
  walk.run_visit os None (skip_blind "/r/a" None) (walk.set_stat None s)
    = Done (Some SkipDir) s
  /\ walk.walkDir os 1 "/r/a" (fs.dirent "/r" "a" 0%N) skip_blind s
    = Panic "invalid memory address or nil pointer dereference" s.
Proof.
  split; [reflexivity|].
  apply (walkDir_SkipDir_without_info_panics (MemFS.mount two_files []) 0
           "/r/a" (fs.dirent "/r" "a" 0%N) skip_blind).
  reflexivity.
Defined.

(** The other side of C10: when [walkDir] does return after the callback
    answered [SkipDir], the accessor had run and its [os.Stat] had
    succeeded. *)
Lemma walkDir_SkipDir_returns_only_with_stat
    {U : Type} (os : OS) (fuel : nat) (name : string) (d : fs.DirEntry)
    (fn : WalkDirFunc U) (s s1 s2 : walk.State U) (r : option error) :
  walk.run_visit os (Some (walk.getinfo os name)) (fn name None)
    (walk.set_stat None s) = Done (Some SkipDir) s1 ->
  walk.walkDir os (S fuel) name d fn s = Done r s2 ->
  exists i, walk.stat s1 = Some i.
Proof.
  intros Hrun Hwalk.
  rewrite (walkDir_callback_error os fuel name d fn s SkipDir s1 Hrun) in Hwalk.
  simpl in Hwalk. destruct (walk.stat s1) as [i|]; [eauto | discriminate].
Qed.


(* --------------------------------------------------------------------- *)
(** ** Search                                                            *)
(* --------------------------------------------------------------------- *)

(** C7.  With [isregexp] set and a query that does not compile,
    [handleSearch] answers with the compile error and status 400 and does
    nothing else: no traversal, no result, and the trace of file-system
    calls is the one it started with. *)
Theorem handleSearch_bad_regexp
    (re : RegexpLib) (os : OS) (fuel : nat) (s : Server)
    (relpath query : string) (e : error) (tr : list Syscall) :
  Compile re query = failed e ->
  handleSearch re os fuel s relpath query true tr
    = Done (http_Error e StatusBadRequest, None) tr.
Proof.
  intros Hc. unfold handleSearch. rewrite Hc. reflexivity.
Qed.

Lemma handleSearch_bad_regexp_witness :
  Compile LitRegexp.lib "(" = failed (ErrMsg "error parsing regexp")
  /\ handleSearch LitRegexp.lib (MemFS.mount served []) 9 (mkServer "/srv")
       "/" "(" true []
     = Done (http_Error (ErrMsg "error parsing regexp") 400, None) [].
Proof.
  split; [reflexivity|].
  apply (handleSearch_bad_regexp LitRegexp.lib (MemFS.mount served []) 9
           (mkServer "/srv") "/" "(" (ErrMsg "error parsing regexp") []).
  reflexivity.
Defined.

(** C6 fails on the code.  Searching [/srv] for "secret", where
    [/srv/secret] is a directory whose listing is denied: the directory is
    sent on the channel at its visit and again when [walkDir] reports the
    failed [ReadDir] through the callback, which lets a permission error
    pass and matches the same entry a second time. *)
Theorem handleSearch_unreadable_dir_sent_twice :
  exists ctx tr,
    handleSearch LitRegexp.lib (MemFS.mount served []) 9 (mkServer "/srv")
      "/" "secret" false []
      = Done (ExecuteTemplate "search.html" ctx, None) tr
    /\ map path (Results ctx) = ["secret"; "secret"]
    /\ map (fun m => fs.Name (info m)) (Results ctx) = ["secret"; "secret"].
Proof.
  eexists. eexists. split; [vm_compute; reflexivity|].
  split; reflexivity.
Qed.

(** With the ASCII lower-casing the two closures are one. *)
Lemma search_fn_with_ToLower (re : RegexpLib) :
  search_fn re = search_fn_with re Strings.ToLower.
Proof. reflexivity. Qed.

Lemma handleSearch_with_ToLower (re : RegexpLib) (os : OS) :
  handleSearch re os = handleSearch_with re Strings.ToLower os.
Proof. reflexivity. Qed.

(** What the closure does with an entry other than the root, in terms of
    its own [matched]. *)
Lemma search_fn_with_decides (re : RegexpLib) (lower : string -> string)
    (os : OS) (basepath : string) (exp : option (Regexp re))
    (lowerq fpath name : string) (s : walk.State (list FileInfo)) :
  Path.Rel basepath fpath = Some name ->
  name <> "." ->
  decides os (search_fn_with re lower basepath exp lowerq) fpath name s
    (match exp with
     | Some e => MatchString re e fpath
     | None => Strings.Contains (lower (snd (Path.Split name))) lowerq
     end).
Proof.
  intros Hrel Hname. unfold decides, search_fn_with.
  rewrite Hrel. apply String.eqb_neq in Hname. rewrite Hname.
  destruct (Path.Split name) as [dirpart base] eqn:Hsplit. simpl snd.
  set (matched := match exp with
                  | Some e => MatchString re e fpath
                  | None => Strings.Contains (lower base) lowerq
                  end).
  destruct matched; simpl.
  - unfold walk.getinfo, walk.sys_Stat. monad_unfold. simpl.
    destruct (os_Stat os fpath) as [i|e] eqn:Hstat; simpl.
    + unfold PopulateFrom, match_of. simpl.
      destruct (N.eqb (fs.Type_ (fs.Mode i)) fs.ModeSymlink); simpl.
      * unfold walk.sys_Stat. monad_unfold. simpl. rewrite Hstat. simpl.
        do 2 eexists. split; [reflexivity|]. split; reflexivity.
      * do 2 eexists. split; [reflexivity|]. split; reflexivity.
    + do 2 eexists. split; [reflexivity|]. split; reflexivity.
  - monad_unfold. do 2 eexists. split; [reflexivity|].
    repeat split; reflexivity.
Qed.




(* --------------------------------------------------------------------- *)
(** ** Symbolic links and cycles                                         *)
(* --------------------------------------------------------------------- *)

(** The decision [willwalk] takes for a symbolic link that can be read:
    the name it looks up in [visited] and hands to [os.Stat] is the target
    itself when absolute, and otherwise the target joined to the path of
    the link, not to the directory that holds the link. *)
Lemma willwalk_symlink {U : Type} (os : OS) (name link : string)
    (d : fs.DirEntry) (s : walk.State U) :
  fs.DirEntry_IsDir d = false ->
  fs.DirEntry_Type d = fs.ModeSymlink ->
  os_Readlink os name = ok link ->
  let realname := if Path.IsAbs link then link else Path.Join [name; link] in
  walk.willwalk os name d s =
    if bool_decide (realname ∈ walk.visited s) then
      Done (false, realname) (walk.log (SysReadlink name) s)
    else
      Done (match os_Stat os realname with
            | ok finfo => fs.IsDir (fs.Mode finfo)
            | failed _ => false
            end, realname)
        (walk.log (SysStat realname) (walk.log (SysReadlink name) s)).
Proof.
  intros Hdir Htype Hlink realname. unfold walk.willwalk.
  rewrite Hdir, Htype. simpl N.eqb. cbv iota.
  unfold walk.sys_Readlink, walk.sys_Stat. monad_unfold. simpl.
  rewrite Hlink. fold realname.
  change (walk.visited (walk.log (SysReadlink name) s)) with (walk.visited s).
  destruct (bool_decide (realname ∈ walk.visited s)); [reflexivity|].
  destruct (os_Stat os realname); reflexivity.
Qed.

(** C2 fails on the code.  [/r/a] is a link with the relative target "d";
    it resolves to the directory [/r/d], which has not been visited when
    the walker meets the link.  The walker asks [os.Stat] about "/r/a/d",
    the target joined to the link's own path, gets an error, and treats
    the link as a leaf: nothing below [/r/a] is visited. *)
Theorem relative_link_joined_to_link_path :
  exists st,
    MemFS.Stat sibling_link [] "/r/a"
      = ok (MemFS.info_of "a" (NDir true [("f", NFile true "x")]))
    /\ run_walk sibling_link 9 "/r" tracer [] = Done None st
    /\ walk.user st = ["/r"; "/r/a"; "/r/d"; "/r/d/f"]
    /\ walk.trace st
       = [SysStat "/r"; SysReadDir "/r"; SysReadlink "/r/a"; SysStat "/r/a/d";
          SysReadDir "/r/d"].
Proof.
  eexists. split; [reflexivity|].
  split; [vm_compute; reflexivity|]. split; reflexivity.
Qed.

(** C1 fails on the code.  In [/r], the link [loop] with target "." leads
    back to [/r].  The walker joins "." to the link's path, finds
    "/r/loop" absent from [visited] and a directory, and descends; below
    it meets the same link under a longer path, and so on until the kernel
    refuses to follow more links.  The file [z] and the link are shown to
    the callback under many paths: 83 visits for 3 objects. *)
Theorem dot_cycle_visited_repeatedly :
  exists visits,
    outcome_of (run_walk dot_cycle 99 "/r" tracer []) = Some (inl None, visits)
    /\ visits_of "/r/z" visits = 1
    /\ visits_of "/r/loop/z" visits = 1
    /\ visits_of "/r/loop/loop/z" visits = 1
    /\ length visits = 83
    /\ count_nodes (NDir true [("loop", NLink "."); ("z", NFile true "")]) = 3.
Proof.
  eexists. split; [vm_compute; reflexivity|].
  repeat split; vm_compute; reflexivity.
Qed.

(** The same failure without a relative target: the link's target "/r/"
    is absolute, and is looked up in [visited] as spelled, where the root
    was entered as "/r".  The cycle is entered once: 5 visits for 3
    objects. *)
Lemma slash_cycle_visited_twice :
  outcome_of (run_walk slash_cycle 9 "/r" tracer [])
  = Some (inl None, ["/r"; "/r/loop"; "/r/loop/loop"; "/r/loop/z"; "/r/z"]).
Proof. vm_compute. reflexivity. Qed.

(** Where the link's target is absolute and spelled as the walker spells
    the directory, the cycle is cut and every object is visited once. *)
Lemma plain_cycle_visited_once :
  outcome_of (run_walk plain_cycle 9 "/r" tracer [])
  = Some (inl None, ["/r"; "/r/a"; "/r/a/f"; "/r/a/loop"; "/r/b"]).
Proof. vm_compute. reflexivity. Qed.

(* --------------------------------------------------------------------- *)
(** ** Directory index: the order of the listing and the README          *)
(* --------------------------------------------------------------------- *)

Lemma ltb_lt (a b : string) : String.ltb a b = true <-> String_as_OT.lt a b.
Proof.
  rewrite <- String_as_OT.cmp_lt. unfold String.ltb, String_as_OT.cmp.
  destruct (String.compare a b); split; congruence.
Qed.

Lemma ltb_trans (a b c : string) :
  String.ltb a b = true -> String.ltb b c = true -> String.ltb a c = true.
Proof.
  rewrite !ltb_lt. apply String_as_OT.lt_trans.
Qed.

Lemma ltb_asym (a b : string) :
  String.ltb a b = true -> String.ltb b a = false.
Proof.
  unfold String.ltb. rewrite (String.compare_antisym b a).
  destruct (String.compare a b); simpl; congruence.
Qed.

Lemma less_trans (a b c : FileInfo) :
  less a b = true -> less b c = true -> less a c = true.
Proof.
  unfold less.
  destruct (fs.IsDir (mode a)), (fs.IsDir (mode b)), (fs.IsDir (mode c));
    simpl; try congruence; apply ltb_trans.
Qed.

Lemma less_asym (a b : FileInfo) : less a b = true -> less b a = false.
Proof.
  unfold less.
  destruct (fs.IsDir (mode a)), (fs.IsDir (mode b)); simpl;
    try congruence; apply ltb_asym.
Qed.

Lemma sort_insert_perm (x : FileInfo) (l : list FileInfo) :
  Permutation (sort_insert less x l) (x :: l).
Proof.
  induction l as [|y l IH]; simpl; [reflexivity|].
  destruct (less x y); [reflexivity|].
  rewrite IH. apply perm_swap.
Qed.

Lemma sort_Slice_perm (l : list FileInfo) :
  Permutation (sort_Slice less l) l.
Proof.
  induction l as [|x l IH]; simpl; [reflexivity|].
  rewrite sort_insert_perm. now rewrite IH.
Qed.

Lemma sort_insert_sorted (x : FileInfo) (l : list FileInfo) :
  listing_order l -> listing_order (sort_insert less x l).
Proof.
  unfold listing_order.
  induction 1 as [|y l Hl IH Hy]; simpl.
  - constructor; constructor.
  - destruct (less x y) eqn:Hxy.
    + constructor; [constructor; assumption|].
      constructor; [now apply less_asym|].
      rewrite Forall_forall in *. intros z Hz.
      destruct (less z x) eqn:Hzx; [|reflexivity].
      rewrite <- (Hy z Hz). symmetry. now apply (less_trans z x y).
    + constructor; [assumption|].
      rewrite Forall_forall in *. intros z Hz.
      rewrite sort_insert_perm in Hz. apply elem_of_cons in Hz.
      destruct Hz as [->|Hz]; [assumption | now apply Hy].
Qed.

Lemma sort_Slice_sorted (l : list FileInfo) :
  listing_order (sort_Slice less l).
Proof.
  induction l as [|x l IH]; simpl.
  - constructor.
  - now apply sort_insert_sorted.
Qed.

Section IndexFacts.
Variable os : OS.
Variable Markdown : string -> result string.
Variables root dirpath : string.

Lemma readme_loop_skip (f : FileInfo) (l : list FileInfo) :
  is_readme f = false ->
  readme_loop os Markdown root dirpath (f :: l)
    = readme_loop os Markdown root dirpath l.
Proof.
  unfold is_readme, readme_name. intros H. simpl.
  destruct (String.eqb (Strings.ToLower (fs.Name (info f))) "readme.txt");
    [discriminate|].
  destruct (String.eqb (Strings.ToLower (fs.Name (info f))) "readme.html");
    [discriminate|].
  destruct (String.eqb (Strings.ToLower (fs.Name (info f))) "readme.md");
    [discriminate|].
  reflexivity.
Qed.

Lemma readme_loop_stop (f : FileInfo) (l : list FileInfo) :
  is_readme f = true ->
  readme_loop os Markdown root dirpath (f :: l)
    = readme_loop os Markdown root dirpath [f].
Proof.
  unfold is_readme, readme_name. intros H. simpl.
  destruct (String.eqb (Strings.ToLower (fs.Name (info f))) "readme.txt");
    [reflexivity|].
  destruct (String.eqb (Strings.ToLower (fs.Name (info f))) "readme.html");
    [reflexivity|].
  destruct (String.eqb (Strings.ToLower (fs.Name (info f))) "readme.md");
    [reflexivity|discriminate].
Qed.

(** The README loop is decided by the first README-named entry alone. *)
Lemma readme_loop_find (l : list FileInfo) :
  readme_loop os Markdown root dirpath l =
    match List.find is_readme l with
    | Some f => readme_loop os Markdown root dirpath [f]
    | None => ok None
    end.
Proof.
  induction l as [|f l IH]; [reflexivity|].
  cbn [List.find]. destruct (is_readme f) eqn:Hf.
  - now apply readme_loop_stop.
  - rewrite readme_loop_skip by assumption. exact IH.
Qed.

Lemma info_populated (f : fs.FileInfo) :
  info (populated os root dirpath f) = f.
Proof.
  unfold populated, PopulateFrom. simpl.
  destruct (N.eqb (fs.Type_ (fs.Mode f)) fs.ModeSymlink); [|reflexivity].
  destruct (os_Stat os _); reflexivity.
Qed.

Lemma Populate_ok (files : list fs.FileInfo) (ic : IndexContext) :
  Populate os Markdown files dirpath root = ok ic ->
  Files ic = sort_Slice less (map (populated os root dirpath) files)
  /\ readme_loop os Markdown root dirpath (Files ic) = ok (ReadMe ic).
Proof.
  unfold Populate. destruct (Path.Split dirpath) as [d n].
  fold (populated os root dirpath).
  destruct (readme_loop os Markdown root dirpath
              (sort_Slice less (map (populated os root dirpath) files)))
    as [r|e] eqn:Hloop; [|discriminate].
  intros H. inversion H; subst; simpl. auto.
Qed.

End IndexFacts.

(** C4, as stated, fails: the three names have no priority among them.
    With [readme.md] and [readme.txt] both present, the markdown file is
    the one rendered, because it comes first in the sorted listing. *)
Lemma readme_md_rendered_before_readme_txt :
  exists ic,
    Populate (MemFS.mount readmes []) paragraph
      [regular "readme.txt"; regular "readme.md"] "/docs" "/"
      = ok ic
    /\ ReadMe ic = Some "<p>lower md</p>".
Proof. eexists. split; [vm_compute; reflexivity | reflexivity]. Qed.

(** C4, amended.  [Populate] lists the entries sorted, directories first
    and then by name, byte-wise; it selects at most one README: the first
    entry of that listing whose lower-cased name is readme.txt,
    readme.html or readme.md, whichever of the three it is.  Only that
    entry is rendered: txt escaped inside a preformatted block, html as it
    is, md through the markdown converter. *)
Theorem Populate_readme_is_first_in_listing
    (os : OS) (Markdown : string -> result string)
    (files : list fs.FileInfo) (dirpath root : string) (ic : IndexContext) :
  Populate os Markdown files dirpath root = ok ic ->
  Permutation (Files ic) (map (populated os root dirpath) files)
  /\ listing_order (Files ic)
  /\ match List.find is_readme (Files ic) with
     | None => ReadMe ic = None
     | Some f =>
         exists p,
           os_ReadFile os (Path.Join [root; dirpath; fs.Name (info f)]) = ok p
           /\ let name := Strings.ToLower (fs.Name (info f)) in
              if String.eqb name "readme.txt" then
                ReadMe ic = Some ("<pre>" +:+ EscapeString p +:+ "</pre>")
              else if String.eqb name "readme.html" then ReadMe ic = Some p
              else exists html, Markdown p = ok html /\ ReadMe ic = Some html
     end.
Proof.
  intros Hpop.
  destruct (Populate_ok os Markdown root dirpath files ic Hpop) as [HF Hloop].
  split; [rewrite HF; apply sort_Slice_perm|].
  split; [rewrite HF; apply sort_Slice_sorted|].
  rewrite readme_loop_find in Hloop.
  destruct (List.find is_readme (Files ic)) as [f|] eqn:Hfind.
  - apply find_some in Hfind. destruct Hfind as [_ Hf].
    unfold is_readme, readme_name in Hf. simpl in Hloop. cbv zeta in *.
    destruct (os_ReadFile os (Path.Join [root; dirpath; fs.Name (info f)]))
      as [p|e].
    + exists p. split; [reflexivity|].
      destruct (String.eqb (Strings.ToLower (fs.Name (info f))) "readme.txt").
      { now inversion Hloop. }
      destruct (String.eqb (Strings.ToLower (fs.Name (info f))) "readme.html").
      { now inversion Hloop. }
      destruct (String.eqb (Strings.ToLower (fs.Name (info f))) "readme.md");
        [|discriminate].
      destruct (Markdown p) as [html|e]; [|discriminate].
      exists html. split; [reflexivity | now inversion Hloop].
    + destruct (String.eqb (Strings.ToLower (fs.Name (info f))) "readme.txt");
        [discriminate|].
      destruct (String.eqb (Strings.ToLower (fs.Name (info f))) "readme.html");
        [discriminate|].
      destruct (String.eqb (Strings.ToLower (fs.Name (info f))) "readme.md");
        discriminate.
  - now inversion Hloop.
Qed.

Lemma Populate_readme_is_first_in_listing_witness :
  Populate (MemFS.mount readmes []) paragraph readmes_files "/docs" "/"
    = ok readmes_index
  /\ map (fun f => fs.Name (info f)) (Files readmes_index)
     = ["notes"; "README.md"; "README.txt"; "readme.md"; "readme.txt"]
  /\ ReadMe readmes_index = Some "<p># Title</p>"
  /\ listing_order (Files readmes_index).
Proof.
  assert (H : Populate (MemFS.mount readmes []) paragraph readmes_files
                "/docs" "/" = ok readmes_index)
    by (vm_compute; reflexivity).
  split; [exact H|]. split; [reflexivity|]. split; [reflexivity|].
  exact (proj1 (proj2 (Populate_readme_is_first_in_listing
                         (MemFS.mount readmes []) paragraph
                         readmes_files "/docs" "/" readmes_index H))).
Defined.

Lemma regular_mode (m : fs.FileMode) :
  fs.IsRegular m = true ->
  fs.IsDir m = false /\ N.eqb (fs.Type_ m) fs.ModeSymlink = false.
Proof.
  unfold fs.IsRegular, fs.IsDir, fs.Type_. intros H.
  apply N.eqb_eq in H. split.
  - replace (N.land m fs.ModeDir)
      with (N.land (N.land m fs.ModeType) fs.ModeDir).
    + rewrite H. reflexivity.
    + rewrite <- N.land_assoc. f_equal.
  - rewrite H. reflexivity.
Qed.

Lemma mode_populated_regular (os : OS) (root dirpath : string)
    (f : fs.FileInfo) :
  fs.IsRegular (fs.Mode f) = true ->
  fs.IsDir (mode (populated os root dirpath f)) = false.
Proof.
  intros Hreg. destruct (regular_mode _ Hreg) as [Hdir Hsym].
  unfold populated, PopulateFrom, mode. simpl. rewrite Hsym. simpl.
  rewrite Hsym. exact Hdir.
Qed.

(** A list splits at the first element [find] returns. *)
Lemma find_first {A} (P : A -> bool) (l : list A) (x : A) :
  List.find P l = Some x ->
  exists l1 l2, l = l1 ++ x :: l2 /\ P x = true
                /\ forall y, In y l1 -> P y = false.
Proof.
  induction l as [|a l IH]; simpl; [discriminate|].
  destruct (P a) eqn:Ha.
  - intros H. inversion H; subst. exists [], l. simpl. tauto.
  - intros H. destruct (IH H) as (l1 & l2 & -> & Hx & Hl1).
    exists (a :: l1), l2. simpl. split; [reflexivity|]. split; [assumption|].
    intros y [<-|Hy]; auto.
Qed.

Lemma listing_order_after (l1 l2 : list FileInfo) (x y : FileInfo) :
  listing_order (l1 ++ x :: l2) -> In y l2 -> less y x = false.
Proof.
  unfold listing_order. induction l1 as [|a l1 IH]; simpl; intros Hs Hy.
  - apply StronglySorted_inv in Hs. destruct Hs as [_ Hall].
    rewrite List.Forall_forall in Hall. now apply Hall.
  - apply StronglySorted_inv in Hs. destruct Hs as [Hs _]. now apply IH.
Qed.



(* --------------------------------------------------------------------- *)
(** ** Paths of plain names                                              *)
(* --------------------------------------------------------------------- *)

Lemma valid_name_inv (n : string) :
  valid_name n = true ->
  String.eqb n "" = false /\ String.eqb n "." = false
  /\ String.eqb n ".." = false /\ no_slash n = true.
Proof.
  unfold valid_name. intros H.
  repeat (apply andb_prop in H; destruct H as [H ?]).
  repeat match goal with
         | H : negb _ = true |- _ => apply negb_true_iff in H
         end.
  auto.
Qed.

Lemma SplitSlash_no_slash (a : string) :
  no_slash a = true -> Strings.SplitSlash a = [a].
Proof.
  induction a as [|c a IH]; simpl; [reflexivity|].
  intros H. apply andb_prop in H. destruct H as [Hc Ha].
  apply negb_true_iff in Hc. rewrite Hc, (IH Ha). reflexivity.
Qed.

Lemma SplitSlash_app (a b : string) :
  no_slash a = true ->
  Strings.SplitSlash (a +:+ String "/" b) = a :: Strings.SplitSlash b.
Proof.
  induction a as [|c a IH]; simpl; [reflexivity|].
  intros H. apply andb_prop in H. destruct H as [Hc Ha].
  apply negb_true_iff in Hc. rewrite Hc, (IH Ha). reflexivity.
Qed.

Lemma Forall_valid_cons (n : string) (names : list string) :
  forallb valid_name (n :: names) = true ->
  valid_name n = true /\ forallb valid_name names = true.
Proof. simpl. intros H. apply andb_prop in H. exact H. Qed.

Lemma SplitSlash_JoinSlash (names : list string) :
  names <> [] -> forallb valid_name names = true ->
  Strings.SplitSlash (Strings.JoinSlash names) = names.
Proof.
  induction names as [|n names IH]; [congruence|].
  intros _ Hv. apply Forall_valid_cons in Hv. destruct Hv as [Hn Hv].
  destruct (valid_name_inv n Hn) as (_ & _ & _ & Hs).
  destruct names as [|m names].
  - simpl. now apply SplitSlash_no_slash.
  - change (Strings.JoinSlash (n :: m :: names))
      with (n +:+ String "/" (Strings.JoinSlash (m :: names))).
    rewrite SplitSlash_app by assumption.
    rewrite IH; [reflexivity | congruence | assumption].
Qed.

Lemma append_assoc (a b c : string) : (a +:+ b) +:+ c = a +:+ (b +:+ c).
Proof.
  induction a as [|x a IH]; [reflexivity|].
  change (String x ((a +:+ b) +:+ c) = String x (a +:+ (b +:+ c))).
  now f_equal.
Qed.

Lemma JoinSlash_snoc (names : list string) (n : string) :
  names <> [] ->
  Strings.JoinSlash (names ++ [n])
    = Strings.JoinSlash names +:+ String "/" n.
Proof.
  induction names as [|m names IH]; [congruence|]. intros _.
  destruct names as [|m' names].
  - reflexivity.
  - change (Strings.JoinSlash ((m :: m' :: names) ++ [n]))
      with (m +:+ String "/" (Strings.JoinSlash ((m' :: names) ++ [n]))).
    rewrite IH by congruence.
    change (Strings.JoinSlash (m :: m' :: names))
      with (m +:+ String "/" (Strings.JoinSlash (m' :: names))).
    rewrite append_assoc. reflexivity.
Qed.

Lemma JoinSlash_head (n : string) (names : list string) :
  valid_name n = true ->
  exists c rest, Strings.JoinSlash (n :: names) = String c rest
                 /\ Ascii.eqb c "/" = false.
Proof.
  intros Hn. destruct (valid_name_inv n Hn) as (He & _ & _ & Hs).
  destruct n as [|c n]; [discriminate|].
  simpl in Hs. apply andb_prop in Hs. destruct Hs as [Hc _].
  apply negb_true_iff in Hc.
  destruct names; simpl; eauto.
Qed.

Lemma fold_clean_step_valid (names acc : list string) :
  forallb valid_name names = true ->
  fold_left (Path.clean_step false) names acc = rev names ++ acc.
Proof.
  revert acc. induction names as [|n names IH]; intros acc Hv; [reflexivity|].
  apply Forall_valid_cons in Hv. destruct Hv as [Hn Hv].
  destruct (valid_name_inv n Hn) as (H1 & H2 & H3 & _).
  simpl. unfold Path.clean_step at 2. rewrite H1, H2, H3.
  rewrite IH by assumption. rewrite <- app_assoc. reflexivity.
Qed.

Lemma clean_step_valid (rooted : bool) (stack : list string) (n : string) :
  valid_name n = true -> Path.clean_step rooted stack n = n :: stack.
Proof.
  intros Hn. destruct (valid_name_inv n Hn) as (H1 & H2 & H3 & _).
  unfold Path.clean_step. now rewrite H1, H2, H3.
Qed.

(** [path.Join(name, d1.Name())] on the walker's names. *)
Lemma Join_walk_name (names : list string) (n : string) :
  forallb valid_name names = true -> valid_name n = true ->
  Path.Join [walk_name names; n] = walk_name (names ++ [n]).
Proof.
  intros Hv Hn. destruct (valid_name_inv n Hn) as (He & Hd & Hdd & Hs).
  assert (Hvn : forallb valid_name (names ++ [n]) = true).
  { rewrite forallb_app, Hv. simpl. now rewrite Hn. }
  destruct names as [|m names].
  - simpl walk_name. unfold Path.Join. cbn [List.filter]. simpl String.eqb.
    rewrite He. simpl negb. cbn [Strings.JoinSlash String.concat].
    unfold Path.Clean, Path.clean_elems. simpl Path.IsAbs.
    change ("." +:+ "/" +:+ n) with ("." +:+ String "/" n).
    rewrite SplitSlash_app by reflexivity.
    rewrite SplitSlash_no_slash by assumption.
    simpl fold_left. change (Path.clean_step false [] ".") with (@nil string).
    rewrite clean_step_valid by assumption.
    cbn [rev app Strings.JoinSlash String.concat]. rewrite He. reflexivity.
  - assert (Hne : String.eqb (walk_name (m :: names)) "" = false).
    { apply Forall_valid_cons in Hv. destruct Hv as [Hm _].
      destruct (JoinSlash_head m names Hm) as (c & rest & Heq & _).
      unfold walk_name. rewrite Heq. reflexivity. }
    unfold Path.Join. cbn [List.filter]. rewrite Hne, He. simpl negb.
    unfold walk_name at 1.
    change (Strings.JoinSlash [Strings.JoinSlash (m :: names); n])
      with (Strings.JoinSlash (m :: names) +:+ String "/" n).
    rewrite <- JoinSlash_snoc by congruence.
    unfold Path.Clean, Path.clean_elems.
    assert (Habs : Path.IsAbs (Strings.JoinSlash ((m :: names) ++ [n])) = false).
    { apply Forall_valid_cons in Hv. destruct Hv as [Hm _].
      destruct (JoinSlash_head m (names ++ [n]) Hm) as (c & rest & Heq & Hc).
      simpl app. rewrite Heq. exact Hc. }
    rewrite Habs.
    rewrite SplitSlash_JoinSlash;
      [|destruct names; simpl; congruence | assumption].
    rewrite fold_clean_step_valid by assumption.
    rewrite app_nil_r, rev_involutive.
    assert (Hne' : String.eqb (Strings.JoinSlash ((m :: names) ++ [n])) "" = false).
    { apply Forall_valid_cons in Hv. destruct Hv as [Hm _].
      destruct (JoinSlash_head m (names ++ [n]) Hm) as (c & rest & Heq & Hc).
      simpl app. rewrite Heq. reflexivity. }
    rewrite Hne'. destruct names; reflexivity.
Qed.

(* --------------------------------------------------------------------- *)
(** ** Path resolution in the in-memory file system                      *)
(* --------------------------------------------------------------------- *)

Lemma lookup_app (t : node) (a b : list string) :
  MemFS.lookup t (a ++ b) =
    match MemFS.lookup t a with
    | Some x => MemFS.lookup x b
    | None => None
    end.
Proof.
  revert t. induction a as [|c a IH]; intros t; [reflexivity|].
  simpl. destruct t as [| r es | |]; try reflexivity.
  destruct (MemFS.assoc c es); [apply IH | reflexivity].
Qed.

(** One step of [resolve]. *)
Lemma resolve_eq (root : node) (links : nat) (follow : bool)
    (cur rest : list string) :
  MemFS.resolve root links follow cur rest =
    match rest with
    | [] =>
        match MemFS.lookup root cur with
        | Some x => ok x
        | None => failed ENOENT
        end
    | c :: rest' =>
        match MemFS.lookup root cur with
        | Some (NDir _ es) =>
            if String.eqb c "" || String.eqb c "." then
              MemFS.resolve root links follow cur rest'
            else if String.eqb c ".." then
              MemFS.resolve root links follow (removelast cur) rest'
            else
              match MemFS.assoc c es with
              | None => failed ENOENT
              | Some (NLink target) =>
                  match rest', follow with
                  | [], false => ok (NLink target)
                  | _, _ =>
                      match links with
                      | O => failed ELOOP
                      | S links' =>
                          MemFS.resolve root links' follow
                            (if Path.IsAbs target then [] else cur)
                            (Strings.SplitSlash target ++ rest')
                      end
                  end
              | Some _ => MemFS.resolve root links follow (cur ++ [c]) rest'
              end
        | Some _ => failed ENOTDIR
        | None => failed ENOENT
        end
    end.
Proof. destruct links, rest; reflexivity. Qed.

(** Names that lead to an object through directories, none of them a
    link, resolve to it one by one. *)
Lemma resolve_names (root : node) (links : nat) (follow : bool)
    (names cur rest : list string) (x : node) :
  forallb valid_name names = true ->
  MemFS.lookup root (cur ++ names) = Some x ->
  is_link x = false ->
  MemFS.resolve root links follow cur (names ++ rest)
    = MemFS.resolve root links follow (cur ++ names) rest.
Proof.
  revert cur. induction names as [|c names IH]; intros cur Hv Hx Hnl.
  - now rewrite app_nil_r.
  - apply Forall_valid_cons in Hv. destruct Hv as [Hc Hv].
    destruct (valid_name_inv c Hc) as (H1 & H2 & H3 & _).
    rewrite lookup_app in Hx.
    destruct (MemFS.lookup root cur) as [t|] eqn:Hcur; [|discriminate].
    simpl in Hx. destruct t as [| r es | |]; try discriminate.
    destruct (MemFS.assoc c es) as [y|] eqn:Hy; [|discriminate].
    assert (Hyl : is_link y = false).
    { destruct y; try reflexivity. destruct names; simpl in Hx.
      - inversion Hx; subst. discriminate.
      - discriminate. }
    simpl app. rewrite resolve_eq, Hcur, H1, H2, H3, Hy. simpl orb. cbv iota.
    replace (cur ++ c :: names) with ((cur ++ [c]) ++ names)
      by (rewrite <- app_assoc; reflexivity).
    assert (Hnext : MemFS.lookup root ((cur ++ [c]) ++ names) = Some x).
    { rewrite <- app_assoc. simpl. rewrite lookup_app, Hcur. simpl.
      now rewrite Hy. }
    rewrite <- (IH (cur ++ [c]) Hv Hnext Hnl).
    destruct y; try reflexivity. discriminate.
Qed.

Lemma ends_with_slash_cons (c : ascii) (s : string) :
  s <> "" -> ends_with_slash (String c s) = ends_with_slash s.
Proof. destruct s; [congruence | reflexivity]. Qed.

Lemma ends_with_slash_app (a b : string) :
  b <> "" -> ends_with_slash (a +:+ b) = ends_with_slash b.
Proof.
  intros Hb. induction a as [|c a IH]; [reflexivity|].
  change (String c a +:+ b) with (String c (a +:+ b)).
  rewrite ends_with_slash_cons; [exact IH|].
  destruct a; simpl; [assumption | discriminate].
Qed.

Lemma ends_with_slash_no_slash (a : string) :
  no_slash a = true -> ends_with_slash a = false.
Proof.
  induction a as [|c a IH]; [reflexivity|]. simpl no_slash. intros H.
  apply andb_prop in H. destruct H as [Hc Ha]. apply negb_true_iff in Hc.
  destruct a as [|c' a]; [exact Hc|].
  rewrite ends_with_slash_cons by discriminate. now apply IH.
Qed.

Lemma JoinSlash_nonempty (n : string) (names : list string) :
  valid_name n = true -> Strings.JoinSlash (n :: names) <> "".
Proof.
  intros Hn. destruct (JoinSlash_head n names Hn) as (c & rest & -> & _).
  discriminate.
Qed.

Lemma ends_with_slash_JoinSlash (names : list string) :
  forallb valid_name names = true ->
  ends_with_slash (Strings.JoinSlash names) = false.
Proof.
  induction names as [|n names IH]; [reflexivity|]. intros Hv.
  apply Forall_valid_cons in Hv. destruct Hv as [Hn Hv].
  destruct (valid_name_inv n Hn) as (_ & _ & _ & Hs).
  destruct names as [|m names].
  - now apply ends_with_slash_no_slash.
  - change (Strings.JoinSlash (n :: m :: names))
      with (n +:+ String "/" (Strings.JoinSlash (m :: names))).
    rewrite ends_with_slash_app by discriminate.
    rewrite ends_with_slash_cons; [now apply IH|].
    apply Forall_valid_cons in Hv. destruct Hv as [Hm _].
    now apply JoinSlash_nonempty.
Qed.

Lemma SplitSlash_JoinSlash_app (names : list string) (w : string) :
  names <> [] -> forallb valid_name names = true ->
  Strings.SplitSlash (Strings.JoinSlash names +:+ String "/" w)
    = names ++ Strings.SplitSlash w.
Proof.
  induction names as [|n names IH]; [congruence|]. intros _ Hv.
  apply Forall_valid_cons in Hv. destruct Hv as [Hn Hv].
  destruct (valid_name_inv n Hn) as (_ & _ & _ & Hs).
  destruct names as [|m names].
  - simpl Strings.JoinSlash. simpl String.concat.
    now rewrite SplitSlash_app.
  - change (Strings.JoinSlash (n :: m :: names))
      with (n +:+ String "/" (Strings.JoinSlash (m :: names))).
    rewrite append_assoc.
    change (String "/" (Strings.JoinSlash (m :: names)) +:+ String "/" w)
      with (String "/" (Strings.JoinSlash (m :: names) +:+ String "/" w)).
    rewrite SplitSlash_app by assumption.
    rewrite IH; [reflexivity | congruence | assumption].
Qed.

Lemma SplitSlash_walk_name (names : list string) :
  forallb valid_name names = true ->
  Strings.SplitSlash (walk_name names) = walk_elems names.
Proof.
  intros Hv. destruct names as [|n names]; [reflexivity|].
  apply SplitSlash_JoinSlash; [simpl; discriminate | assumption].
Qed.

Lemma ValidPath_walk_name (names : list string) :
  forallb valid_name names = true -> ValidPath (walk_name names) = true.
Proof.
  intros Hv. unfold ValidPath. destruct names as [|n names]; [reflexivity|].
  rewrite SplitSlash_walk_name by assumption. simpl walk_elems.
  apply orb_true_iff. right.
  apply forallb_forall. intros e He.
  rewrite forallb_forall in Hv. specialize (Hv e He).
  destruct (valid_name_inv e Hv) as (H1 & H2 & H3 & _).
  now rewrite H1, H2, H3.
Qed.

(** The file [os.DirFS] on the root [abs_path ps] reaches for the walker's
    name of [names]. *)
Lemma DirFS_join_walk_name (ps names : list string) :
  forallb valid_name ps = true -> forallb valid_name names = true ->
  exists full,
    DirFS_join (abs_path ps) (walk_name names) = ok full
    /\ String.eqb full "" = false
    /\ Path.IsAbs full = true
    /\ Strings.SplitSlash full = "" :: ps ++ walk_elems names.
Proof.
  intros Hps Hnames. unfold DirFS_join, abs_path.
  rewrite ValidPath_walk_name by assumption.
  change (String.eqb (String "/" (Strings.JoinSlash ps)) "") with false.
  cbv iota. simpl negb. cbv iota.
  destruct ps as [|p ps].
  - change (ends_with_slash (String "/" (Strings.JoinSlash []))) with true.
    cbv iota. eexists. split; [reflexivity|]. split; [reflexivity|].
    split; [reflexivity|].
    change (Strings.SplitSlash (String "/" (Strings.JoinSlash []) +:+ walk_name names))
      with ("" :: Strings.SplitSlash (walk_name names)).
    now rewrite SplitSlash_walk_name.
  - rewrite ends_with_slash_cons
      by (apply Forall_valid_cons in Hps; destruct Hps as [Hp _];
          now apply JoinSlash_nonempty).
    rewrite ends_with_slash_JoinSlash by assumption.
    eexists. split; [reflexivity|]. split; [reflexivity|].
    split; [reflexivity|].
    change (String "/" (Strings.JoinSlash (p :: ps)) +:+ String "/" (walk_name names))
      with (String "/" (Strings.JoinSlash (p :: ps) +:+ String "/" (walk_name names))).
    change (Strings.SplitSlash
              (String "/" (Strings.JoinSlash (p :: ps) +:+ String "/" (walk_name names))))
      with ("" :: Strings.SplitSlash
                    (Strings.JoinSlash (p :: ps) +:+ String "/" (walk_name names))).
    rewrite SplitSlash_JoinSlash_app; [|discriminate|assumption].
    now rewrite SplitSlash_walk_name.
Qed.

(** What the system finds under that file: the object the names lead to
    from the tree at [ps]. *)
Lemma namei_walk_name (whole : node) (ps names : list string) (x : node)
    (follow : bool) (full : string) :
  forallb valid_name ps = true -> forallb valid_name names = true ->
  MemFS.lookup whole (ps ++ names) = Some x ->
  is_link x = false ->
  (names = [] -> is_dir x = true) ->
  is_dir whole = true ->
  String.eqb full "" = false ->
  Path.IsAbs full = true ->
  Strings.SplitSlash full = "" :: ps ++ walk_elems names ->
  MemFS.namei whole [] follow full = ok x.
Proof.
  intros Hps Hnames Hx Hnl Hroot Hwhole Hfull Habs Hsplit.
  unfold MemFS.namei. rewrite Hfull, Habs, Hsplit.
  rewrite resolve_eq. simpl MemFS.lookup.
  destruct whole as [| r0 es0 | |]; try discriminate. simpl orb. cbv iota.
  destruct names as [|n names].
  - simpl walk_elems. rewrite app_nil_r in Hx.
    rewrite (resolve_names _ _ _ ps [] ["."] x Hps Hx Hnl). simpl app.
    rewrite resolve_eq. rewrite Hx.
    specialize (Hroot eq_refl). destruct x; try discriminate.
    change (String.eqb "." "" || String.eqb "." ".") with true. cbv iota.
    rewrite resolve_eq. now rewrite Hx.
  - simpl walk_elems.
    assert (Hv : forallb valid_name (ps ++ n :: names) = true)
      by (rewrite forallb_app, Hps; exact Hnames).
    rewrite <- (app_nil_r (ps ++ n :: names)).
    rewrite (resolve_names _ _ _ (ps ++ n :: names) [] [] x Hv Hx Hnl).
    simpl app. rewrite resolve_eq. now rewrite Hx.
Qed.

(* --------------------------------------------------------------------- *)
(** ** Archivable trees                                                  *)
(* --------------------------------------------------------------------- *)

Lemma files_of_dir (names : list string) (r : bool) (es : list (string * node)) :
  files_of names (NDir r es) = entries_files names es.
Proof.
  unfold entries_files. simpl.
  induction es as [|[n y] es IH]; [reflexivity|].
  simpl. now rewrite IH.
Qed.

Lemma archivable_dir (r : bool) (es : list (string * node)) :
  archivable (NDir r es) = true ->
  r = true /\ forallb valid_name (map fst es) = true
  /\ distinct (map fst es) = true
  /\ forall n y, In (n, y) es -> archivable y = true.
Proof.
  simpl. intros H.
  apply andb_prop in H. destruct H as [H Hall].
  apply andb_prop in H. destruct H as [H Hdist].
  apply andb_prop in H. destruct H as [Hr Hvalid].
  repeat split; try assumption.
  clear -Hall. induction es as [|[m z] es IH]; intros n y Hin; [destruct Hin|].
  apply andb_prop in Hall. destruct Hall as [Hz Hall].
  destruct Hin as [Heq|Hin].
  - inversion Heq; subst. exact Hz.
  - now apply (IH Hall n y).
Qed.

Lemma depth_entry (r : bool) (es : list (string * node)) (n : string) (y : node) :
  In (n, y) es -> S (depth y) <= depth (NDir r es).
Proof.
  simpl. intros Hin. apply le_n_S.
  induction es as [|[m z] es IH]; [destruct Hin|].
  destruct Hin as [Heq|Hin].
  - inversion Heq; subst. apply Nat.le_max_l.
  - etransitivity; [now apply IH | apply Nat.le_max_r].
Qed.

Lemma depth_pos (x : node) : 1 <= depth x.
Proof. destruct x; simpl; lia. Qed.

Lemma assoc_distinct (es : list (string * node)) (n : string) (y : node) :
  distinct (map fst es) = true -> In (n, y) es -> MemFS.assoc n es = Some y.
Proof.
  induction es as [|[m z] es IH]; intros Hd Hin; [destruct Hin|].
  simpl in Hd. apply andb_prop in Hd. destruct Hd as [Hm Hd].
  apply negb_true_iff in Hm. simpl.
  destruct Hin as [Heq|Hin].
  - inversion Heq; subst. now rewrite String.eqb_refl.
  - destruct (String.eqb m n) eqn:Hmn; [|now apply IH].
    apply String.eqb_eq in Hmn. subst m. exfalso.
    assert (Hex : existsb (String.eqb n) (map fst es) = true).
    { apply existsb_exists. exists n. split; [|apply String.eqb_refl].
      change n with (fst (n, y)). now apply in_map. }
    congruence.
Qed.

Lemma lookup_entry (whole : node) (path : list string) (r : bool)
    (es : list (string * node)) (n : string) (y : node) :
  MemFS.lookup whole path = Some (NDir r es) ->
  MemFS.assoc n es = Some y ->
  MemFS.lookup whole (path ++ [n]) = Some y.
Proof.
  intros Hp Hn. rewrite lookup_app, Hp. simpl. now rewrite Hn.
Qed.

Lemma Type_idem (m : fs.FileMode) : fs.Type_ (fs.Type_ m) = fs.Type_ m.
Proof.
  unfold fs.Type_. rewrite <- N.land_assoc. now rewrite N.land_diag.
Qed.

Lemma IsDir_Type (m : fs.FileMode) : fs.IsDir (fs.Type_ m) = fs.IsDir m.
Proof.
  unfold fs.IsDir, fs.Type_. rewrite <- N.land_assoc.
  replace (N.land fs.ModeType fs.ModeDir) with fs.ModeDir by reflexivity.
  reflexivity.
Qed.

(** The type bits and the directory bit of an archivable object. *)
Lemma archivable_mode (x : node) :
  archivable x = true ->
  fs.IsDir (MemFS.mode_of x) = is_dir x
  /\ N.eqb (fs.Type_ (MemFS.mode_of x)) 0%N
     = match x with NFile _ _ => true | _ => false end.
Proof.
  destruct x as [r data | r es | target | typ]; intros H;
    try (split; reflexivity).
  simpl in H. apply andb_prop in H. destruct H as [Hd Hr].
  apply negb_true_iff in Hd, Hr. simpl. split; assumption.
Qed.

Section MountedTree.
Variable whole : node.
Variable ps : list string.
Hypothesis Hps : forallb valid_name ps = true.
Hypothesis Hwhole : is_dir whole = true.

Lemma mounted_ReadDir (names : list string) (es : list (string * node)) :
  forallb valid_name names = true ->
  MemFS.lookup whole (ps ++ names) = Some (NDir true es) ->
  exists full,
    fs.ReadDir (mounted whole ps) (walk_name names)
    = (map (fun e => fs.dirent full (fst e)
                       (fs.Type_ (MemFS.mode_of (snd e)))) es, None).
Proof.
  intros Hn Hx.
  destruct (DirFS_join_walk_name ps names Hps Hn)
    as (full & Hjoin & Hne & Habs & Hsplit).
  exists full. unfold mounted, os_DirFS. simpl fs.ReadDir. rewrite Hjoin.
  simpl os_ReadDir. unfold MemFS.ReadDir.
  rewrite (namei_walk_name whole ps names (NDir true es) true full);
    auto.
Qed.

Lemma mounted_Open (names : list string) (data : string) :
  forallb valid_name names = true -> names <> [] ->
  MemFS.lookup whole (ps ++ names) = Some (NFile true data) ->
  exists full,
    fs.Open (mounted whole ps) (walk_name names)
    = ok (fs.mkFile
            (ok (MemFS.info_of (MemFS.basename full) (NFile true data)))
            (data, None)).
Proof.
  intros Hn Hne Hx.
  destruct (DirFS_join_walk_name ps names Hps Hn)
    as (full & Hjoin & Hnf & Habs & Hsplit).
  exists full. unfold mounted, os_DirFS. simpl fs.Open. rewrite Hjoin.
  simpl os_Open. unfold MemFS.Open.
  rewrite (namei_walk_name whole ps names (NFile true data) true full);
    auto.
Qed.

Lemma mounted_Stat_root (r : bool) (es : list (string * node)) :
  MemFS.lookup whole ps = Some (NDir r es) ->
  exists full,
    fs.Stat (mounted whole ps) "."
    = ok (MemFS.info_of (MemFS.basename full) (NDir r es)).
Proof.
  intros Hx.
  destruct (DirFS_join_walk_name ps [] Hps eq_refl)
    as (full & Hjoin & Hnf & Habs & Hsplit).
  exists full. unfold mounted, os_DirFS. simpl fs.Stat.
  change "." with (walk_name []). rewrite Hjoin.
  simpl os_Stat. unfold MemFS.Stat.
  rewrite (namei_walk_name whole ps [] (NDir r es) true full); auto.
  now rewrite app_nil_r.
Qed.

End MountedTree.

(* --------------------------------------------------------------------- *)
(** ** [fs.WalkDir] over an archivable tree                              *)
(* --------------------------------------------------------------------- *)

Lemma fs_walkDir_eq {St : Type} (fsys : fs.FS) (fuel : nat) (name : string)
    (d : fs.DirEntry) (fn : fs.WalkDirFunc (St := St)) :
  fs.walkDir fsys (S fuel) name d fn =
    (err ← fn name (Some d) None;
     match err with
     | Some e =>
         if error_eqb e SkipDir && fs.DirEntry_IsDir d then mret None
         else mret (Some e)
     | None =>
         if negb (fs.DirEntry_IsDir d) then mret None
         else
           let '(dirs, rerr) := fs.ReadDir fsys name in
           err ← match rerr with
                 | Some e => fn name (Some d) (Some e)
                 | None => mret None
                 end;
           match err with
           | Some e =>
               if error_eqb e SkipDir && fs.DirEntry_IsDir d then mret None
               else mret (Some e)
           | None =>
               fs.range_dirs (fun name1 d1 => fs.walkDir fsys fuel name1 d1 fn)
                 name dirs
           end
     end).
Proof. reflexivity. Qed.

Section TreeWalk.
Context {St : Type}.
Variable whole : node.
Variable ps : list string.
Hypothesis Hps : forallb valid_name ps = true.
Hypothesis Hwhole : is_dir whole = true.

(** A callback that adds each regular file, by [emit], to a state that
    satisfies [Inv], and passes over everything else. *)
Variable fn : fs.WalkDirFunc (St := St).
Variable emit : string -> string -> St -> St.
Variable Inv : St -> Prop.
Hypothesis emit_Inv : forall p data w, Inv w -> Inv (emit p data w).
Hypothesis fn_file :
  forall names data d w,
    forallb valid_name names = true -> names <> [] ->
    MemFS.lookup whole (ps ++ names) = Some (NFile true data) ->
    N.eqb (fs.DirEntry_Type d) 0%N = true ->
    Inv w ->
    fn (walk_name names) (Some d) None w
      = Done None (emit (walk_name names) data w).
Hypothesis fn_other :
  forall p d w,
    N.eqb (fs.DirEntry_Type d) 0%N = false ->
    fn p (Some d) None w = Done None w.

Lemma emit_all_Inv (l : list (string * string)) (w : St) :
  Inv w -> Inv (emit_all emit l w).
Proof.
  revert w. induction l as [|e l IH]; intros w Hw; [exact Hw|].
  simpl. apply IH. now apply emit_Inv.
Qed.

Lemma emit_all_app (a b : list (string * string)) (w : St) :
  emit_all emit (a ++ b) w = emit_all emit b (emit_all emit a w).
Proof. unfold emit_all. now rewrite fold_left_app. Qed.

Lemma walkDir_tree (fuel : nat) :
  forall (x : node) (names : list string) (d : fs.DirEntry) (w : St),
    depth x <= fuel ->
    forallb valid_name names = true ->
    MemFS.lookup whole (ps ++ names) = Some x ->
    archivable x = true ->
    entry_for d x ->
    (names = [] -> is_dir x = true) ->
    Inv w ->
    fs.walkDir (mounted whole ps) fuel (walk_name names) d fn w
      = Done None (emit_all emit (files_of names x) w).
Proof.
  induction fuel as [|fuel IH];
    intros x names d w Hdepth Hnames Hx Harch [Htype Hisdir] Hroot Hw.
  { pose proof (depth_pos x). lia. }
  rewrite fs_walkDir_eq.
  destruct (archivable_mode x Harch) as [Hdir Hreg].
  rewrite Hdir in Hisdir. rewrite <- Htype in Hreg.
  destruct x as [r data | r es | target | typ].
  - (* a regular file *)
    simpl in Harch. subst r.
    assert (Hne : names <> []) by (intros ->; now specialize (Hroot eq_refl)).
    unfold mbind, M_mbind, M_bind.
    rewrite (fn_file names data d w Hnames Hne Hx Hreg Hw).
    rewrite Hisdir. simpl.
    destruct names; [congruence | reflexivity].
  - (* a directory *)
    destruct (archivable_dir r es Harch) as (-> & Hvalid & Hdist & Hsub).
    unfold mbind, M_mbind, M_bind.
    rewrite (fn_other _ d w Hreg). rewrite Hisdir. simpl negb. cbv iota.
    destruct (mounted_ReadDir whole ps Hps Hwhole names es Hnames Hx)
      as (full & ->).
    cbv beta iota zeta. unfold mret at 1, M_mret, M_ret.
    rewrite files_of_dir.
    assert (Hloop :
      forall l w,
        (forall n y, In (n, y) l -> In (n, y) es) -> Inv w ->
        fs.range_dirs
          (fun name1 d1 => fs.walkDir (mounted whole ps) fuel name1 d1 fn)
          (walk_name names)
          (map (fun e => fs.dirent full (fst e)
                           (fs.Type_ (MemFS.mode_of (snd e)))) l) w
        = Done None (emit_all emit (entries_files names l) w)).
    { induction l as [|[n y] l IHl]; intros w0 Hsubl Hw0; [reflexivity|].
      assert (Hin : In (n, y) es) by (apply Hsubl; now left).
      assert (Hn : valid_name n = true).
      { rewrite forallb_forall in Hvalid. apply Hvalid.
        change n with (fst (n, y)). now apply in_map. }
      assert (Hy : MemFS.lookup whole (ps ++ names ++ [n]) = Some y).
      { rewrite app_assoc.
        apply (lookup_entry whole (ps ++ names) true es n y Hx).
        now apply assoc_distinct. }
      assert (Hnames' : forallb valid_name (names ++ [n]) = true).
      { rewrite forallb_app, Hnames. simpl. now rewrite Hn. }
      simpl map. simpl fs.range_dirs. simpl fs.DirEntry_Name.
      rewrite (Join_walk_name names n Hnames Hn).
      unfold mbind, M_mbind, M_bind.
      rewrite (IH y (names ++ [n]) _ w0); try assumption.
      - unfold entries_files. simpl flat_map. rewrite emit_all_app.
        apply IHl.
        + intros n' y' Hin'. apply Hsubl. now right.
        + now apply emit_all_Inv.
      - pose proof (depth_entry true es n y Hin). lia.
      - now apply (Hsub n y).
      - split; simpl; [apply Type_idem | apply IsDir_Type].
      - intros Heq. destruct names; discriminate. }
    apply Hloop; auto.
  - (* a symbolic link *)
    unfold mbind, M_mbind, M_bind.
    rewrite (fn_other _ d w Hreg). rewrite Hisdir. reflexivity.
  - (* a device, pipe or socket *)
    unfold mbind, M_mbind, M_bind.
    rewrite (fn_other _ d w Hreg). rewrite Hisdir. reflexivity.
Qed.

End TreeWalk.

(* --------------------------------------------------------------------- *)
(** ** The archives of an archivable tree                                *)
(* --------------------------------------------------------------------- *)

Lemma write_last_snoc (data : string) (l : list (Header * string))
    (h : Header) (p : string) :
  write_last data (l ++ [(h, p)]) = l ++ [(h, p +:+ data)].
Proof.
  induction l as [|[h0 p0] l IH]; [reflexivity|].
  simpl app. simpl write_last. rewrite IH.
  destruct (l ++ [(h, p)]) eqn:Hl; [|reflexivity].
  destruct l; discriminate.
Qed.

Lemma zip_visit_file (whole : node) (ps names : list string) (data : string)
    (d : fs.DirEntry) (w : zip.Writer) :
  forallb valid_name ps = true -> is_dir whole = true ->
  forallb valid_name names = true -> names <> [] ->
  MemFS.lookup whole (ps ++ names) = Some (NFile true data) ->
  N.eqb (fs.DirEntry_Type d) 0%N = true ->
  zip.closed w = false ->
  zip_visit (mounted whole ps) (walk_name names) (Some d) None w
    = Done None (zip_emit (walk_name names) data w).
Proof.
  intros Hps Hwhole Hnames Hne Hx Hreg Hopen. unfold zip_visit.
  rewrite Hreg. change (negb true) with false. cbv iota.
  destruct (mounted_Open whole ps Hps Hwhole names data Hnames Hne Hx)
    as (full & ->).
  cbn [fs.File_Stat fs.File_Read]. unfold zip.FileInfoHeader.
  cbv iota beta zeta.
  unfold mbind, M_mbind, M_bind, zip.CreateHeader. rewrite Hopen.
  unfold io_Copy. cbn [fs.File_Stat fs.File_Read]. cbv iota beta zeta.
  unfold mbind, M_mbind, M_bind, zip.Write. cbn [zip.entries zip.closed].
  rewrite write_last_snoc. unfold zip_emit. rewrite Hopen. reflexivity.
Qed.

Lemma tar_missing_snoc (l : list (Header * string)) (h : Header) (p : string)
    (c g : bool) :
  tar.missing (tar.mkWriter (l ++ [(h, p)]) c g)
    = (h_Size h - N.of_nat (String.length p))%N.
Proof.
  unfold tar.missing. cbn [tar.entries]. rewrite map_app. cbn [map].
  now rewrite last_last.
Qed.

Lemma tar_visit_file (whole : node) (ps names : list string) (data : string)
    (d : fs.DirEntry) (w : tar.Writer) :
  forallb valid_name ps = true -> is_dir whole = true ->
  forallb valid_name names = true -> names <> [] ->
  MemFS.lookup whole (ps ++ names) = Some (NFile true data) ->
  N.eqb (fs.DirEntry_Type d) 0%N = true ->
  tar.closed w = false /\ tar.missing w = 0%N ->
  tar_visit (mounted whole ps) (walk_name names) (Some d) None w
    = Done None (tar_emit (walk_name names) data w).
Proof.
  intros Hps Hwhole Hnames Hne Hx Hreg [Hopen Hfull]. unfold tar_visit.
  assert (Hreg' : fs.IsRegular (fs.DirEntry_Type d) = true).
  { apply N.eqb_eq in Hreg. rewrite Hreg. reflexivity. }
  rewrite Hreg'. change (negb true) with false. cbv iota.
  destruct (mounted_Open whole ps Hps Hwhole names data Hnames Hne Hx)
    as (full & ->).
  cbn [fs.File_Stat fs.File_Read]. unfold tar.FileInfoHeader.
  cbn [fs.Mode MemFS.info_of MemFS.mode_of].
  change (fs.IsRegular 420%N) with true. cbv iota beta zeta.
  unfold mbind, M_mbind, M_bind, tar.WriteHeader. rewrite Hopen, Hfull.
  change (negb (N.eqb 0%N 0%N)) with false. cbv iota.
  unfold io_Copy. cbn [fs.File_Stat fs.File_Read]. cbv iota beta zeta.
  unfold mbind, M_mbind, M_bind, tar.Write.
  rewrite tar_missing_snoc.
  cbn [h_Size set_h_Name fs.Size MemFS.info_of MemFS.size_of String.length].
  rewrite N.sub_0_r, Nat2N.id, Nat.leb_refl. cbn [tar.entries tar.closed].
  rewrite write_last_snoc. unfold tar_emit. rewrite Hopen. reflexivity.
Qed.

Lemma tar_emit_Inv (p data : string) (w : tar.Writer) :
  tar.closed w = false /\ tar.missing w = 0%N ->
  tar.closed (tar_emit p data w) = false
  /\ tar.missing (tar_emit p data w) = 0%N.
Proof.
  intros [Hopen _]. split; [exact Hopen|].
  unfold tar_emit. rewrite tar_missing_snoc. apply N.sub_diag.
Qed.

Lemma zip_entries_emit_all (l : list (string * string)) (w : zip.Writer) :
  zip.entries (emit_all zip_emit l w)
    = zip.entries w ++ map (fun e => (file_header (fst e) (snd e), snd e)) l
  /\ zip.closed (emit_all zip_emit l w) = zip.closed w.
Proof.
  revert w. induction l as [|e l IH]; intros w.
  - simpl. now rewrite app_nil_r.
  - simpl. destruct (IH (zip_emit (fst e) (snd e) w)) as [-> ->].
    simpl. now rewrite <- app_assoc.
Qed.

Lemma tar_entries_emit_all (l : list (string * string)) (w : tar.Writer) :
  tar.entries (emit_all tar_emit l w)
    = tar.entries w ++ map (fun e => (file_header (fst e) (snd e), snd e)) l
  /\ tar.closed (emit_all tar_emit l w) = tar.closed w
  /\ tar.gzip_closed (emit_all tar_emit l w) = tar.gzip_closed w.
Proof.
  revert w. induction l as [|e l IH]; intros w.
  - simpl. now rewrite app_nil_r.
  - simpl. destruct (IH (tar_emit (fst e) (snd e) w)) as (-> & -> & ->).
    simpl. now rewrite <- app_assoc.
Qed.

Lemma names_of_records (l : list (string * string)) :
  map (fun r : Header * string => (h_Name (fst r), snd r))
    (map (fun e => (file_header (fst e) (snd e), snd e)) l) = l.
Proof.
  induction l as [|[p data] l IH]; [reflexivity|]. simpl. now rewrite IH.
Qed.

Lemma lookup_dir_root (whole : node) (ps : list string) (r : bool)
    (es : list (string * node)) :
  MemFS.lookup whole ps = Some (NDir r es) -> is_dir whole = true.
Proof.
  destruct ps as [|p ps]; simpl.
  - intros H. inversion H. reflexivity.
  - destruct whole; try discriminate. reflexivity.
Qed.

Lemma zip_visit_other (fsys : fs.FS) (p : string) (d : fs.DirEntry)
    (w : zip.Writer) :
  N.eqb (fs.DirEntry_Type d) 0%N = false ->
  zip_visit fsys p (Some d) None w = Done None w.
Proof. intros H. unfold zip_visit. rewrite H. reflexivity. Qed.

Lemma IsRegular_DirEntry_Type (d : fs.DirEntry) :
  fs.IsRegular (fs.DirEntry_Type d) = N.eqb (fs.DirEntry_Type d) 0%N.
Proof.
  unfold fs.IsRegular.
  change (N.land (fs.DirEntry_Type d) fs.ModeType)
    with (fs.Type_ (fs.DirEntry_Type d)).
  destruct d; simpl fs.DirEntry_Type; now rewrite Type_idem.
Qed.

Lemma tar_visit_other (fsys : fs.FS) (p : string) (d : fs.DirEntry)
    (w : tar.Writer) :
  N.eqb (fs.DirEntry_Type d) 0%N = false ->
  tar_visit fsys p (Some d) None w = Done None w.
Proof.
  intros H. unfold tar_visit. rewrite IsRegular_DirEntry_Type, H. reflexivity.
Qed.

(** The names in an archive are relative paths of valid names. *)
Lemma files_of_archive_names (n : nat) :
  forall (x : node) (names : list string),
    depth x <= n ->
    archivable x = true ->
    forallb valid_name names = true ->
    (is_dir x = false -> names <> []) ->
    Forall (fun e => archive_name (fst e) = true) (files_of names x).
Proof.
  induction n as [|n IH]; intros x names Hd Harch Hnames Hne.
  { pose proof (depth_pos x). lia. }
  destruct x as [r data | r es | target | typ]; try (constructor; fail).
  - constructor; [|constructor]. simpl fst.
    specialize (Hne eq_refl). destruct names as [|m names]; [congruence|].
    unfold archive_name.
    pose proof Hnames as Hv. apply Forall_valid_cons in Hv.
    destruct Hv as [Hm _].
    destruct (JoinSlash_head m names Hm) as (c & rest & Heq & Hc).
    rewrite SplitSlash_JoinSlash by (auto; discriminate).
    rewrite Hnames, Heq. simpl Path.IsAbs. now rewrite Hc.
  - rewrite files_of_dir. unfold entries_files.
    destruct (archivable_dir r es Harch) as (_ & Hvalid & _ & Hsub).
    apply List.Forall_forall. intros e He.
    apply List.in_flat_map in He. destruct He as ([m y] & Hin & He).
    simpl in He.
    assert (Hm : valid_name m = true).
    { rewrite forallb_forall in Hvalid. apply Hvalid.
      change m with (fst (m, y)). now apply in_map. }
    assert (Hall : Forall (fun e => archive_name (fst e) = true)
                     (files_of (names ++ [m]) y)).
    { apply IH.
      - pose proof (depth_entry r es m y Hin). lia.
      - now apply (Hsub m y).
      - rewrite forallb_app, Hnames. simpl. now rewrite Hm.
      - intros _. destruct names; discriminate. }
    rewrite List.Forall_forall in Hall. now apply Hall.
Qed.




(* --------------------------------------------------------------------- *)
(** ** The visited set only grows                                        *)
(* --------------------------------------------------------------------- *)

Section Visited.
Context {U : Type}.
Variable os : OS.

Lemma grows_ret {A} (a : A) : grows (mret a : walk.W U A).
Proof. intros s. simpl. reflexivity. Qed.

Lemma grows_bind {A B} (m : walk.W U A) (f : A -> walk.W U B) :
  grows m -> (forall a, grows (f a)) -> grows (m ≫= f).
Proof.
  intros Hm Hf s. unfold mbind, M_mbind, M_bind.
  specialize (Hm s). destruct (m s) as [a s1 | msg s1 |]; auto.
  specialize (Hf a s1). destruct (f a s1); auto; etransitivity; eauto.
Qed.

Lemma grows_modify (g : walk.State U -> walk.State U) :
  (forall s, walk.visited s ⊆ walk.visited (g s)) ->
  grows (modify g).
Proof. intros Hg s. simpl. apply Hg. Qed.

Lemma grows_gets {A} (g : walk.State U -> A) : grows (gets g).
Proof. intros s. simpl. reflexivity. Qed.

Lemma grows_panic {A} (msg : string) : grows (panic msg : walk.W U A).
Proof. intros s. simpl. reflexivity. Qed.

Lemma grows_out_of_fuel {A} : grows (out_of_fuel : walk.W U A).
Proof. intros s. exact I. Qed.

Lemma grows_sys_Stat (p : string) : grows (U := U) (walk.sys_Stat os p).
Proof. intros s. simpl. reflexivity. Qed.

Lemma grows_getinfo (name : string) : grows (U := U) (walk.getinfo os name).
Proof.
  intros s. unfold walk.getinfo, walk.sys_Stat. monad_unfold.
  destruct (walk.stat s); simpl; [reflexivity|].
  destruct (os_Stat os name); simpl; reflexivity.
Qed.

Lemma grows_DirEntry_Info (d : fs.DirEntry) : grows (U := U) (walk.DirEntry_Info os d).
Proof. intros s. destruct d; simpl; reflexivity. Qed.

Lemma grows_run_visit {A} (v : Visit U A)
    (info : option (walk.W U (result fs.FileInfo))) :
  (forall get, info = Some get -> grows get) ->
  grows (walk.run_visit os info v).
Proof.
  intros Hinfo.
  induction v as [a | k IH | p k IH | k IH | u k IH | msg]; simpl.
  - apply grows_ret.
  - destruct info as [get|]; [|apply grows_panic].
    apply grows_bind; [now apply Hinfo | exact IH].
  - apply grows_bind; [apply grows_sys_Stat | exact IH].
  - apply grows_bind; [apply grows_gets | exact IH].
  - apply grows_bind; [now apply grows_modify | intros _; exact IH].
  - apply grows_panic.
Qed.

Lemma grows_willwalk (name : string) (d : fs.DirEntry) :
  grows (U := U) (walk.willwalk os name d).
Proof.
  unfold walk.willwalk.
  destruct (fs.DirEntry_IsDir d).
  { apply grows_bind; [apply grows_gets | intros; apply grows_ret]. }
  destruct (N.eqb (fs.DirEntry_Type d) fs.ModeSymlink); [|apply grows_ret].
  apply grows_bind.
  { intros s. simpl. reflexivity. }
  intros [link|e]; [|apply grows_ret].
  apply grows_bind; [apply grows_gets|]. intros v.
  destruct (bool_decide _); [apply grows_ret|].
  apply grows_bind; [apply grows_sys_Stat|].
  intros [finfo|e]; apply grows_ret.
Qed.

Lemma grows_range_dirs (rec : string -> fs.DirEntry -> walk.W U (option error))
    (name : string) (dirs : list fs.DirEntry) :
  (forall n d, grows (rec n d)) -> grows (walk.range_dirs rec name dirs).
Proof.
  intros Hrec. induction dirs as [|d1 dirs IH]; simpl.
  - apply grows_ret.
  - apply grows_bind; [apply Hrec|].
    intros [e|]; [|exact IH]. destruct (error_eqb e SkipDir); apply grows_ret.
Qed.

Lemma grows_walkDir (fuel : nat) :
  forall name d (fn : WalkDirFunc U), grows (walk.walkDir os fuel name d fn).
Proof.
  induction fuel as [|fuel IH]; intros name d fn; simpl.
  - apply grows_out_of_fuel.
  - apply grows_bind; [now apply grows_modify|]. intros _.
    apply grows_bind.
    { apply grows_run_visit. intros get Heq. inversion Heq.
      apply grows_getinfo. }
    intros [e|].
    + destruct (error_eqb e SkipDir); [|apply grows_ret].
      apply grows_bind; [apply grows_gets|].
      intros [i|]; [|apply grows_panic].
      destruct (fs.IsDir (fs.Mode i)); apply grows_ret.
    + apply grows_bind; [apply grows_willwalk|]. intros [w realname].
      destruct (negb w); [apply grows_ret|].
      apply grows_bind.
      { apply grows_modify. intros s. simpl. set_solver. }
      intros _. apply grows_bind.
      { intros s. simpl. reflexivity. }
      intros [dirs rerr]. apply grows_bind.
      { destruct rerr as [e|]; [|apply grows_ret].
        apply grows_run_visit. intros get Heq. inversion Heq.
        apply grows_DirEntry_Info. }
      intros [e|]; [apply grows_ret|].
      apply grows_range_dirs. intros n d1. apply IH.
Qed.

End Visited.

(** During one [walkDir], paths are only added to [visited]: what the
    traversal has entered stays entered until it ends. *)
Theorem walkDir_visited_grows {U : Type} (os : OS) (fuel : nat)
    (name : string) (d : fs.DirEntry) (fn : WalkDirFunc U)
    (s s' : walk.State U) (r : option error) :
  walk.walkDir os fuel name d fn s = Done r s' ->
  walk.visited s ⊆ walk.visited s'.
Proof.
  intros Hrun. pose proof (grows_walkDir os fuel name d fn s) as H.
  now rewrite Hrun in H.
Qed.

(* --------------------------------------------------------------------- *)
(** ** Further properties of the walker, the search and the index        *)
(* --------------------------------------------------------------------- *)

(** When the root cannot be described, [WalkDir] shows the callback the
    root once, with the error and no accessor, and walks nothing. *)
Theorem WalkDir_root_stat_failure {U : Type} (os : OS) (fuel : nat)
    (root : string) (fn : WalkDirFunc U) (s : walk.State U) (e : error) :
  os_Stat os root = failed e ->
  walk.WalkDir os fuel root fn s
    = walk.run_visit os None (fn root (Some e))
        (walk.log (SysStat root) (walk.set_visited ∅ s)).
Proof.
  intros Hstat. unfold walk.WalkDir, walk.sys_Stat. monad_unfold.
  simpl. now rewrite Hstat.
Qed.

Lemma WalkDir_root_stat_failure_witness :
  os_Stat (MemFS.mount two_files []) "/gone" = failed ENOENT
  /\ run_walk two_files 9 "/gone" tracer []
     = Done None (walk.mkState ∅ None [SysStat "/gone"] ["/gone"]).
Proof.
  split; [reflexivity|]. unfold run_walk.
  rewrite (WalkDir_root_stat_failure (MemFS.mount two_files []) 9 "/gone"
             tracer (walk.mkState ∅ None [] []) ENOENT eq_refl).
  reflexivity.
Defined.

(** The root of a search is never sent as a result, whatever the query. *)
Theorem search_fn_root_not_sent (re : RegexpLib) (basepath : string)
    (exp : option (Regexp re)) (lowerq : string) :
  search_fn re basepath exp lowerq basepath None = VRet None.
Proof.
  unfold search_fn, Path.Rel. now rewrite String.eqb_refl.
Qed.

(** An empty directory gets a listing with no entries and no README, and
    no error. *)
Theorem Populate_empty_directory (os : OS)
    (Markdown : string -> result string) (dirpath root : string) :
  Populate os Markdown [] dirpath root
    = ok (mkIndexContext (snd (Path.Split dirpath)) dirpath [] None
            (String.eqb dirpath "/")).
Proof.
  unfold Populate. destruct (Path.Split dirpath) as [d n]. reflexivity.
Qed.

(** Both archive functions pass over the same entries: [d.Type() != 0] of
    [archiveZIP] and [!d.Type().IsRegular()] of [archiveTarGZ] are one
    test; an entry that is not a regular file is written to neither
    archive. *)
Theorem archives_skip_non_regular (fsys : fs.FS) (p : string)
    (d : fs.DirEntry) (wz : zip.Writer) (wt : tar.Writer) :
  negb (N.eqb (fs.DirEntry_Type d) 0%N)
    = negb (fs.IsRegular (fs.DirEntry_Type d))
  /\ (N.eqb (fs.DirEntry_Type d) 0%N = false ->
      zip_visit fsys p (Some d) None wz = Done None wz
      /\ tar_visit fsys p (Some d) None wt = Done None wt).
Proof.
  split.
  - now rewrite IsRegular_DirEntry_Type.
  - intros H. split; [now apply zip_visit_other | now apply tar_visit_other].
Qed.

Lemma willwalk_symlink_witness :
  let os := MemFS.mount sibling_link [] in
  let d := fs.dirent "/r" "a" fs.ModeSymlink in
  let s := walk.mkState {["/r"]} None [] ([] : list string) in
  os_Readlink os "/r/a" = ok "d"
  /\ walk.willwalk os "/r/a" d s
     = Done (false, "/r/a/d")
         (walk.log (SysStat "/r/a/d") (walk.log (SysReadlink "/r/a") s)).
Proof.
  intros os d s. split; [reflexivity|].
  exact (willwalk_symlink os "/r/a" "d" d s eq_refl eq_refl eq_refl).
Defined.

Lemma walkDir_SkipDir_returns_only_with_stat_witness :
  let os := MemFS.mount two_files [] in
  let s := walk.mkState ∅ None [] [] in
  let s1 := walk.mkState ∅ (Some (fs.mkFileInfo "a" 1%N 420%N 0%N))
              [SysStat "/r/a"] ["/r/a"] in
  walk.walkDir os 1 "/r/a" (fs.dirent "/r" "a" 0%N) (skip_at "/r/a") s
    = Done (Some SkipDir) s1
  /\ exists i, walk.stat s1 = Some i.
Proof.
  intros os s s1. split; [reflexivity|].
  exact (walkDir_SkipDir_returns_only_with_stat os 0 "/r/a"
           (fs.dirent "/r" "a" 0%N) (skip_at "/r/a") s s1 s1
           (Some SkipDir) eq_refl eq_refl).
Defined.

Lemma walkDir_visited_grows_witness :
  exists s',
    walk.walkDir (MemFS.mount plain_cycle []) 9 "/r"
      (fs.statDirEntry (MemFS.info_of "r" (NDir true []))) tracer
      (walk.mkState ∅ None [] []) = Done None s'
    /\ elements (walk.visited s') = ["/r/a"; "/r"]
    /\ (∅ : gset string) ⊆ walk.visited s'.
Proof.
  eexists.
  split; [vm_compute; reflexivity|]. split; [vm_compute; reflexivity|].
  apply (walkDir_visited_grows (MemFS.mount plain_cycle []) 9 "/r"
           (fs.statDirEntry (MemFS.info_of "r" (NDir true []))) tracer
           (walk.mkState ∅ None [] []) _ None).
  vm_compute. reflexivity.
Defined.

Lemma has_byte_app (c : ascii) (a b : string) :
  has_byte c (a +:+ b) = has_byte c a || has_byte c b.
Proof.
  induction a as [|x a IH]; [reflexivity|].
  change (String x a +:+ b) with (String x (a +:+ b)). simpl.
  now rewrite IH, orb_assoc.
Qed.

(** The link of an entry never holds a "#", which would start a fragment,
    and a path without "#" is linked as it is. *)
Theorem RelHREF_no_fragment (f : FileInfo) :
  has_byte "#" (RelHREF f) = false
  /\ (has_byte "#" (RelPath f) = false -> RelHREF f = RelPath f).
Proof.
  unfold RelHREF. generalize (RelPath f). intros s. split.
  - induction s as [|c s IH]; [reflexivity|]. simpl ReplaceAll.
    rewrite has_byte_app, IH, orb_false_r.
    destruct (Ascii.eqb c "#") eqn:Hc; [reflexivity|].
    simpl. now rewrite Hc.
  - induction s as [|c s IH]; [reflexivity|]. simpl. intros H.
    apply orb_false_iff in H. destruct H as [Hc Hs].
    rewrite Hc, (IH Hs). reflexivity.
Qed.

(** An entry drawn as a folder or a folder shortcut is one the listing
    treats as a directory; one drawn as a file shortcut is not. *)
Theorem IconName_folder_GoesToDir (f : FileInfo) :
  (IconName f = "folder" \/ IconName f = "folder-shortcut" ->
   GoesToDir f = true)
  /\ (IconName f = "file-shortcut" -> GoesToDir f = false).
Proof.
  unfold IconName, GoesToDir, mode.
  destruct (N.eqb (fs.Type_ (fs.Mode (info f))) fs.ModeDir) eqn:Hd.
  - apply N.eqb_eq in Hd. split; [|discriminate]. intros _.
    rewrite Hd. simpl N.eqb. cbv iota.
    rewrite <- IsDir_Type, Hd. reflexivity.
  - destruct (N.eqb (fs.Type_ (fs.Mode (info f))) fs.ModeSymlink).
    + destruct (fs.IsDir (TargetMode f)); split; intros H;
        try reflexivity; try discriminate; destruct H; discriminate.
    + split; intros H; try discriminate; destruct H; discriminate.
Qed.

(* --------------------------------------------------------------------- *)
(** ** Bread crumbs                                                      *)
(* --------------------------------------------------------------------- *)

Lemma SplitSlash_nonempty (p : string) : Strings.SplitSlash p <> [].
Proof.
  destruct p as [|c p]; simpl; [discriminate|].
  destruct (Ascii.eqb c "/"); [discriminate|].
  destruct (Strings.SplitSlash p); discriminate.
Qed.

Lemma JoinSlash_cons (a : string) (l : list string) :
  l <> [] ->
  Strings.JoinSlash (a :: l) = a +:+ String "/" (Strings.JoinSlash l).
Proof. destruct l; [congruence | reflexivity]. Qed.

(** Splitting at the slashes and joining with slashes gives the string
    back. *)
Lemma JoinSlash_SplitSlash (p : string) :
  Strings.JoinSlash (Strings.SplitSlash p) = p.
Proof.
  induction p as [|c p IH]; [reflexivity|]. simpl.
  destruct (Ascii.eqb c "/") eqn:Hc.
  - apply Ascii.eqb_eq in Hc. subst c.
    rewrite JoinSlash_cons by apply SplitSlash_nonempty.
    now rewrite IH.
  - pose proof (SplitSlash_nonempty p) as Hne.
    destruct (Strings.SplitSlash p) as [|w ws]; [congruence|].
    destruct ws as [|w' ws].
    + unfold Strings.JoinSlash in *. simpl in *. congruence.
    + rewrite JoinSlash_cons in IH by discriminate.
      rewrite JoinSlash_cons by discriminate.
      change (String c w +:+ String "/" (Strings.JoinSlash (w' :: ws)))
        with (String c (w +:+ String "/" (Strings.JoinSlash (w' :: ws)))).
      now rewrite IH.
Qed.

Lemma last_cons_nonempty {A} (x d : A) (l : list A) :
  l <> [] -> List.last (x :: l) d = List.last l d.
Proof. destruct l; [congruence | reflexivity]. Qed.

Lemma last_SplitSlash (p : string) :
  String.eqb (List.last (Strings.SplitSlash p) "") ""
    = String.eqb p "" || ends_with_slash p.
Proof.
  induction p as [|c p IH]; [reflexivity|].
  change (String.eqb (String c p) "") with false. rewrite orb_false_l.
  pose proof (SplitSlash_nonempty p) as Hne.
  pose proof (JoinSlash_SplitSlash p) as Hjoin.
  simpl Strings.SplitSlash.
  destruct (Ascii.eqb c "/") eqn:Hc.
  - rewrite last_cons_nonempty by assumption. rewrite IH.
    destruct p as [|c' p]; [simpl; now rewrite Hc | reflexivity].
  - destruct (Strings.SplitSlash p) as [|w ws] eqn:Hs; [congruence|].
    destruct ws as [|w' ws].
    + unfold Strings.JoinSlash in Hjoin. simpl in Hjoin. subst w.
      simpl List.last in *. change (String.eqb (String c p) "") with false.
      destruct p as [|c' p]; [simpl; now rewrite Hc|].
      rewrite ends_with_slash_cons by discriminate.
      change (String.eqb (String c' p) "") with false in IH.
      now rewrite orb_false_l in IH.
    + rewrite last_cons_nonempty by discriminate.
      rewrite last_cons_nonempty in IH by discriminate. rewrite IH.
      destruct p as [|c' p]; [discriminate Hs|]. reflexivity.
Qed.

Lemma append_empty_r (s : string) : s +:+ "" = s.
Proof.
  induction s as [|c s IH]; [reflexivity|].
  change (String c s +:+ "") with (String c (s +:+ "")). now rewrite IH.
Qed.

Lemma Text_imap (g : nat -> string -> string) (l : list string) :
  map Text (imap (fun i segment => mkCrumb (g i segment) segment) l) = l.
Proof.
  revert g. induction l as [|x l IH]; intros g; [reflexivity|].
  simpl. f_equal. apply (IH (fun i => g (S i))).
Qed.

(** The texts of the crumbs, joined by slashes, spell the path again, up
    to the one trailing slash [Crumbs] drops. *)
Theorem Crumbs_texts_spell_path (dirpath : string) :
  Strings.JoinSlash (map Text (Crumbs dirpath))
    +:+ (if ends_with_slash dirpath then "/" else "")
  = dirpath.
Proof.
  unfold Crumbs. cbv zeta. rewrite Text_imap, last_SplitSlash.
  pose proof (JoinSlash_SplitSlash dirpath) as Hjoin.
  destruct dirpath as [|c p]; [reflexivity|].
  change (String.eqb (String c p) "") with false. rewrite orb_false_l.
  destruct (ends_with_slash (String c p)) eqn:Hends.
  - assert (Hlast : List.last (Strings.SplitSlash (String c p)) "" = "").
    { apply String.eqb_eq. rewrite last_SplitSlash, Hends. apply orb_true_r. }
    pose proof (app_removelast_last ""
                  (SplitSlash_nonempty (String c p))) as Hsplit.
    rewrite Hlast in Hsplit.
    destruct (removelast (Strings.SplitSlash (String c p))) as [|x l] eqn:Hr.
    + rewrite Hsplit in Hjoin. discriminate Hjoin.
    + rewrite Hsplit in Hjoin at 1.
      rewrite JoinSlash_snoc in Hjoin by discriminate. exact Hjoin.
  - rewrite append_empty_r. exact Hjoin.
Qed.

(** Splitting distributes over a slash between two strings. *)
Lemma SplitSlash_append (a b : string) :
  Strings.SplitSlash (a +:+ String "/" b)
    = Strings.SplitSlash a ++ Strings.SplitSlash b.
Proof.
  induction a as [|c a IH]; [reflexivity|].
  change (String c a +:+ String "/" b) with (String c (a +:+ String "/" b)).
  simpl Strings.SplitSlash. rewrite IH.
  destruct (Ascii.eqb c "/"); [reflexivity|].
  pose proof (SplitSlash_nonempty a) as Hne.
  destruct (Strings.SplitSlash a); [congruence | reflexivity].
Qed.

Lemma SplitSlash_Repeat_up (j : nat) :
  Strings.SplitSlash (Repeat "../" j) = repeat ".." j ++ [""].
Proof.
  induction j as [|j IH]; [reflexivity|].
  change (Repeat "../" (S j)) with (".." +:+ String "/" (Repeat "../" j)).
  rewrite SplitSlash_append, IH. reflexivity.
Qed.

Lemma SplitSlash_abs_path (names : list string) :
  names <> [] -> forallb valid_name names = true ->
  Strings.SplitSlash (abs_path names) = "" :: names.
Proof.
  intros Hne Hv. unfold abs_path. simpl Strings.SplitSlash.
  now rewrite SplitSlash_JoinSlash.
Qed.

Lemma last_valid_name (names : list string) :
  names <> [] -> forallb valid_name names = true ->
  String.eqb (List.last names "") "" = false.
Proof.
  induction names as [|n names IH]; [congruence|]. intros _ Hv.
  apply Forall_valid_cons in Hv. destruct Hv as [Hn Hv].
  destruct names as [|m names].
  - simpl. now destruct (valid_name_inv n Hn) as (H & _).
  - rewrite last_cons_nonempty by discriminate. apply IH; [discriminate|assumption].
Qed.

(** ".." elements pop a stack of valid names, one each; at the root of a
    rooted path nothing is left to pop. *)
Lemma fold_clean_step_up (j : nat) (stack : list string) :
  forallb valid_name stack = true ->
  fold_left (Path.clean_step true) (repeat ".." j) stack = skipn j stack.
Proof.
  revert stack. induction j as [|j IH]; intros stack Hv; [reflexivity|].
  simpl repeat. simpl fold_left.
  destruct stack as [|top below].
  - change (Path.clean_step true [] "..") with (@nil string).
    rewrite IH by reflexivity. now destruct j.
  - apply Forall_valid_cons in Hv. destruct Hv as [Ht Hv].
    destruct (valid_name_inv top Ht) as (_ & _ & Hdd & _).
    unfold Path.clean_step at 2.
    change (String.eqb ".." "") with false.
    change (String.eqb ".." ".") with false.
    change (String.eqb ".." "..") with true. cbv iota. rewrite Hdd.
    now apply IH.
Qed.

Lemma forallb_valid_rev (names : list string) :
  forallb valid_name names = true -> forallb valid_name (rev names) = true.
Proof.
  intros H. apply forallb_forall. intros x Hx. apply in_rev in Hx.
  rewrite forallb_forall in H. now apply H.
Qed.

Lemma fold_clean_step_valid_rooted (names acc : list string) :
  forallb valid_name names = true ->
  fold_left (Path.clean_step true) names acc = rev names ++ acc.
Proof.
  revert acc. induction names as [|n names IH]; intros acc Hv; [reflexivity|].
  apply Forall_valid_cons in Hv. destruct Hv as [Hn Hv].
  simpl. rewrite clean_step_valid by assumption.
  rewrite IH by assumption. rewrite <- app_assoc. reflexivity.
Qed.

(** The path a crumb's link leads to, from the directory the crumbs are
    of: [path.Join] of the directory and [j] times "../". *)
Lemma Join_up (names : list string) (j : nat) :
  forallb valid_name names = true ->
  Path.Join [abs_path names; Repeat "../" j]
    = abs_path (firstn (length names - j) names).
Proof.
  intros Hv.
  assert (Hfold : forall rest,
    fold_left (Path.clean_step true) (Strings.SplitSlash (abs_path names) ++ rest) []
    = fold_left (Path.clean_step true) rest (rev names)).
  { intros rest. rewrite fold_left_app. f_equal.
    destruct names as [|n names]; [reflexivity|].
    rewrite SplitSlash_abs_path by (auto; discriminate).
    change (fold_left (Path.clean_step true) ("" :: n :: names) [])
      with (fold_left (Path.clean_step true) (n :: names) []).
    rewrite fold_clean_step_valid_rooted by assumption. apply app_nil_r. }
  unfold Path.Join. cbn [List.filter].
  change (String.eqb (abs_path names) "") with false. simpl negb. cbv iota.
  destruct j as [|j].
  - change (String.eqb (Repeat "../" 0) "") with true. simpl negb. cbv iota.
    change (Strings.JoinSlash [abs_path names]) with (abs_path names).
    unfold Path.Clean, Path.clean_elems.
    change (Path.IsAbs (abs_path names)) with true. cbv iota.
    rewrite <- (app_nil_r (Strings.SplitSlash (abs_path names))), Hfold.
    simpl fold_left. rewrite rev_involutive, Nat.sub_0_r, firstn_all.
    reflexivity.
  - change (String.eqb (Repeat "../" (S j)) "") with false. simpl negb. cbv iota.
    change (Strings.JoinSlash [abs_path names; Repeat "../" (S j)])
      with (abs_path names +:+ String "/" (Repeat "../" (S j))).
    unfold Path.Clean, Path.clean_elems.
    change (Path.IsAbs (abs_path names +:+ String "/" (Repeat "../" (S j))))
      with true. cbv iota.
    rewrite SplitSlash_append, Hfold, SplitSlash_Repeat_up, fold_left_app.
    rewrite fold_clean_step_up by now apply forallb_valid_rev.
    simpl fold_left.
    replace (Path.clean_step true (skipn (S j) (rev names)) "")
      with (skipn (S j) (rev names)) by reflexivity.
    rewrite skipn_rev, rev_involutive. reflexivity.
Qed.

Lemma Crumbs_abs_path (names : list string) :
  forallb valid_name names = true ->
  Crumbs (abs_path names)
    = imap (fun i segment =>
              mkCrumb (Repeat "../" (length names - i)) segment)
        ("" :: names).
Proof.
  intros Hv. unfold Crumbs. cbv zeta. destruct names as [|n names].
  - reflexivity.
  - rewrite SplitSlash_abs_path by (auto; discriminate).
    rewrite last_cons_nonempty by discriminate.
    rewrite last_valid_name by (auto; discriminate).
    apply imap_ext. intros i x _. simpl. do 2 f_equal. lia.
Qed.

(** Every crumb of a directory carries one segment of its path and links
    to the directory that segment names: following the link of crumb [k]
    from the directory leads to the path of its first [k] names. *)
Theorem Crumbs_links_lead_up (names : list string) (k : nat) (c : Crumb) :
  forallb valid_name names = true ->
  Crumbs (abs_path names) !! k = Some c ->
  Text c = nth k ("" :: names) ""
  /\ Path.Join [abs_path names; Link c] = abs_path (firstn k names).
Proof.
  intros Hv Hk. rewrite Crumbs_abs_path in Hk by assumption.
  rewrite list_lookup_imap in Hk.
  destruct (("" :: names) !! k) as [seg|] eqn:Hseg; [|discriminate].
  simpl in Hk. inversion Hk; subst c; clear Hk. simpl Text. simpl Link.
  assert (Hlen : k <= length names).
  { apply lookup_lt_Some in Hseg. simpl in Hseg. lia. }
  split.
  - symmetry. apply nth_lookup_Some with (d := "") in Hseg. exact Hseg.
  - rewrite Join_up by assumption. do 2 f_equal. lia.
Qed.

Lemma Crumbs_links_lead_up_witness :
  Crumbs "/music/live" !! 1 = Some (mkCrumb "../" "music")
  /\ Path.Join ["/music/live"; "../"] = "/music".
Proof.
  split; [reflexivity|].
  exact (proj2 (Crumbs_links_lead_up ["music"; "live"] 1
                  (mkCrumb "../" "music") eq_refl eq_refl)).
Defined.

(* --------------------------------------------------------------------- *)
(** ** Requests: what is opened, what is refused                         *)
(* --------------------------------------------------------------------- *)

Lemma SplitSlash_no_slashes (p : string) :
  forallb no_slash (Strings.SplitSlash p) = true.
Proof.
  induction p as [|c p IH]; [reflexivity|]. simpl Strings.SplitSlash.
  destruct (Ascii.eqb c "/") eqn:Hc; [exact IH|].
  destruct (Strings.SplitSlash p) as [|w ws]; simpl in *; rewrite Hc; simpl;
    [reflexivity | exact IH].
Qed.

(** A stack of valid names stays one under the elements of a rooted
    path. *)
Lemma clean_step_rooted_valid (stack : list string) (e : string) :
  forallb valid_name stack = true -> no_slash e = true ->
  forallb valid_name (Path.clean_step true stack e) = true.
Proof.
  intros Hs He. unfold Path.clean_step.
  destruct (String.eqb e "") eqn:H1; [assumption|].
  destruct (String.eqb e ".") eqn:H2; [assumption|].
  destruct (String.eqb e "..") eqn:H3.
  - destruct stack as [|top below]; [reflexivity|].
    apply Forall_valid_cons in Hs. destruct Hs as [Ht Hb].
    destruct (valid_name_inv top Ht) as (_ & _ & Hdd & _). now rewrite Hdd.
  - simpl. rewrite Hs. unfold valid_name. now rewrite H1, H2, H3, He.
Qed.

Lemma fold_clean_rooted_valid (elems stack : list string) :
  forallb valid_name stack = true -> forallb no_slash elems = true ->
  forallb valid_name (fold_left (Path.clean_step true) elems stack) = true.
Proof.
  revert stack. induction elems as [|e elems IH]; intros stack Hs He;
    [assumption|].
  simpl in He. apply andb_prop in He. destruct He as [He Hes].
  simpl. apply IH; [now apply clean_step_rooted_valid | assumption].
Qed.

(** The elements [path.Clean] keeps of a rooted path are plain names:
    none is empty, "." or "..". *)
Lemma clean_elems_rooted (p : string) :
  Path.IsAbs p = true -> forallb valid_name (Path.clean_elems p) = true.
Proof.
  intros Habs. unfold Path.clean_elems. rewrite Habs.
  apply forallb_valid_rev.
  apply fold_clean_rooted_valid; [reflexivity | apply SplitSlash_no_slashes].
Qed.

Lemma IsAbs_append (a b : string) :
  a <> "" -> Path.IsAbs (a +:+ b) = Path.IsAbs a.
Proof. destruct a; [congruence | reflexivity]. Qed.

Lemma fold_clean_step_names (rooted : bool) (names stack : list string) :
  forallb valid_name names = true ->
  fold_left (Path.clean_step rooted) names stack = rev names ++ stack.
Proof.
  revert stack. induction names as [|n names IH]; intros stack Hv; [reflexivity|].
  apply Forall_valid_cons in Hv. destruct Hv as [Hn Hv].
  simpl. rewrite clean_step_valid by assumption.
  rewrite IH by assumption. rewrite <- app_assoc. reflexivity.
Qed.

Lemma filter_nonempty_valid (names : list string) :
  forallb valid_name names = true ->
  List.filter (fun e => negb (String.eqb e "")) names = names.
Proof.
  induction names as [|n names IH]; [reflexivity|]. intros Hv.
  apply Forall_valid_cons in Hv. destruct Hv as [Hn Hv].
  destruct (valid_name_inv n Hn) as (H1 & _). simpl. rewrite H1. simpl.
  now rewrite IH.
Qed.

Lemma Join_dir_Clean (d p : string) :
  d <> "" -> Path.IsAbs p = true ->
  Path.Join [d; Path.Clean p] = Path.Join (d :: Path.clean_elems p).
Proof.
  intros Hd Habs. pose proof (clean_elems_rooted p Habs) as Hv.
  assert (Hdne : String.eqb d "" = false) by now apply String.eqb_neq.
  assert (Hclean : Path.Clean p
                   = String "/" (Strings.JoinSlash (Path.clean_elems p))).
  { unfold Path.Clean. now rewrite Habs. }
  rewrite Hclean.
  unfold Path.Join. cbn [List.filter]. rewrite Hdne.
  change (String.eqb (String "/" (Strings.JoinSlash (Path.clean_elems p))) "")
    with false. simpl negb. cbv iota.
  rewrite filter_nonempty_valid by assumption.
  change (Strings.JoinSlash [d; String "/" (Strings.JoinSlash (Path.clean_elems p))])
    with (d +:+ String "/" (String "/" (Strings.JoinSlash (Path.clean_elems p)))).
  set (names := Path.clean_elems p) in *.
  assert (Hleft :
    fold_left (Path.clean_step (Path.IsAbs d))
      (Strings.SplitSlash (d +:+ String "/" (String "/" (Strings.JoinSlash names)))) []
    = rev names ++ fold_left (Path.clean_step (Path.IsAbs d)) (Strings.SplitSlash d) []).
  { rewrite SplitSlash_append, fold_left_app.
    simpl Strings.SplitSlash. simpl fold_left.
    change (Path.clean_step (Path.IsAbs d) ?s "") with s.
    destruct names as [|n names'] eqn:Hn; [reflexivity|].
    rewrite SplitSlash_JoinSlash by (auto; discriminate).
    now apply fold_clean_step_names. }
  destruct names as [|n names'] eqn:Hn.
  - change (Strings.JoinSlash [d]) with d.
    unfold Path.Clean, Path.clean_elems.
    rewrite IsAbs_append by assumption. rewrite Hleft. reflexivity.
  - rewrite (JoinSlash_cons d (n :: names')) by discriminate.
    unfold Path.Clean, Path.clean_elems.
    rewrite !IsAbs_append by assumption. rewrite Hleft.
    rewrite SplitSlash_append, fold_left_app.
    rewrite SplitSlash_JoinSlash by (auto; discriminate).
    rewrite (fold_clean_step_names _ (n :: names')) by assumption.
    reflexivity.
Qed.

(** The path [ServeHTTP] opens for a rooted request path lies below the
    served directory: it is the directory joined with plain names, the
    elements [path.Clean] keeps of the request path, none of them "..". *)
Theorem request_path_confined (d p : string) :
  d <> "" -> Path.IsAbs p = true ->
  forallb valid_name (Path.clean_elems p) = true
  /\ Path.Join [d; Path.Clean p] = Path.Join (d :: Path.clean_elems p).
Proof.
  intros Hd Habs.
  split; [now apply clean_elems_rooted | now apply Join_dir_Clean].
Qed.

Lemma request_path_confined_witness :
  Path.Join ["/srv"; Path.Clean "/../../data/a/../b"] = "/srv/data/b"
  /\ Path.Join ("/srv" :: Path.clean_elems "/../../data/a/../b")
     = "/srv/data/b".
Proof.
  split; [reflexivity|].
  rewrite <- (proj2 (request_path_confined "/srv" "/../../data/a/../b"
                       ltac:(discriminate) eq_refl)).
  reflexivity.
Defined.

(** [path.Split] returns, as the file, the last of the elements between
    the slashes; the directory part is empty exactly when there is no
    slash. *)
Lemma Split_SplitSlash (p : string) :
  snd (Path.Split p) = List.last (Strings.SplitSlash p) ""
  /\ String.eqb (fst (Path.Split p)) ""
     = match Strings.SplitSlash p with [_] => true | _ => false end.
Proof.
  induction p as [|c p IH]; [split; reflexivity|].
  pose proof (SplitSlash_nonempty p) as Hne.
  simpl Path.Split. simpl Strings.SplitSlash.
  destruct (Path.Split p) as [d f]. cbn [fst snd] in IH.
  destruct IH as [Hf Hd].
  destruct (Ascii.eqb c "/") eqn:Hc.
  - rewrite last_cons_nonempty by assumption.
    destruct (String.eqb d ""); cbn [fst snd]; (split; [assumption|]);
      (destruct (Strings.SplitSlash p); [congruence | reflexivity]).
  - destruct (Strings.SplitSlash p) as [|w ws]; [congruence|].
    destruct ws as [|w' ws]; rewrite Hd; cbn [fst snd].
    + simpl in Hf. subst f. split; reflexivity.
    + split; [|reflexivity].
      rewrite last_cons_nonempty by discriminate.
      now rewrite last_cons_nonempty in Hf by discriminate.
Qed.

(** The file name [handleDir] offers for the download of a directory is
    the last element of the cleaned request path, "root" for the served
    directory itself; it is never empty and holds no slash. *)
Theorem download_name_last_element (p : string) :
  Path.IsAbs p = true ->
  download_name (Path.Clean p) = List.last (Path.clean_elems p) "root"
  /\ valid_name (download_name (Path.Clean p)) = true.
Proof.
  intros Habs. pose proof (clean_elems_rooted p Habs) as Hv.
  assert (Hclean : Path.Clean p = abs_path (Path.clean_elems p)).
  { unfold Path.Clean. now rewrite Habs. }
  rewrite Hclean. destruct (Path.clean_elems p) as [|n names] eqn:Hn.
  { split; reflexivity. }
  assert (Hne : n :: names <> []) by discriminate.
  unfold download_name.
  destruct (Split_SplitSlash (abs_path (n :: names))) as [Hf _].
  destruct (Path.Split (abs_path (n :: names))) as [d f]. cbn [snd] in Hf.
  rewrite SplitSlash_abs_path in Hf by assumption.
  rewrite last_cons_nonempty in Hf by assumption.
  assert (Hlast : forall dflt, List.last (n :: names) dflt
                               = List.last (n :: names) "").
  { intros dflt. clear -Hne. induction names as [|m names IH] in n, Hne |- *;
      [reflexivity|].
    rewrite !(last_cons_nonempty n) by discriminate. now apply IH. }
  rewrite (Hlast "root"), <- Hf.
  assert (Hvf : valid_name f = true).
  { subst f. clear -Hv Hne. induction names as [|m names IH] in n, Hv, Hne |- *.
    - apply Forall_valid_cons in Hv. now destruct Hv.
    - rewrite last_cons_nonempty by discriminate.
      apply Forall_valid_cons in Hv. destruct Hv as [_ Hv].
      now apply IH. }
  destruct (valid_name_inv f Hvf) as (He & _).
  rewrite He. split; [reflexivity | assumption].
Qed.

Lemma download_name_last_element_witness :
  download_name (Path.Clean "/music/../photos/2020/") = "2020".
Proof.
  rewrite (proj1 (download_name_last_element "/music/../photos/2020/" eq_refl)).
  reflexivity.
Defined.

(* --------------------------------------------------------------------- *)
(** ** Absolute paths of plain names                                     *)
(* --------------------------------------------------------------------- *)

Lemma clean_elems_abs_path (q : list string) :
  forallb valid_name q = true -> Path.clean_elems (abs_path q) = q.
Proof.
  intros Hv. unfold Path.clean_elems.
  change (Path.IsAbs (abs_path q)) with true.
  destruct q as [|n q]; [reflexivity|].
  rewrite SplitSlash_abs_path by (auto; discriminate).
  change (fold_left (Path.clean_step true) ("" :: n :: q) [])
    with (fold_left (Path.clean_step true) (n :: q) []).
  rewrite fold_clean_step_names by assumption.
  now rewrite app_nil_r, rev_involutive.
Qed.

Lemma Clean_abs_path (q : list string) :
  forallb valid_name q = true -> Path.Clean (abs_path q) = abs_path q.
Proof.
  intros Hv. unfold Path.Clean.
  change (Path.IsAbs (abs_path q)) with true. cbv iota.
  now rewrite clean_elems_abs_path.
Qed.

(** Joining plain names to a rooted path appends them to the elements
    [path.Clean] keeps of it. *)
Lemma Join_rooted_names (d : string) (names : list string) :
  Path.IsAbs d = true -> forallb valid_name names = true ->
  Path.Join (d :: names) = abs_path (Path.clean_elems d ++ names).
Proof.
  intros Habs Hv.
  assert (Hd : d <> "") by (intros ->; discriminate).
  assert (Hdne : String.eqb d "" = false) by now apply String.eqb_neq.
  unfold Path.Join. cbn [List.filter]. rewrite Hdne. simpl negb. cbv iota.
  rewrite filter_nonempty_valid by assumption.
  destruct names as [|n names].
  - change (Strings.JoinSlash [d]) with d. unfold Path.Clean.
    rewrite Habs, app_nil_r. reflexivity.
  - rewrite (JoinSlash_cons d (n :: names)) by discriminate.
    unfold Path.Clean, Path.clean_elems.
    rewrite !IsAbs_append by assumption. rewrite Habs.
    rewrite SplitSlash_append, fold_left_app.
    rewrite SplitSlash_JoinSlash by (auto; discriminate).
    rewrite (fold_clean_step_names _ (n :: names)) by assumption.
    rewrite rev_app_distr, rev_involutive. reflexivity.
Qed.

Lemma Join_abs_path (q names : list string) :
  forallb valid_name q = true -> forallb valid_name names = true ->
  Path.Join (abs_path q :: names) = abs_path (q ++ names).
Proof.
  intros Hq Hn. rewrite Join_rooted_names by auto.
  now rewrite clean_elems_abs_path.
Qed.

Lemma abs_path_inj (a b : list string) :
  forallb valid_name a = true -> forallb valid_name b = true ->
  abs_path a = abs_path b -> a = b.
Proof.
  intros Ha Hb Heq.
  rewrite <- (clean_elems_abs_path a Ha), <- (clean_elems_abs_path b Hb).
  now rewrite Heq.
Qed.

(** The name [os.Stat] reports for an absolute path of plain names. *)
Lemma basename_abs_path (q : list string) :
  forallb valid_name q = true ->
  MemFS.basename (abs_path q) = List.last q "/".
Proof.
  intros Hv. unfold MemFS.basename. destruct q as [|n q]; [reflexivity|].
  rewrite SplitSlash_abs_path by (auto; discriminate).
  change (List.filter (fun e => negb (String.eqb e "")) ("" :: n :: q))
    with (List.filter (fun e => negb (String.eqb e "")) (n :: q)).
  now rewrite filter_nonempty_valid.
Qed.

(** The system finds, at an absolute path of plain names, the object the
    names lead to, when that is not a link. *)
Lemma namei_abs_path (whole : node) (follow : bool) (q : list string)
    (x : node) :
  forallb valid_name q = true ->
  MemFS.lookup whole q = Some x ->
  is_link x = false -> is_dir whole = true ->
  MemFS.namei whole [] follow (abs_path q) = ok x.
Proof.
  intros Hv Hx Hnl Hwhole. destruct q as [|n q].
  - simpl in Hx. inversion Hx; subst x.
    destruct whole as [| r es | |]; try discriminate.
    unfold MemFS.namei.
    change (String.eqb (abs_path []) "") with false.
    change (Path.IsAbs (abs_path [])) with true.
    change (Strings.SplitSlash (abs_path [])) with ["";""].
    cbv iota. rewrite resolve_eq. simpl MemFS.lookup. simpl orb. cbv iota.
    rewrite resolve_eq. simpl MemFS.lookup. simpl orb. cbv iota.
    now rewrite resolve_eq.
  - apply (namei_walk_name whole [] (n :: q) x follow);
      try solve [assumption | reflexivity | discriminate].
    rewrite SplitSlash_abs_path by (auto; discriminate). reflexivity.
Qed.

(** A request for a file of the served tree is answered with that file:
    whatever ".." the request path holds, the name and the bytes served
    are those of the object the cleaned path leads to below the served
    directory. *)
Theorem ServeHTTP_serves_file_below_dir (re : RegexpLib)
    (md : string -> result string) (whole : node) (ps : list string)
    (fuel : nat) (r : Request) (data : string) :
  forallb valid_name ps = true ->
  is_dir whole = true ->
  Method r = "GET" \/ Method r = "HEAD" ->
  Query_Get r "dir" = "" ->
  Path.IsAbs (URL_Path r) = true ->
  MemFS.lookup whole (ps ++ Path.clean_elems (URL_Path r))
    = Some (NFile true data) ->
  let name := List.last (ps ++ Path.clean_elems (URL_Path r)) "/" in
  ServeHTTP re md (MemFS.mount whole []) fuel (mkServer (abs_path ps)) r
    = Reply_ServeContent name 0%N
        (fs.mkFile (ok (MemFS.info_of name (NFile true data))) (data, None)).
Proof.
  intros Hps Hwhole Hm Hdir Habs Hx name.
  pose proof (clean_elems_rooted _ Habs) as Hv.
  assert (Hq : forallb valid_name (ps ++ Path.clean_elems (URL_Path r)) = true)
    by (rewrite forallb_app, Hps; exact Hv).
  unfold ServeHTTP.
  assert (Hmeth : String.eqb (Method r) "GET" || String.eqb (Method r) "HEAD"
                  = true).
  { destruct Hm as [-> | ->]; reflexivity. }
  rewrite Hmeth, Hdir. simpl negb. cbv iota zeta.
  change (dir (mkServer (abs_path ps))) with (abs_path ps).
  rewrite (Join_dir_Clean (abs_path ps) (URL_Path r)) by (auto; discriminate).
  rewrite Join_abs_path by assumption.
  simpl os_Open. unfold MemFS.Open.
  rewrite (namei_abs_path whole true _ (NFile true data)) by auto.
  rewrite basename_abs_path by assumption.
  reflexivity.
Qed.

Lemma ServeHTTP_serves_file_below_dir_witness :
  ServeHTTP LitRegexp.lib paragraph (MemFS.mount mixed_fs []) 0
    (mkServer "/srv/data") (get "/../b/../a/./f" [])
  = Reply_ServeContent "f" 0%N
      (fs.mkFile (ok (MemFS.info_of "f" (NFile true "xyz"))) ("xyz", None)).
Proof.
  exact (ServeHTTP_serves_file_below_dir LitRegexp.lib paragraph mixed_fs
           ["srv"; "data"] 0 (get "/../b/../a/./f" []) "xyz"
           eq_refl eq_refl (or_introl eq_refl) eq_refl eq_refl eq_refl).
Defined.

(* --------------------------------------------------------------------- *)
(** ** The walker on a tree without links                                *)
(* --------------------------------------------------------------------- *)

Section WalkerSteps.
Context {U : Type}.
Variable os : OS.

Lemma getinfo_visited name (s : walk.State U) r s0 :
  walk.getinfo os name s = Done r s0 -> walk.visited s0 = walk.visited s.
Proof.
  unfold walk.getinfo, walk.sys_Stat. monad_unfold.
  destruct (walk.stat s) as [i|]; simpl.
  - intros H. now inversion H.
  - destruct (os_Stat os name) as [i|e]; simpl; intros H; now inversion H.
Qed.

(** The callback never touches [visited]. *)
Lemma run_visit_visited {A} (v : Visit U A) :
  forall name s a s',
    walk.run_visit os (Some (walk.getinfo os name)) v s = Done a s' ->
    walk.visited s' = walk.visited s.
Proof.
  induction v as [a0 | k IH | p k IH | k IH | u k IH | msg];
    intros name s a s' Hrun; simpl in Hrun.
  - monad_unfold. now inversion Hrun.
  - unfold mbind, M_mbind, M_bind in Hrun.
    destruct (walk.getinfo os name s) as [r s0| |] eqn:Hget; try discriminate.
    apply IH in Hrun. apply getinfo_visited in Hget. congruence.
  - unfold walk.sys_Stat in Hrun. unfold mbind, M_mbind, M_bind in Hrun.
    simpl in Hrun. now apply IH in Hrun.
  - unfold mbind, M_mbind, M_bind in Hrun. simpl in Hrun.
    now apply IH in Hrun.
  - unfold mbind, M_mbind, M_bind in Hrun. simpl in Hrun.
    now apply IH in Hrun.
  - monad_unfold. discriminate.
Qed.

(** One frame of [walkDir] on an entry that is neither a directory nor a
    link, after the callback returned nil. *)
Lemma walkDir_other fuel name d (fn : WalkDirFunc U) s s1 :
  walk.run_visit os (Some (walk.getinfo os name)) (fn name None)
    (walk.set_stat None s) = Done None s1 ->
  fs.DirEntry_IsDir d = false ->
  N.eqb (fs.DirEntry_Type d) fs.ModeSymlink = false ->
  walk.walkDir os (S fuel) name d fn s = Done None s1.
Proof.
  intros Hrun Hdir Hlink. simpl. monad_unfold. simpl. rewrite Hrun.
  unfold walk.willwalk. rewrite Hdir, Hlink. reflexivity.
Qed.

(** One frame of [walkDir] on a directory not yet visited, whose listing
    succeeds, after the callback returned nil. *)
Lemma walkDir_enter fuel name d (fn : WalkDirFunc U) s s1 dirs :
  walk.run_visit os (Some (walk.getinfo os name)) (fn name None)
    (walk.set_stat None s) = Done None s1 ->
  fs.DirEntry_IsDir d = true ->
  name ∉ walk.visited s1 ->
  os_ReadDir os name = (dirs, None) ->
  walk.walkDir os (S fuel) name d fn s
    = walk.range_dirs (fun name1 d1 => walk.walkDir os fuel name1 d1 fn)
        name dirs
        (walk.log (SysReadDir name)
           (walk.set_visited ({[name]} ∪ walk.visited s1) s1)).
Proof.
  intros Hrun Hdir Hnew Hread. simpl. monad_unfold. simpl. rewrite Hrun.
  unfold walk.willwalk. rewrite Hdir. monad_unfold.
  rewrite bool_decide_eq_false_2 by assumption. simpl.
  unfold walk.sys_ReadDir. monad_unfold. rewrite Hread. reflexivity.
Qed.

Lemma range_dirs_next rec name d1 dirs (s s1 : walk.State U) :
  rec (Path.Join [name; fs.DirEntry_Name d1]) d1 s = Done None s1 ->
  walk.range_dirs rec name (d1 :: dirs) s = walk.range_dirs rec name dirs s1.
Proof. intros Hrec. simpl. monad_unfold. now rewrite Hrec. Qed.

End WalkerSteps.

Lemma link_free_dir (r : bool) (es : list (string * node)) :
  link_free (NDir r es) = true ->
  r = true /\ forallb valid_name (map fst es) = true
  /\ distinct (map fst es) = true
  /\ forall n y, In (n, y) es -> link_free y = true.
Proof.
  simpl. intros H.
  apply andb_prop in H. destruct H as [H Hall].
  apply andb_prop in H. destruct H as [H Hdist].
  apply andb_prop in H. destruct H as [Hr Hvalid].
  repeat split; try assumption.
  clear -Hall. induction es as [|[m z] es IH]; intros n y Hin; [destruct Hin|].
  apply andb_prop in Hall. destruct Hall as [Hz Hall].
  destruct Hin as [Heq|Hin].
  - inversion Heq; subst. exact Hz.
  - now apply (IH Hall n y).
Qed.

(** The directory bit and the type bits of an object of such a tree. *)
Lemma link_free_mode (x : node) :
  link_free x = true ->
  is_link x = false
  /\ fs.IsDir (MemFS.mode_of x) = is_dir x
  /\ N.eqb (fs.Type_ (MemFS.mode_of x)) fs.ModeSymlink = false.
Proof.
  destruct x as [r data | r es | target | typ]; intros H;
    try discriminate; try (repeat split; reflexivity).
  simpl in H. apply andb_prop in H. destruct H as [Hd Hl].
  apply negb_true_iff in Hd, Hl. repeat split; assumption.
Qed.

Lemma objects_of_dir (names : list string) (r : bool)
    (es : list (string * node)) :
  objects_of names (NDir r es) = (names, NDir r es) :: entries_objects names es.
Proof.
  unfold entries_objects. simpl. f_equal.
  induction es as [|[n y] es IH]; [reflexivity|].
  simpl. now rewrite IH.
Qed.

Lemma emit_objects_app {U : Type} (emit : list string -> node -> U -> U)
    (a b : list (list string * node)) (u : U) :
  emit_objects emit (a ++ b) u = emit_objects emit b (emit_objects emit a u).
Proof. unfold emit_objects. now rewrite fold_left_app. Qed.

Lemma visited_below_refl (q : list string) (V : gset string) :
  visited_below q V V.
Proof. intros p Hp. now left. Qed.

Section LinkFreeWalk.
Context {U : Type}.
Variable whole : node.
Variable ps : list string.
Hypothesis Hps : forallb valid_name ps = true.
Hypothesis Hwhole : is_dir whole = true.

(** A callback that, shown an object of the tree, returns nil and adds to
    its variables by [emit]. *)
Variable fn : WalkDirFunc U.
Variable emit : list string -> node -> U -> U.
Hypothesis fn_emit :
  forall names x s,
    forallb valid_name names = true ->
    MemFS.lookup whole (ps ++ names) = Some x ->
    is_link x = false ->
    exists s',
      walk.run_visit (MemFS.mount whole [])
        (Some (walk.getinfo (MemFS.mount whole []) (abs_path (ps ++ names))))
        (fn (abs_path (ps ++ names)) None) (walk.set_stat None s)
      = Done None s'
      /\ walk.user s' = emit names x (walk.user s).

Lemma walkDir_link_free (fuel : nat) :
  forall (x : node) (names : list string) (d : fs.DirEntry)
         (s : walk.State U),
    depth x <= fuel ->
    forallb valid_name names = true ->
    MemFS.lookup whole (ps ++ names) = Some x ->
    link_free x = true ->
    fs.DirEntry_IsDir d = is_dir x ->
    N.eqb (fs.DirEntry_Type d) fs.ModeSymlink = false ->
    unvisited_below (ps ++ names) (walk.visited s) ->
    exists s',
      walk.walkDir (MemFS.mount whole []) fuel (abs_path (ps ++ names)) d fn s
        = Done None s'
      /\ walk.user s' = emit_objects emit (objects_of names x) (walk.user s)
      /\ visited_below (ps ++ names) (walk.visited s) (walk.visited s').
Proof.
  induction fuel as [|fuel IH];
    intros x names d s Hdepth Hnames Hx Hfree Hisdir Htype Hnew.
  { pose proof (depth_pos x). lia. }
  destruct (link_free_mode x Hfree) as (Hnl & _ & _).
  destruct (fn_emit names x s Hnames Hx Hnl) as (s1 & Hrun & Huser).
  pose proof (run_visit_visited _ _ _ _ _ _ Hrun) as Hvis.
  change (walk.visited (walk.set_stat None s)) with (walk.visited s) in Hvis.
  assert (Hq : forallb valid_name (ps ++ names) = true)
    by (rewrite forallb_app, Hps; exact Hnames).
  destruct x as [r data | r es | target | typ]; try discriminate.
  - (* a file *)
    exists s1. rewrite (walkDir_other _ fuel _ d fn s s1 Hrun Hisdir Htype).
    split; [reflexivity|]. split; [exact Huser|].
    rewrite Hvis. apply visited_below_refl.
  - (* a directory *)
    destruct (link_free_dir r es Hfree) as (-> & Hvalid & Hdist & Hsub).
    assert (Hfresh : abs_path (ps ++ names) ∉ walk.visited s1).
    { rewrite Hvis. rewrite <- (app_nil_r (ps ++ names)). now apply Hnew. }
    assert (Hread : os_ReadDir (MemFS.mount whole []) (abs_path (ps ++ names))
              = (map (fun e => fs.dirent (abs_path (ps ++ names)) (fst e)
                                 (fs.Type_ (MemFS.mode_of (snd e)))) es, None)).
    { simpl os_ReadDir. unfold MemFS.ReadDir.
      now rewrite (namei_abs_path whole true _ (NDir true es)). }
    rewrite (walkDir_enter _ fuel _ d fn s s1 _ Hrun Hisdir Hfresh Hread).
    rewrite objects_of_dir.
    set (s2 := walk.log (SysReadDir (abs_path (ps ++ names)))
                 (walk.set_visited
                    ({[abs_path (ps ++ names)]} ∪ walk.visited s1) s1)).
    assert (Hloop :
      forall l (s0 : walk.State U),
        (forall n y, In (n, y) l -> In (n, y) es) ->
        distinct (map fst l) = true ->
        (forall n y, In (n, y) l ->
           unvisited_below (ps ++ names ++ [n]) (walk.visited s0)) ->
        exists s',
          walk.range_dirs
            (fun name1 d1 =>
               walk.walkDir (MemFS.mount whole []) fuel name1 d1 fn)
            (abs_path (ps ++ names))
            (map (fun e => fs.dirent (abs_path (ps ++ names)) (fst e)
                             (fs.Type_ (MemFS.mode_of (snd e)))) l) s0
          = Done None s'
          /\ walk.user s'
             = emit_objects emit (entries_objects names l) (walk.user s0)
          /\ visited_below (ps ++ names) (walk.visited s0) (walk.visited s')).
    { induction l as [|[n y] l IHl]; intros s0 Hsubl Hdl Hnewl.
      { exists s0. split; [reflexivity|]. split; [reflexivity|].
        apply visited_below_refl. }
      assert (Hin : In (n, y) es) by (apply Hsubl; now left).
      assert (Hn : valid_name n = true).
      { rewrite forallb_forall in Hvalid. apply Hvalid.
        change n with (fst (n, y)). now apply in_map. }
      assert (Hy : MemFS.lookup whole (ps ++ names ++ [n]) = Some y).
      { rewrite app_assoc.
        apply (lookup_entry whole (ps ++ names) true es n y Hx).
        now apply assoc_distinct. }
      assert (Hnames' : forallb valid_name (names ++ [n]) = true).
      { rewrite forallb_app, Hnames. simpl. now rewrite Hn. }
      pose proof (Hsub n y Hin) as Hyfree.
      destruct (link_free_mode y Hyfree) as (_ & Hydir & Hytype).
      destruct (IH y (names ++ [n])
                  (fs.dirent (abs_path (ps ++ names)) n
                     (fs.Type_ (MemFS.mode_of y))) s0)
        as (s3 & Hwalk & Huser3 & Hbelow3); try assumption.
      { pose proof (depth_entry true es n y Hin). lia. }
      { simpl. now rewrite IsDir_Type. }
      { simpl. now rewrite Type_idem. }
      { apply (Hnewl n y). now left. }
      simpl in Hdl. apply andb_prop in Hdl. destruct Hdl as [Hnotin Hdl].
      apply negb_true_iff in Hnotin.
      destruct (IHl s3) as (s4 & Hrest & Huser4 & Hbelow4).
      { intros n' y' Hin'. apply Hsubl. now right. }
      { exact Hdl. }
      { intros m z Hm r Hr Hp.
        destruct (Hbelow3 _ Hp) as [Hold | (r' & Hr' & Heq)].
        - revert Hold. apply (Hnewl m z); [now right | exact Hr].
        - apply abs_path_inj in Heq.
          + rewrite <- !app_assoc in Heq.
            apply app_inv_head in Heq. apply app_inv_head in Heq.
            simpl in Heq. inversion Heq; subst m.
            assert (Hex : existsb (String.eqb n) (map fst l) = true).
            { apply existsb_exists. exists n. split; [|apply String.eqb_refl].
              change n with (fst (n, z)). now apply in_map. }
            congruence.
          + rewrite !forallb_app, Hps, Hnames, Hr. simpl.
            assert (Hmv : valid_name m = true).
            { rewrite forallb_forall in Hvalid. apply Hvalid.
              change m with (fst (m, z)). apply in_map. apply Hsubl.
              now right. }
            now rewrite Hmv.
          + rewrite !forallb_app, Hps, Hnames, Hr'. simpl. now rewrite Hn. }
      exists s4. simpl map.
      rewrite (range_dirs_next _ _ _ _ s0 s3).
      2:{ simpl fs.DirEntry_Name.
          rewrite (Join_abs_path (ps ++ names) [n]) by (simpl; now rewrite ?Hn).
          rewrite <- app_assoc. exact Hwalk. }
      split; [exact Hrest|]. split.
      - unfold entries_objects. simpl flat_map. rewrite emit_objects_app.
        rewrite <- Huser3. exact Huser4.
      - intros p Hp. destruct (Hbelow4 _ Hp) as [Hold | Hnewp]; [|now right].
        destruct (Hbelow3 _ Hold) as [Hold3 | (r' & Hr' & Heq)]; [now left|].
        right. exists (n :: r'). split.
        + simpl. now rewrite Hn.
        + rewrite Heq. rewrite <- !app_assoc. reflexivity. }
    destruct (Hloop es s2) as (s' & Hrange & Huser' & Hbelow').
    { auto. }
    { exact Hdist. }
    { intros n y Hin r Hr Hp. subst s2. simpl in Hp.
      apply elem_of_union in Hp. destruct Hp as [Hp | Hp].
      - apply elem_of_singleton in Hp. apply abs_path_inj in Hp.
        + rewrite <- !app_assoc in Hp. apply app_inv_head in Hp.
          rewrite <- (app_nil_r names) in Hp at 2.
          apply app_inv_head in Hp. discriminate.
        + assert (Hn : valid_name n = true).
          { rewrite forallb_forall in Hvalid. apply Hvalid.
            change n with (fst (n, y)). now apply in_map. }
          rewrite !forallb_app, Hps, Hnames, Hr. simpl. now rewrite Hn.
        + exact Hq.
      - rewrite Hvis in Hp. revert Hp.
        replace ((ps ++ names ++ [n]) ++ r) with ((ps ++ names) ++ n :: r)
          by (rewrite <- !app_assoc; reflexivity).
        apply Hnew. simpl. rewrite Hr.
        assert (Hn : valid_name n = true).
        { rewrite forallb_forall in Hvalid. apply Hvalid.
          change n with (fst (n, y)). now apply in_map. }
        now rewrite Hn. }
    exists s'. split; [exact Hrange|]. split.
    + change (emit_objects emit ((names, NDir true es) :: entries_objects names es)
                (walk.user s))
        with (emit_objects emit (entries_objects names es)
                (emit names (NDir true es) (walk.user s))).
      rewrite <- Huser. exact Huser'.
    + intros p Hp. destruct (Hbelow' _ Hp) as [Hold | Hnewp]; [|now right].
      subst s2. simpl in Hold. apply elem_of_union in Hold.
      destruct Hold as [Hold | Hold].
      * apply elem_of_singleton in Hold. right. exists []. split; [reflexivity|].
        now rewrite app_nil_r.
      * left. now rewrite <- Hvis.
  - (* a device, pipe or socket *)
    exists s1. rewrite (walkDir_other _ fuel _ d fn s s1 Hrun Hisdir Htype).
    split; [reflexivity|]. split; [exact Huser|].
    rewrite Hvis. apply visited_below_refl.
Qed.

(** [WalkDir] from the directory at [ps]. *)
Lemma WalkDir_link_free (fuel : nat) (x : node) (s : walk.State U) :
  MemFS.lookup whole ps = Some x ->
  link_free x = true ->
  depth x <= fuel ->
  exists s',
    walk.WalkDir (MemFS.mount whole []) fuel (abs_path ps) fn s = Done None s'
    /\ walk.user s' = emit_objects emit (objects_of [] x) (walk.user s).
Proof.
  intros Hx Hfree Hdepth.
  destruct (link_free_mode x Hfree) as (Hnl & Hdir & Htype).
  assert (Hstat : os_Stat (MemFS.mount whole []) (abs_path ps)
                  = ok (MemFS.info_of (MemFS.basename (abs_path ps)) x)).
  { simpl os_Stat. unfold MemFS.Stat.
    now rewrite (namei_abs_path whole true ps x). }
  unfold walk.WalkDir, walk.sys_Stat. monad_unfold. rewrite Hstat.
  set (s0 := walk.log (SysStat (abs_path ps)) (walk.set_visited ∅ s)).
  destruct (walkDir_link_free fuel x []
              (fs.statDirEntry (MemFS.info_of (MemFS.basename (abs_path ps)) x))
              s0) as (s' & Hwalk & Huser & _);
    try assumption; try reflexivity.
  - now rewrite app_nil_r.
  - intros r Hr. apply not_elem_of_empty.
  - rewrite app_nil_r in Hwalk. exists s'. split; [exact Hwalk | exact Huser].
Qed.

End LinkFreeWalk.

(* --------------------------------------------------------------------- *)
(** ** What a walk of a tree without links shows                         *)
(* --------------------------------------------------------------------- *)

Lemma emit_objects_paths (f : list string * node -> string)
    (l : list (list string * node)) (acc : list string) :
  emit_objects (fun names x u => u ++ [f (names, x)]) l acc
    = acc ++ map f l.
Proof.
  revert acc. induction l as [|[names x] l IH]; intros acc.
  - simpl. now rewrite app_nil_r.
  - simpl. rewrite IH. now rewrite <- app_assoc.
Qed.

(** The objects of a tree without links are reached by plain names, no
    two by the same. *)
Lemma objects_of_names (k : nat) :
  forall (x : node) (names : list string),
    depth x <= k -> link_free x = true ->
    (forall o, In o (objects_of names x) ->
       exists r, fst o = names ++ r /\ forallb valid_name r = true)
    /\ NoDup (map fst (objects_of names x)).
Proof.
  induction k as [|k IH]; intros x names Hdepth Hfree.
  { pose proof (depth_pos x). lia. }
  assert (Hleaf : forall y : node,
            objects_of names y = [(names, y)] ->
            (forall o, In o (objects_of names y) ->
               exists r, fst o = names ++ r /\ forallb valid_name r = true)
            /\ NoDup (map fst (objects_of names y))).
  { intros y ->. split.
    - intros o [<- | []]. exists []. now rewrite app_nil_r.
    - simpl. apply NoDup_singleton. }
  destruct x as [r data | r es | target | typ]; try discriminate;
    try (now apply Hleaf).
  destruct (link_free_dir r es Hfree) as (-> & Hvalid & Hdist & Hsub).
  rewrite objects_of_dir.
  assert (Hentries :
    forall l,
      (forall n y, In (n, y) l -> In (n, y) es) ->
      distinct (map fst l) = true ->
      (forall o, In o (entries_objects names l) ->
         exists n r, In n (map fst l) /\ fst o = names ++ n :: r
                     /\ forallb valid_name (n :: r) = true)
      /\ NoDup (map fst (entries_objects names l))).
  { induction l as [|[n y] l IHl]; intros Hsubl Hdl.
    { split; [intros o [] | apply NoDup_nil_2]. }
    assert (Hin : In (n, y) es) by (apply Hsubl; now left).
    assert (Hn : valid_name n = true).
    { rewrite forallb_forall in Hvalid. apply Hvalid.
      change n with (fst (n, y)). now apply in_map. }
    simpl in Hdl. apply andb_prop in Hdl. destruct Hdl as [Hnotin Hdl].
    apply negb_true_iff in Hnotin.
    destruct (IH y (names ++ [n])) as [Hy1 Hy2].
    { pose proof (depth_entry true es n y Hin). lia. }
    { now apply (Hsub n y). }
    destruct IHl as [Hl1 Hl2].
    { intros n' y' Hin'. apply Hsubl. now right. }
    { exact Hdl. }
    unfold entries_objects. simpl flat_map.
    fold (entries_objects names l). split.
    - intros o Ho. apply in_app_or in Ho. destruct Ho as [Ho | Ho].
      + destruct (Hy1 o Ho) as (r & Heq & Hr). exists n, r.
        split; [now left|]. split.
        * rewrite Heq, <- app_assoc. reflexivity.
        * simpl. now rewrite Hn.
      + destruct (Hl1 o Ho) as (m & r & Hm & Heq & Hr). exists m, r.
        split; [now right|]. now split.
    - rewrite map_app. apply NoDup_app. split; [exact Hy2|].
      split; [|exact Hl2].
      intros p Hp Hp'. apply list_elem_of_In in Hp, Hp'.
      apply in_map_iff in Hp. destruct Hp as (o & <- & Ho).
      apply in_map_iff in Hp'. destruct Hp' as (o' & Heq' & Ho').
      destruct (Hy1 o Ho) as (r & Heq & _).
      destruct (Hl1 o' Ho') as (m & r' & Hm & Heqm & _).
      rewrite Heq, Heqm, <- app_assoc in Heq'.
      apply app_inv_head in Heq'. simpl in Heq'. inversion Heq'; subst m.
      assert (Hex : existsb (String.eqb n) (map fst l) = true).
      { apply existsb_exists. exists n. split; [assumption|].
        apply String.eqb_refl. }
      congruence. }
  destruct (Hentries es) as [He1 He2]; auto.
  split.
  - intros o [<- | Ho].
    + exists []. now rewrite app_nil_r.
    + destruct (He1 o Ho) as (n & r & _ & Heq & Hr). now exists (n :: r).
  - simpl map. apply NoDup_cons. split; [|exact He2].
    intros Hp. apply list_elem_of_In in Hp.
    apply in_map_iff in Hp. destruct Hp as (o & Heq & Ho).
    destruct (He1 o Ho) as (n & r & _ & Heq' & _).
    rewrite Heq' in Heq. rewrite <- (app_nil_r names) in Heq at 2.
    apply app_inv_head in Heq. discriminate.
Qed.

Lemma objects_of_paths_NoDup (ps : list string) (x : node) :
  forallb valid_name ps = true -> link_free x = true ->
  List.NoDup (map (fun o => abs_path (ps ++ fst o)) (objects_of [] x)).
Proof.
  intros Hps Hfree. apply NoDup_ListNoDup.
  destruct (objects_of_names (depth x) x [] (le_n _) Hfree) as [Hshape Hnd].
  rewrite <- (map_map fst (fun names => abs_path (ps ++ names))).
  apply (NoDup_fmap_2_strong (fun names => abs_path (ps ++ names)));
    [|exact Hnd].
  intros q q' Hq Hq' Heq. apply list_elem_of_In in Hq, Hq'.
  apply in_map_iff in Hq. destruct Hq as (o & <- & Ho).
  apply in_map_iff in Hq'. destruct Hq' as (o' & <- & Ho').
  destruct (Hshape o Ho) as (r & Hr & Hv).
  destruct (Hshape o' Ho') as (r' & Hr' & Hv').
  simpl in Hr, Hr'. apply abs_path_inj in Heq.
  - now apply app_inv_head in Heq.
  - rewrite forallb_app, Hps, Hr. exact Hv.
  - rewrite forallb_app, Hps, Hr'. exact Hv'.
Qed.

(** On a directory tree without links whose directories can all be listed,
    [walk.WalkDir] returns nil and has shown its callback the objects of
    the tree, each by its absolute path and none twice: the directory
    first, then its entries in the order of the listing, each directly
    followed by what is below it. *)
Theorem WalkDir_link_free_preorder (whole : node) (ps : list string)
    (x : node) (fuel : nat) :
  forallb valid_name ps = true ->
  is_dir whole = true ->
  MemFS.lookup whole ps = Some x ->
  link_free x = true ->
  depth x <= fuel ->
  outcome_of (run_walk whole fuel (abs_path ps) tracer [])
    = Some (inl None,
            map (fun o => abs_path (ps ++ fst o)) (objects_of [] x))
  /\ List.NoDup (map (fun o => abs_path (ps ++ fst o)) (objects_of [] x)).
Proof.
  intros Hps Hwhole Hx Hfree Hdepth.
  split; [|now apply objects_of_paths_NoDup].
  destruct (WalkDir_link_free whole ps Hps Hwhole tracer
              (fun names _ u => u ++ [abs_path (ps ++ names)])
              (fun names x0 s _ _ _ =>
                 ex_intro _ _ (conj eq_refl eq_refl))
              fuel x (walk.mkState ∅ None [] []) Hx Hfree Hdepth)
    as (s' & Hwalk & Huser).
  unfold run_walk. rewrite Hwalk. simpl outcome_of. rewrite Huser.
  rewrite (emit_objects_paths (fun o => abs_path (ps ++ fst o))).
  reflexivity.
Qed.

Lemma WalkDir_link_free_preorder_witness :
  outcome_of (run_walk notes_fs 3 "/srv" tracer [])
    = Some (inl None,
            ["/srv"; "/srv/docs"; "/srv/docs/Notes.txt"; "/srv/docs/todo";
             "/srv/notes"; "/srv/pipe"]).
Proof.
  exact (proj1 (WalkDir_link_free_preorder notes_fs ["srv"] notes_tree 3
                  eq_refl eq_refl eq_refl eq_refl (le_n 3))).
Defined.

(* --------------------------------------------------------------------- *)
(** ** A search of a tree without links                                  *)
(* --------------------------------------------------------------------- *)

Lemma strip_common_prefix (a b : list string) :
  Path.strip_common a (a ++ b) = ([], b).
Proof.
  induction a as [|x a IH]; [now destruct b|].
  simpl. now rewrite String.eqb_refl.
Qed.

(** [filepath.Rel] from a directory to an object below it: the names in
    between. *)
Lemma Rel_abs_path (ps names : list string) :
  forallb valid_name ps = true -> forallb valid_name names = true ->
  names <> [] ->
  Path.Rel (abs_path ps) (abs_path (ps ++ names))
    = Some (Strings.JoinSlash names).
Proof.
  intros Hps Hnames Hne.
  assert (Hq : forallb valid_name (ps ++ names) = true)
    by (rewrite forallb_app, Hps; exact Hnames).
  unfold Path.Rel. rewrite !Clean_abs_path by assumption. cbv zeta.
  assert (Hdiff : String.eqb (abs_path (ps ++ names)) (abs_path ps) = false).
  { apply String.eqb_neq. intros Heq. apply abs_path_inj in Heq; auto.
    rewrite <- (app_nil_r ps) in Heq at 2. apply app_inv_head in Heq.
    contradiction. }
  rewrite Hdiff.
  change (Path.IsAbs (abs_path ps)) with true.
  change (Path.IsAbs (abs_path (ps ++ names))) with true.
  simpl negb. cbv iota.
  rewrite !clean_elems_abs_path by assumption.
  now rewrite strip_common_prefix.
Qed.

Lemma last_app_nonempty {A} (a b : list A) (d d' : A) :
  b <> [] -> List.last (a ++ b) d = List.last b d'.
Proof.
  intros Hb. induction a as [|x a IH].
  - simpl. induction b as [|y b IHb]; [congruence|].
    destruct b as [|z b]; [reflexivity|].
    rewrite !(last_cons_nonempty y) by discriminate.
    apply IHb. discriminate.
  - simpl app. rewrite last_cons_nonempty; [exact IH|].
    destruct a; simpl; [assumption | discriminate].
Qed.

Section SearchTree.
Variable re : RegexpLib.
Variable lower : string -> string.
Variable whole : node.
Variable ps : list string.
Hypothesis Hps : forallb valid_name ps = true.
Hypothesis Hwhole : is_dir whole = true.
Variable exp : option (Regexp re).
Variable query : string.

(** What the callback of a search does when it is shown an object of the
    tree. *)
Lemma search_fn_object (lowerq : string) (names : list string) (x : node)
    (s : walk.State (list FileInfo)) :
  (exp = None -> lowerq = lower query) ->
  forallb valid_name names = true ->
  MemFS.lookup whole (ps ++ names) = Some x ->
  is_link x = false ->
  exists s',
    walk.run_visit (MemFS.mount whole [])
      (Some (walk.getinfo (MemFS.mount whole []) (abs_path (ps ++ names))))
      (search_fn_with re lower (abs_path ps) exp lowerq
         (abs_path (ps ++ names)) None)
      (walk.set_stat None s)
    = Done None s'
    /\ walk.user s'
       = walk.user s ++ search_hit re lower exp query ps (names, x).
Proof.
  intros Hq Hnames Hx Hnl.
  assert (Hv : forallb valid_name (ps ++ names) = true)
    by (rewrite forallb_app, Hps; exact Hnames).
  destruct names as [|n names].
  - rewrite app_nil_r. exists (walk.set_stat None s).
    unfold search_fn_with, Path.Rel. rewrite String.eqb_refl.
    split; [reflexivity|]. simpl. now rewrite app_nil_r.
  - assert (Hne : n :: names <> []) by discriminate.
    assert (Hsplit : Strings.SplitSlash (Strings.JoinSlash (n :: names))
                     = n :: names)
      by (apply SplitSlash_JoinSlash; assumption).
    assert (Hdot : Strings.JoinSlash (n :: names) <> ".").
    { intros Heq. rewrite Heq in Hsplit. inversion Hsplit; subst.
      discriminate. }
    assert (Hstat : os_Stat (MemFS.mount whole []) (abs_path (ps ++ n :: names))
                    = ok (MemFS.info_of (List.last (n :: names) "") x)).
    { simpl os_Stat. unfold MemFS.Stat.
      rewrite (namei_abs_path whole true _ x) by assumption.
      rewrite basename_abs_path by assumption.
      now rewrite (last_app_nonempty ps (n :: names) "/" ""). }
    destruct (search_fn_with_decides re lower (MemFS.mount whole [])
                (abs_path ps) exp lowerq (abs_path (ps ++ n :: names))
                (Strings.JoinSlash (n :: names)) s
                (Rel_abs_path ps (n :: names) Hps Hnames Hne) Hdot)
      as (r & s' & Hrun & Hdec).
    rewrite (proj1 (Split_SplitSlash (Strings.JoinSlash (n :: names)))),
      Hsplit in Hdec.
    unfold search_hit. cbn [fst snd].
    assert (Hsame :
      match exp with
      | Some e => MatchString re e (abs_path (ps ++ n :: names))
      | None => Strings.Contains (lower (List.last (n :: names) "")) lowerq
      end
      = match exp with
        | Some e => MatchString re e (abs_path (ps ++ n :: names))
        | None =>
            Strings.Contains (lower (List.last (n :: names) "")) (lower query)
        end).
    { destruct exp as [e|]; [reflexivity|]. now rewrite Hq. }
    rewrite Hsame in Hdec.
    destruct (match exp with
              | Some e => MatchString re e (abs_path (ps ++ n :: names))
              | None =>
                  Strings.Contains (lower (List.last (n :: names) ""))
                    (lower query)
              end).
    + rewrite Hstat in Hdec. destruct Hdec as [-> Huser].
      exists s'. split; [exact Hrun | exact Huser].
    + destruct Hdec as (-> & Huser & _).
      exists s'. split; [exact Hrun|]. now rewrite app_nil_r.
Qed.

End SearchTree.

Lemma emit_objects_hits (hit : list string * node -> list FileInfo)
    (l : list (list string * node)) (acc : list FileInfo) :
  emit_objects (fun names x u => u ++ hit (names, x)) l acc
    = acc ++ flat_map hit l.
Proof.
  revert acc. induction l as [|[names x] l IH]; intros acc.
  - simpl. now rewrite app_nil_r.
  - simpl. rewrite IH. now rewrite <- app_assoc.
Qed.

(** A search of a directory tree without links whose directories can all
    be listed ends without error, and its page holds exactly the objects
    of the tree that match, in the order of the walk: never the
    directory searched itself; with a regular expression, the objects
    whose absolute path matches it; otherwise the objects whose lowered
    name holds the lowered query.  Each result carries the path from the
    directory searched. *)
Theorem handleSearch_link_free_tree (re : RegexpLib)
    (lower : string -> string) (whole : node)
    (ps : list string) (x : node) (fuel : nat) (s : Server)
    (relpath query : string) (isregexp : bool) (exp : option (Regexp re))
    (tr : list Syscall) :
  forallb valid_name ps = true ->
  is_dir whole = true ->
  MemFS.lookup whole ps = Some x ->
  link_free x = true ->
  depth x <= fuel ->
  Path.Join [dir s; relpath] = abs_path ps ->
  match exp with
  | Some e => isregexp = true /\ Compile re query = ok e
  | None => isregexp = false
  end ->
  exists tr',
    handleSearch_with re lower (MemFS.mount whole []) fuel s relpath query
      isregexp tr
    = Done (ExecuteTemplate "search.html"
              (mkSearchContext query relpath query
                 (flat_map (search_hit re lower exp query ps)
                    (objects_of [] x))),
            None) tr'.
Proof.
  intros Hps Hwhole Hx Hfree Hdepth Hjoin Hmode.
  set (lowerq := match exp with
                 | Some _ => ""
                 | None => lower query
                 end).
  destruct (WalkDir_link_free whole ps Hps Hwhole
              (search_fn_with re lower (abs_path ps) exp lowerq)
              (fun names y u =>
                 u ++ search_hit re lower exp query ps (names, y))
              (fun names y st Hn Hy Hl =>
                 search_fn_object re lower whole ps Hps Hwhole exp query
                   lowerq names y st
                   (fun He => ltac:(subst lowerq; now rewrite He))
                   Hn Hy Hl)
              fuel x (walk.mkState ∅ None tr []) Hx Hfree Hdepth)
    as (s' & Hwalk & Huser).
  rewrite emit_objects_hits in Huser. simpl in Huser.
  unfold handleSearch_with. rewrite Hjoin.
  destruct exp as [e|].
  - destruct Hmode as [-> ->]. subst lowerq. rewrite Hwalk, Huser.
    eexists. reflexivity.
  - rewrite Hmode. subst lowerq. rewrite Hwalk, Huser.
    eexists. reflexivity.
Qed.

Lemma handleSearch_link_free_tree_witness :
  exists tr',
    handleSearch_with LitRegexp.lib Strings.ToLower (MemFS.mount notes_fs [])
      3 (mkServer "/srv") "/" "NOTE" false []
    = Done (ExecuteTemplate "search.html"
              (mkSearchContext "NOTE" "/" "NOTE"
                 [match_of "docs/Notes.txt"
                    (MemFS.info_of "Notes.txt" (NFile true "a"));
                  match_of "notes" (MemFS.info_of "notes" (NFile true "n"))]),
            None) tr'.
Proof.
  exact (handleSearch_link_free_tree LitRegexp.lib Strings.ToLower notes_fs
           ["srv"] notes_tree 3 (mkServer "/srv") "/" "NOTE" false None []
           eq_refl eq_refl eq_refl eq_refl (le_n 3) eq_refl eq_refl).
Defined.

(* --------------------------------------------------------------------- *)
(** ** The order of a listing                                            *)
(* --------------------------------------------------------------------- *)

Lemma StronglySorted_lookup {A} (R : A -> A -> Prop) (l : list A) :
  StronglySorted R l ->
  forall i j a b, i < j -> l !! i = Some a -> l !! j = Some b -> R a b.
Proof.
  induction 1 as [|x l Hl IH Hx]; intros i j a b Hij Ha Hb.
  - discriminate.
  - destruct j as [|j]; [lia|]. simpl in Hb. destruct i as [|i].
    + simpl in Ha. inversion Ha; subst a.
      rewrite List.Forall_forall in Hx. apply Hx.
      apply list_elem_of_In. now apply list_elem_of_lookup_2 in Hb.
    + simpl in Ha. apply (IH i j); [lia | assumption | assumption].
Qed.

(** The listing [Populate] makes holds every entry of the directory once,
    directories and links to directories before everything else, and the
    names of each of the two groups in ascending byte order. *)
Theorem Populate_listing_directories_first (os : OS)
    (Markdown : string -> result string) (files : list fs.FileInfo)
    (dirpath root : string) (ic : IndexContext) :
  Populate os Markdown files dirpath root = ok ic ->
  Permutation (map info (Files ic)) files
  /\ forall i j a b,
       i < j -> Files ic !! i = Some a -> Files ic !! j = Some b ->
       (GoesToDir b = true -> GoesToDir a = true)
       /\ (GoesToDir a = GoesToDir b ->
           String.ltb (fs.Name (info b)) (fs.Name (info a)) = false).
Proof.
  intros Hpop.
  destruct (Populate_ok os Markdown root dirpath files ic Hpop) as [Hfiles _].
  split.
  - rewrite Hfiles, sort_Slice_perm, map_map.
    erewrite map_ext; [rewrite map_id; reflexivity|].
    intros f. apply info_populated.
  - intros i j a b Hij Ha Hb.
    pose proof (sort_Slice_sorted (map (populated os root dirpath) files))
      as Hsorted.
    rewrite <- Hfiles in Hsorted.
    pose proof (StronglySorted_lookup _ _ Hsorted i j a b Hij Ha Hb) as Hless.
    simpl in Hless. unfold less in Hless. unfold GoesToDir.
    destruct (fs.IsDir (mode a)), (fs.IsDir (mode b)); simpl in Hless;
      split; intros H; congruence.
Qed.

Lemma Populate_listing_directories_first_witness :
  Permutation (map info (Files readmes_index)) readmes_files.
Proof.
  refine (proj1 (Populate_listing_directories_first (MemFS.mount readmes [])
                   paragraph readmes_files "/docs" "/" readmes_index _)).
  vm_compute. reflexivity.
Defined.

(* --------------------------------------------------------------------- *)
(** ** Banners                                                           *)
(* --------------------------------------------------------------------- *)

Lemma Cut_Some (sep : ascii) (s before after : string) :
  Cut sep s = Some (before, after) ->
  s = before +:+ String sep after /\ has_byte sep before = false.
Proof.
  revert before. induction s as [|c s IH]; intros before H; [discriminate|].
  simpl in H. destruct (Ascii.eqb c sep) eqn:Hc.
  - apply Ascii.eqb_eq in Hc. subst c. inversion H; subst. now split.
  - destruct (Cut sep s) as [[b a]|] eqn:Hcut; [|discriminate].
    inversion H; subst. destruct (IH b eq_refl) as [-> Hb].
    split; [reflexivity|]. simpl. now rewrite Hc.
Qed.

Lemma Cut_None (sep : ascii) (s : string) :
  Cut sep s = None -> has_byte sep s = false.
Proof.
  induction s as [|c s IH]; [reflexivity|]. simpl.
  destruct (Ascii.eqb c sep); [discriminate|].
  destruct (Cut sep s) as [[b a]|]; [discriminate|]. auto.
Qed.

(** With a readable banners file, [banner] works on the line [rand.Intn]
    picks among the non-empty ones: it returns the text before the first
    space of that line as the image and all the rest as the link, and
    "invalid file" when the line has no space, whatever the other lines
    are; "empty file" is for a file of no bytes, "no banners specified"
    for one of nothing but line ends.  It never indexes out of range. *)
Theorem banner_picks_a_line (os : OS) (Intn : nat -> nat)
    (path p : string) :
  (forall n, 0 < n -> Intn n < n) ->
  os_ReadFile os path = ok p ->
  let lines := banner_lines p in
  match banner os Intn path with
  | banner_ok b =>
      lines !! Intn (length lines)
        = Some (ImageURL b +:+ " " +:+ Banner_Link b)
      /\ has_byte " " (ImageURL b) = false
  | banner_failed EmptyFile => p = ""
  | banner_failed NoBanners => p <> "" /\ lines = []
  | banner_failed InvalidFile =>
      exists line,
        lines !! Intn (length lines) = Some line
        /\ has_byte " " line = false
  | banner_failed (ReadingFile _) => False
  | banner_panic _ => False
  end.
Proof.
  intros Hrange Hread lines. unfold banner. rewrite Hread.
  destruct p as [|c p]; [reflexivity|].
  change (Nat.eqb (String.length (String c p)) 0) with false. cbv iota.
  fold lines. destruct lines as [|l0 ls] eqn:Hlines.
  { split; [discriminate | reflexivity]. }
  change (Nat.eqb (length (l0 :: ls)) 0) with false. cbv iota.
  destruct ((l0 :: ls) !! Intn (length (l0 :: ls))) as [b|] eqn:Hnth.
  - unfold SplitN2. destruct (Cut " " b) as [[url link]|] eqn:Hcut.
    + destruct (Cut_Some _ _ _ _ Hcut) as [-> Hurl]. cbn [ImageURL Banner_Link].
      split; [reflexivity | exact Hurl].
    + exists b. split; [reflexivity | now apply Cut_None].
  - apply lookup_ge_None in Hnth.
    specialize (Hrange (length (l0 :: ls))). simpl in *. lia.
Qed.

Lemma banner_picks_a_line_witness :
  banner_lines
    ("a.png http://a" +:+ String newline (String newline
     ("b.png http://b c" +:+ String newline ""))) !! 1
    = Some ("b.png" +:+ " " +:+ "http://b c")
  /\ has_byte " " "b.png" = false.
Proof.
  exact (banner_picks_a_line (MemFS.mount banners_fs []) (fun n => n - 1)
           "/srv/banners"
           ("a.png http://a" +:+ String newline (String newline
            ("b.png http://b c" +:+ String newline "")))
           (fun n (H : 0 < n) => ltac:(cbv beta; lia)) eq_refl).
Defined.

(* --------------------------------------------------------------------- *)
(** ** An archive can be read exactly when its function returned nil     *)
(* --------------------------------------------------------------------- *)

Section Keeps.
Context {St : Type}.
Variable P : St -> Prop.

Lemma keeps_ret {A} (a : A) : keeps P (mret a : M St A).
Proof. intros s Hs. exact Hs. Qed.

Lemma keeps_bind {A B} (m : M St A) (f : A -> M St B) :
  keeps P m -> (forall a, keeps P (f a)) -> keeps P (m ≫= f).
Proof.
  intros Hm Hf s Hs. unfold mbind, M_mbind, M_bind.
  specialize (Hm s Hs). destruct (m s) as [a s'|msg s'|]; auto.
  now apply Hf.
Qed.

Lemma keeps_panic {A} msg : keeps P (panic msg : M St A).
Proof. intros s Hs. exact Hs. Qed.

Lemma keeps_out_of_fuel {A} : keeps P (out_of_fuel : M St A).
Proof. intros s Hs. exact I. Qed.

Lemma keeps_io_Copy (Write : string -> M St (option error)) (f : fs.File) :
  (forall data, keeps P (Write data)) -> keeps P (io_Copy Write f).
Proof.
  intros HW. unfold io_Copy. destruct (fs.File_Read f) as [data rerr].
  apply keeps_bind; [apply HW|]. intros [e|]; apply keeps_ret.
Qed.

Variable fsys : fs.FS.
Variable fn : fs.WalkDirFunc (St := St).
Hypothesis keeps_fn : forall name d err, keeps P (fn name d err).

Lemma keeps_fs_range_dirs rec name dirs :
  (forall name1 d1, keeps P (rec name1 d1)) ->
  keeps P (fs.range_dirs rec name dirs).
Proof.
  intros Hrec. induction dirs as [|d1 dirs IH]; [apply keeps_ret|].
  simpl. apply keeps_bind; [apply Hrec|].
  intros [e|]; [|exact IH]. destruct (error_eqb e SkipDir); apply keeps_ret.
Qed.

Lemma keeps_fs_walkDir fuel :
  forall name d, keeps P (fs.walkDir fsys fuel name d fn).
Proof.
  induction fuel as [|fuel IH]; intros name d; [apply keeps_out_of_fuel|].
  rewrite fs_walkDir_eq. apply keeps_bind; [apply keeps_fn|].
  intros [e|].
  { destruct (error_eqb e SkipDir && fs.DirEntry_IsDir d); apply keeps_ret. }
  destruct (negb (fs.DirEntry_IsDir d)); [apply keeps_ret|].
  destruct (fs.ReadDir fsys name) as [dirs rerr].
  apply keeps_bind.
  { destruct rerr; [apply keeps_fn | apply keeps_ret]. }
  intros [e|].
  { destruct (error_eqb e SkipDir && fs.DirEntry_IsDir d); apply keeps_ret. }
  apply keeps_fs_range_dirs. intros name1 d1. apply IH.
Qed.

Lemma keeps_fs_WalkDir fuel root : keeps P (fs.WalkDir fsys fuel root fn).
Proof.
  unfold fs.WalkDir. apply keeps_bind.
  { destruct (fs.Stat fsys root); [apply keeps_fs_walkDir | apply keeps_fn]. }
  intros [e|]; [|apply keeps_ret].
  destruct (error_eqb e SkipDir || error_eqb e SkipAll); apply keeps_ret.
Qed.

End Keeps.

(** The callback of [archiveZIP] never closes the archive. *)
Lemma keeps_zip_visit (fsys : fs.FS) name d err :
  keeps (fun w => zip.closed w = false) (zip_visit fsys name d err).
Proof.
  unfold zip_visit. destruct err as [e|]; [apply keeps_ret|].
  destruct d as [d|]; [|apply keeps_panic].
  destruct (negb (N.eqb (fs.DirEntry_Type d) 0%N)); [apply keeps_ret|].
  destruct (fs.Open fsys name) as [f|e]; [|apply keeps_ret].
  destruct (fs.File_Stat f) as [i|e]; [|apply keeps_ret].
  destruct (zip.FileInfoHeader i) as [h|e]; [|apply keeps_ret].
  apply keeps_bind.
  { intros w Hw. unfold zip.CreateHeader. now rewrite Hw. }
  intros [e|]; [apply keeps_ret|].
  apply keeps_io_Copy. intros data w Hw. exact Hw.
Qed.

(** The callback of [archiveTarGZ] closes neither of its writers. *)
Lemma keeps_tar_visit (fsys : fs.FS) name d err :
  keeps (fun w => tar.closed w = false /\ tar.gzip_closed w = false)
    (tar_visit fsys name d err).
Proof.
  unfold tar_visit. destruct err as [e|]; [apply keeps_ret|].
  destruct d as [d|]; [|apply keeps_panic].
  destruct (negb (fs.IsRegular (fs.DirEntry_Type d))); [apply keeps_ret|].
  destruct (fs.Open fsys name) as [f|e]; [|apply keeps_ret].
  destruct (fs.File_Stat f) as [i|e]; [|apply keeps_ret].
  destruct (tar.FileInfoHeader i) as [h|e]; [|apply keeps_ret].
  apply keeps_bind.
  { intros w [Hw Hz]. unfold tar.WriteHeader. rewrite Hw.
    destruct (negb (N.eqb (tar.missing w) 0%N)); now split. }
  intros [e|]; [apply keeps_ret|].
  apply keeps_io_Copy. intros data w [Hw Hz]. unfold tar.Write.
  destruct (String.length data <=? N.to_nat (tar.missing w))%nat; now split.
Qed.

(** Whatever the file system holds, the archive either function leaves
    behind can be read exactly when the function returned nil: after an
    error the zip archive has no central directory and the gzip stream of
    the tar archive has no trailer, so a reader rejects what was written;
    after nil the reader gets every record written. *)
Theorem archive_readable_iff_no_error (os : OS) (fuel : nat) (root : string) :
  (forall err w,
     archiveZIP os fuel root zip.NewWriter = Done err w ->
     zip.read w =
       match err with
       | None => ok (map (fun r => (h_Name (fst r), snd r)) (zip.entries w))
       | Some _ => failed (ErrMsg "zip: not a valid zip file")
       end)
  /\ (forall err w,
        archiveTarGZ os fuel root tar.NewWriter = Done err w ->
        tar.read w =
          match err with
          | None => ok (map (fun r => (h_Name (fst r), snd r)) (tar.entries w))
          | Some _ => failed (ErrMsg "unexpected EOF")
          end).
Proof.
  split; intros err w Hrun.
  - unfold archiveZIP in Hrun. cbv zeta in Hrun.
    unfold mbind, M_mbind, M_bind in Hrun.
    pose proof (keeps_fs_WalkDir (fun w => zip.closed w = false)
                  (os_DirFS os root) (zip_visit (os_DirFS os root))
                  (keeps_zip_visit (os_DirFS os root)) fuel "."
                  zip.NewWriter eq_refl) as Hkeep.
    destruct (fs.WalkDir (os_DirFS os root) fuel "."
                (zip_visit (os_DirFS os root)) zip.NewWriter)
      as [[e|] w1|msg w1|]; try discriminate.
    + inversion Hrun; subst. unfold zip.read. now rewrite Hkeep.
    + unfold zip.Close in Hrun. rewrite Hkeep in Hrun.
      inversion Hrun; subst. reflexivity.
  - unfold archiveTarGZ in Hrun. cbv zeta in Hrun.
    unfold mbind, M_mbind, M_bind in Hrun.
    pose proof (keeps_fs_WalkDir
                  (fun w => tar.closed w = false /\ tar.gzip_closed w = false)
                  (os_DirFS os root) (tar_visit (os_DirFS os root))
                  (keeps_tar_visit (os_DirFS os root)) fuel "."
                  tar.NewWriter (conj eq_refl eq_refl)) as Hkeep.
    destruct (fs.WalkDir (os_DirFS os root) fuel "."
                (tar_visit (os_DirFS os root)) tar.NewWriter)
      as [[e|] w1|msg w1|]; try discriminate.
    + destruct Hkeep as [_ Hz]. inversion Hrun; subst.
      unfold tar.read. now rewrite Hz.
    + destruct Hkeep as [Hc Hz]. unfold tar.Close in Hrun. rewrite Hc in Hrun.
      destruct (negb (N.eqb (tar.missing w1) 0%N)).
      * inversion Hrun; subst. unfold tar.read. now rewrite Hz.
      * unfold tar.gzip_Close in Hrun. inversion Hrun; subst. reflexivity.
Qed.

(** The directory [/srv] of [served] holds a directory that cannot be
    listed: the archive ends with the permission error, after the file
    before it was written, and cannot be read. *)
Lemma archive_readable_iff_no_error_witness :
  archiveZIP (MemFS.mount served []) 3 "/srv" zip.NewWriter
    = Done (Some EACCES)
        (zip.mkWriter [(file_header "pub/notes.txt" "n", "n")] false)
  /\ zip.read (zip.mkWriter [(file_header "pub/notes.txt" "n", "n")] false)
     = failed (ErrMsg "zip: not a valid zip file").
Proof.
  assert (Hrun : archiveZIP (MemFS.mount served []) 3 "/srv" zip.NewWriter
            = Done (Some EACCES)
                (zip.mkWriter [(file_header "pub/notes.txt" "n", "n")] false))
    by (vm_compute; reflexivity).
  split; [exact Hrun|].
  exact (proj1 (archive_readable_iff_no_error (MemFS.mount served []) 3 "/srv")
           _ _ Hrun).
Defined.

(* --------------------------------------------------------------------- *)
(** ** A README in plain text is shown as text                           *)
(* --------------------------------------------------------------------- *)

Lemma markup_free_app (a b : string) :
  markup_free (a +:+ b) = markup_free a && markup_free b.
Proof.
  unfold markup_free. rewrite !has_byte_app.
  destruct (has_byte "<" a), (has_byte ">" a), (has_byte "'" a),
    (has_byte (ascii_of_nat 34) a), (has_byte "<" b), (has_byte ">" b),
    (has_byte "'" b), (has_byte (ascii_of_nat 34) b); reflexivity.
Qed.

Lemma EscapeString_markup_free (s : string) :
  markup_free (EscapeString s) = true.
Proof.
  induction s as [|c s IH]; [reflexivity|].
  simpl EscapeString. rewrite markup_free_app, IH, andb_true_r.
  destruct (Ascii.eqb c "&") eqn:H1; [reflexivity|].
  destruct (Ascii.eqb c "'") eqn:H2; [reflexivity|].
  destruct (Ascii.eqb c "<") eqn:H3; [reflexivity|].
  destruct (Ascii.eqb c ">") eqn:H4; [reflexivity|].
  destruct (Ascii.eqb c (ascii_of_nat 34)) eqn:H5; [reflexivity|].
  unfold markup_free. simpl has_byte. now rewrite H2, H3, H4, H5.
Qed.

(** In a directory whose README-named entries are all named readme.txt,
    in whatever case, the README of the listing is the text of one of
    them between "<pre>" and "</pre>", with every byte that could open or
    close a tag or an attribute value replaced by its entity: the text
    cannot put markup into the page. *)
Theorem Populate_README_txt_escaped
    (os : OS) (Markdown : string -> result string)
    (files : list fs.FileInfo) (dirpath root : string) (ic : IndexContext)
    (readme : string) :
  (forall f, In f files -> readme_name (fs.Name f) = true ->
     Strings.ToLower (fs.Name f) = "readme.txt") ->
  Populate os Markdown files dirpath root = ok ic ->
  ReadMe ic = Some readme ->
  exists f p,
    In f files
    /\ os_ReadFile os (Path.Join [root; dirpath; fs.Name f]) = ok p
    /\ readme = "<pre>" +:+ EscapeString p +:+ "</pre>"
    /\ markup_free (EscapeString p) = true.
Proof.
  intros Htxt Hpop Hreadme.
  destruct (Populate_ok os Markdown root dirpath files ic Hpop)
    as [Hfiles Hloop].
  rewrite readme_loop_find, Hreadme in Hloop.
  destruct (List.find is_readme (Files ic)) as [x|] eqn:Hfind;
    [|discriminate].
  destruct (find_first _ _ _ Hfind) as (l1 & l2 & Hsplit & Hx & _).
  assert (Hx_in : In x (Files ic)) by (rewrite Hsplit; apply in_elt).
  rewrite Hfiles in Hx_in.
  apply (Permutation_in _ (sort_Slice_perm _)) in Hx_in.
  apply in_map_iff in Hx_in. destruct Hx_in as (f & <- & Hf).
  unfold is_readme in Hx. rewrite info_populated in Hx.
  pose proof (Htxt f Hf Hx) as Hname.
  simpl in Hloop. rewrite info_populated, Hname in Hloop. simpl in Hloop.
  destruct (os_ReadFile os (Path.Join [root; dirpath; fs.Name f]))
    as [p|e] eqn:Hread; [|discriminate].
  exists f, p. split; [exact Hf|]. split; [exact Hread|].
  split; [congruence | apply EscapeString_markup_free].
Qed.

Lemma Populate_README_txt_escaped_witness :
  exists f p,
    In f txt_files
    /\ os_ReadFile (MemFS.mount readmes []) (Path.Join ["/"; "/docs"; fs.Name f])
       = ok p
    /\ "<pre>plain &lt;text&gt;</pre>" = "<pre>" +:+ EscapeString p +:+ "</pre>"
    /\ markup_free (EscapeString p) = true.
Proof.
  refine (Populate_README_txt_escaped (MemFS.mount readmes []) paragraph
            txt_files "/docs" "/" txt_index "<pre>plain &lt;text&gt;</pre>"
            _ _ _).
  - intros f [<- | [<- | []]] H; [reflexivity | discriminate H].
  - vm_compute. reflexivity.
  - reflexivity.
Defined.

(* --------------------------------------------------------------------- *)
(** ** Downloading a directory                                           *)
(* --------------------------------------------------------------------- *)

Section ArchiveTree.
Variable whole : node.
Variable ps : list string.
Variable es : list (string * node).
Variable fuel : nat.
Hypothesis Hps : forallb valid_name ps = true.
Hypothesis Hroot : MemFS.lookup whole ps = Some (NDir true es).
Hypothesis Harch : archivable (NDir true es) = true.
Hypothesis Hfuel : depth (NDir true es) <= fuel.

Lemma archiveZIP_tree :
  exists w,
    archiveZIP (MemFS.mount whole []) fuel (abs_path ps) zip.NewWriter
      = Done None w
    /\ zip.read w = ok (files_of [] (NDir true es)).
Proof.
  pose proof (lookup_dir_root whole ps true es Hroot) as Hwhole.
  destruct (mounted_Stat_root whole ps Hps Hwhole true es Hroot)
    as (full & Hstat).
  assert (Hlook : MemFS.lookup whole (ps ++ []) = Some (NDir true es))
    by now rewrite app_nil_r.
  assert (Hentry : entry_for
            (fs.statDirEntry (MemFS.info_of (MemFS.basename full) (NDir true es)))
            (NDir true es)) by (split; reflexivity).
  pose proof (walkDir_tree whole ps Hps Hwhole
                (zip_visit (mounted whole ps)) zip_emit
                (fun w => zip.closed w = false)
                (fun p data w H => H)
                (fun names data d w Hn Hne Hx Hreg Hw =>
                   zip_visit_file whole ps names data d w
                     Hps Hwhole Hn Hne Hx Hreg Hw)
                (zip_visit_other (mounted whole ps))
                fuel (NDir true es) [] _ zip.NewWriter
                Hfuel eq_refl Hlook Harch Hentry (fun _ => eq_refl) eq_refl)
    as Hwalk.
  destruct (zip_entries_emit_all (files_of [] (NDir true es)) zip.NewWriter)
    as [Hentries Hclosed].
  unfold archiveZIP. cbv zeta.
  change (os_DirFS (MemFS.mount whole []) (abs_path ps))
    with (mounted whole ps).
  unfold fs.WalkDir.
  rewrite Hstat. unfold mbind, M_mbind, M_bind.
  change "." with (walk_name []). rewrite Hwalk.
  unfold mret, M_mret, M_ret, zip.Close. rewrite Hclosed.
  cbn [zip.closed zip.NewWriter]. eexists. split; [reflexivity|].
  unfold zip.read. cbn [zip.closed zip.entries]. rewrite Hentries.
  cbn [zip.entries zip.NewWriter app]. now rewrite names_of_records.
Qed.

Lemma archiveTarGZ_tree :
  exists w,
    archiveTarGZ (MemFS.mount whole []) fuel (abs_path ps) tar.NewWriter
      = Done None w
    /\ tar.read w = ok (files_of [] (NDir true es)).
Proof.
  pose proof (lookup_dir_root whole ps true es Hroot) as Hwhole.
  destruct (mounted_Stat_root whole ps Hps Hwhole true es Hroot)
    as (full & Hstat).
  assert (Hlook : MemFS.lookup whole (ps ++ []) = Some (NDir true es))
    by now rewrite app_nil_r.
  assert (Hentry : entry_for
            (fs.statDirEntry (MemFS.info_of (MemFS.basename full) (NDir true es)))
            (NDir true es)) by (split; reflexivity).
  pose proof (walkDir_tree whole ps Hps Hwhole
                (tar_visit (mounted whole ps)) tar_emit
                (fun w => tar.closed w = false /\ tar.missing w = 0%N)
                tar_emit_Inv
                (fun names data d w Hn Hne Hx Hreg Hw =>
                   tar_visit_file whole ps names data d w
                     Hps Hwhole Hn Hne Hx Hreg Hw)
                (tar_visit_other (mounted whole ps))
                fuel (NDir true es) [] _ tar.NewWriter
                Hfuel eq_refl Hlook Harch Hentry (fun _ => eq_refl)
                (conj eq_refl eq_refl))
    as Hwalk.
  destruct (tar_entries_emit_all (files_of [] (NDir true es)) tar.NewWriter)
    as (Hentries & Hclosed & Hgz).
  pose proof (emit_all_Inv tar_emit
                (fun w => tar.closed w = false /\ tar.missing w = 0%N)
                tar_emit_Inv (files_of [] (NDir true es)) tar.NewWriter
                (conj eq_refl eq_refl))
    as [_ Hmissing].
  unfold archiveTarGZ. cbv zeta.
  change (os_DirFS (MemFS.mount whole []) (abs_path ps))
    with (mounted whole ps).
  unfold fs.WalkDir.
  rewrite Hstat. unfold mbind, M_mbind, M_bind.
  change "." with (walk_name []). rewrite Hwalk.
  unfold mret, M_mret, M_ret, tar.Close, tar.gzip_Close.
  rewrite Hclosed, Hmissing.
  cbn [tar.closed tar.NewWriter negb N.eqb]. eexists. split; [reflexivity|].
  unfold tar.read. cbn [tar.closed tar.gzip_closed tar.entries negb].
  rewrite Hentries.
  cbn [tar.entries tar.NewWriter app]. now rewrite names_of_records.
Qed.

End ArchiveTree.

Lemma download_name_Clean (p : string) :
  Path.IsAbs p = true ->
  download_name (Path.Clean p) = List.last (Path.clean_elems p) "root".
Proof.
  intros Habs. pose proof (clean_elems_rooted p Habs) as Hv.
  assert (Hclean : Path.Clean p = abs_path (Path.clean_elems p)).
  { unfold Path.Clean. now rewrite Habs. }
  rewrite Hclean. destruct (Path.clean_elems p) as [|n names] eqn:Hn.
  { reflexivity. }
  assert (Hne : n :: names <> []) by discriminate.
  unfold download_name.
  destruct (Split_SplitSlash (abs_path (n :: names))) as [Hf _].
  destruct (Path.Split (abs_path (n :: names))) as [d f]. cbn [snd] in Hf.
  rewrite SplitSlash_abs_path in Hf by assumption.
  rewrite last_cons_nonempty in Hf by assumption.
  pose proof (last_app_nonempty [] (n :: names) "root" "" Hne) as Hl.
  cbn [app] in Hl. rewrite Hl, <- Hf.
  assert (Hfe : String.eqb f "" = false).
  { subst f. now apply last_valid_name. }
  now rewrite Hfe.
Qed.



(* --------------------------------------------------------------------- *)
(** ** The page of a directory                                           *)
(* --------------------------------------------------------------------- *)

Lemma fold_clean_abs_path (q acc : list string) :
  forallb valid_name q = true ->
  fold_left (Path.clean_step true) (Strings.SplitSlash (abs_path q)) acc
    = rev q ++ acc.
Proof.
  intros Hv. destruct q as [|n q]; [reflexivity|].
  rewrite SplitSlash_abs_path by (auto; discriminate).
  change (fold_left (Path.clean_step true) ("" :: n :: q) acc)
    with (fold_left (Path.clean_step true) (n :: q) acc).
  now apply fold_clean_step_names.
Qed.

(** Joining a served directory, a cleaned request path and a name. *)
Lemma Join_abs_path_3 (ps q : list string) (n : string) :
  forallb valid_name ps = true -> forallb valid_name q = true ->
  valid_name n = true ->
  Path.Join [abs_path ps; abs_path q; n] = abs_path (ps ++ q ++ [n]).
Proof.
  intros Hps Hq Hn. destruct (valid_name_inv n Hn) as (He & _ & _ & Hs).
  unfold Path.Join. cbn [List.filter].
  change (String.eqb (abs_path ps) "") with false.
  change (String.eqb (abs_path q) "") with false.
  rewrite He. simpl negb. cbv iota.
  change (Strings.JoinSlash [abs_path ps; abs_path q; n])
    with (abs_path ps +:+ String "/" (abs_path q +:+ String "/" n)).
  unfold Path.Clean, Path.clean_elems.
  change (Path.IsAbs (abs_path ps +:+ String "/" (abs_path q +:+ String "/" n)))
    with true. cbv iota.
  rewrite !SplitSlash_append, !fold_left_app.
  rewrite !fold_clean_abs_path by assumption.
  rewrite (SplitSlash_no_slash n) by assumption.
  cbn [fold_left]. rewrite clean_step_valid by assumption.
  rewrite app_nil_r. unfold abs_path. do 2 f_equal.
  change (n :: rev q ++ rev ps) with ([n] ++ rev q ++ rev ps).
  rewrite !rev_app_distr, !rev_involutive. simpl rev.
  now rewrite <- app_assoc.
Qed.

(** [lstat] of an entry of a directory reached by plain names describes
    the entry itself, a link included. *)
Lemma Lstat_entry (whole : node) (q : list string) (r : bool)
    (es : list (string * node)) (n : string) (y : node) :
  forallb valid_name q = true -> valid_name n = true ->
  is_dir whole = true ->
  MemFS.lookup whole q = Some (NDir r es) ->
  MemFS.assoc n es = Some y ->
  MemFS.Lstat whole [] (abs_path q +:+ "/" +:+ n) = ok (MemFS.info_of n y).
Proof.
  intros Hq Hn Hwhole Hdir Hy.
  destruct (valid_name_inv n Hn) as (He & Hdot & Hdd & Hs).
  assert (Hsplit : Strings.SplitSlash (abs_path q +:+ "/" +:+ n)
                   = Strings.SplitSlash (abs_path q) ++ [n]).
  { change (abs_path q +:+ "/" +:+ n) with (abs_path q +:+ String "/" n).
    rewrite SplitSlash_append.
    now rewrite (SplitSlash_no_slash n) by assumption. }
  assert (Hbase : MemFS.basename (abs_path q +:+ "/" +:+ n) = n).
  { unfold MemFS.basename. rewrite Hsplit, List.filter_app.
    cbn [List.filter]. rewrite He. simpl negb. cbv iota.
    apply last_last. }
  assert (Hlast : forall links,
            MemFS.resolve whole links false q [n] = ok y).
  { intros links. rewrite resolve_eq, Hdir, He, Hdot, Hdd, Hy.
    simpl orb. cbv iota.
    destruct y as [ry data | ry es' | target | typ]; try reflexivity;
      rewrite resolve_eq; rewrite (lookup_entry whole q r es n _ Hdir Hy);
      reflexivity. }
  unfold MemFS.Lstat, MemFS.namei. rewrite Hbase.
  change (String.eqb (abs_path q +:+ "/" +:+ n) "") with false.
  change (Path.IsAbs (abs_path q +:+ "/" +:+ n)) with true. cbv iota.
  rewrite Hsplit.
  destruct whole as [| r0 es0 | |]; try discriminate.
  destruct q as [|m q].
  - change (Strings.SplitSlash (abs_path [])) with ["";""]. simpl app.
    rewrite resolve_eq. simpl MemFS.lookup. simpl orb. cbv iota.
    rewrite resolve_eq. simpl MemFS.lookup. simpl orb. cbv iota.
    now rewrite Hlast.
  - rewrite SplitSlash_abs_path by (auto; discriminate). simpl app.
    rewrite resolve_eq. simpl MemFS.lookup. simpl orb. cbv iota.
    change (m :: q ++ [n]) with ((m :: q) ++ [n]).
    rewrite (resolve_names _ _ _ (m :: q) [] [n] (NDir r es)) by auto.
    now rewrite Hlast.
Qed.

Lemma existsb_map_entries {A B} (f : B -> bool) (g : A -> B) (l : list A) :
  existsb f (map g l) = existsb (fun a => f (g a)) l.
Proof.
  induction l as [|a l IH]; [reflexivity|]. simpl. now rewrite IH.
Qed.

(** [file.Readdir(0)] on a directory that can be listed: the description
    of every entry, links not followed. *)
Lemma Readdir_dir (whole : node) (q : list string)
    (es : list (string * node)) :
  forallb valid_name q = true -> is_dir whole = true ->
  MemFS.lookup whole q = Some (NDir true es) ->
  forallb valid_name (map fst es) = true ->
  distinct (map fst es) = true ->
  Readdir (MemFS.mount whole []) (abs_path q)
    = (map (fun e => MemFS.info_of (fst e) (snd e)) es, None).
Proof.
  intros Hq Hwhole Hdir Hvalid Hdist.
  unfold Readdir. simpl os_ReadDir. unfold MemFS.ReadDir.
  rewrite (namei_abs_path whole true q (NDir true es)) by auto.
  assert (Hall : forall l,
            (forall n y, In (n, y) l -> In (n, y) es) ->
            lstat_entries (MemFS.mount whole []) (abs_path q)
              (map (fun e => fs.dirent (abs_path q) (fst e)
                               (fs.Type_ (MemFS.mode_of (snd e)))) l)
            = (map (fun e => MemFS.info_of (fst e) (snd e)) l, None)).
  { induction l as [|[n y] l IH]; intros Hsub; [reflexivity|].
    assert (Hin : In (n, y) es) by (apply Hsub; now left).
    assert (Hn : valid_name n = true).
    { rewrite forallb_forall in Hvalid. apply Hvalid.
      change n with (fst (n, y)). now apply in_map. }
    simpl map. cbn [lstat_entries fs.DirEntry_Name]. simpl os_Lstat.
    rewrite (Lstat_entry whole q true es n y) by
      (auto using assoc_distinct).
    rewrite IH by (intros n' y' Hin'; apply Hsub; now right).
    reflexivity. }
  now apply Hall.
Qed.

(** A GET request, with a final slash and no parameter, for a directory
    of the served tree: when an entry of the directory is named
    [index.html], whatever it is, the answer is that file and no listing
    is made; otherwise the answer is the page [Populate] makes of the
    entries of the directory, each as [lstat] describes it, or its error
    with status 500. *)
Theorem ServeHTTP_directory_page (re : RegexpLib)
    (md : string -> result string) (whole : node) (ps : list string)
    (fuel : nat) (r : Request) (es : list (string * node)) :
  forallb valid_name ps = true ->
  Method r = "GET" ->
  Query_Get r "dir" = "" ->
  Query_Get r "q" = "" ->
  Query_Get r "dl" = "" ->
  Path.IsAbs (URL_Path r) = true ->
  ends_with_slash (URL_Path r) = true ->
  MemFS.lookup whole (ps ++ Path.clean_elems (URL_Path r))
    = Some (NDir true es) ->
  forallb valid_name (map fst es) = true ->
  distinct (map fst es) = true ->
  ServeHTTP re md (MemFS.mount whole []) fuel (mkServer (abs_path ps)) r
    = if existsb (fun e => String.eqb (fst e) "index.html") es then
        Reply_ServeFile
          (abs_path (ps ++ Path.clean_elems (URL_Path r) ++ ["index.html"]))
      else
        match Populate (MemFS.mount whole []) md
                (map (fun e => MemFS.info_of (fst e) (snd e)) es)
                (Path.Clean (URL_Path r)) (abs_path ps) with
        | ok ic => Reply_Dir ic
        | failed e => Reply_Error e StatusInternalServerError
        end.
Proof.
  intros Hps Hm Hdir Hq Hdl Habs Hslash Hx Hvalid Hdist.
  pose proof (clean_elems_rooted _ Habs) as Hv.
  assert (Hqv : forallb valid_name (ps ++ Path.clean_elems (URL_Path r)) = true)
    by (rewrite forallb_app, Hps; exact Hv).
  pose proof (lookup_dir_root whole _ true es Hx) as Hwhole.
  assert (Hclean : Path.Clean (URL_Path r)
                   = abs_path (Path.clean_elems (URL_Path r))).
  { unfold Path.Clean. now rewrite Habs. }
  assert (Hjoin : Path.Join [abs_path ps; Path.Clean (URL_Path r)]
                  = abs_path (ps ++ Path.clean_elems (URL_Path r))).
  { rewrite (Join_dir_Clean (abs_path ps) (URL_Path r))
      by (auto; discriminate).
    now apply Join_abs_path. }
  unfold ServeHTTP. rewrite Hm, Hdir, Hq. simpl negb. cbv iota zeta.
  change (dir (mkServer (abs_path ps))) with (abs_path ps).
  rewrite Hjoin. simpl os_Open. unfold MemFS.Open.
  rewrite (namei_abs_path whole true _ (NDir true es)) by auto.
  cbn [fs.File_Stat]. cbv iota.
  change (fs.IsDir (fs.Mode (MemFS.info_of _ (NDir true es)))) with true.
  cbv iota. unfold handleDir. rewrite Hm, Hslash, Hdl. simpl negb.
  cbv iota zeta.
  change (dir (mkServer (abs_path ps))) with (abs_path ps).
  rewrite Hjoin, (Readdir_dir whole _ es) by assumption.
  rewrite existsb_map_entries. cbn [fs.Name MemFS.info_of].
  destruct (existsb (fun e => String.eqb (fst e) "index.html") es);
    [|reflexivity].
  rewrite Hclean, Join_abs_path_3 by auto. reflexivity.
Qed.

Lemma ServeHTTP_directory_page_witness :
  exists ic,
    ServeHTTP LitRegexp.lib paragraph (MemFS.mount readmes []) 0
      (mkServer "/") (get "/x/../docs/" [])
    = Reply_Dir ic
    /\ map (fun f => fs.Name (info f)) (Files ic)
       = ["notes"; "README.md"; "README.txt"; "readme.md"; "readme.txt"]
    /\ ReadMe ic = Some "<p># Title</p>".
Proof.
  eexists. split.
  - refine (eq_trans
      (ServeHTTP_directory_page LitRegexp.lib paragraph readmes [] 0
         (get "/x/../docs/" [])
         [("README.md", NFile true "# Title");
          ("README.txt", NFile true "plain <text>");
          ("notes", NDir true []);
          ("readme.md", NFile true "lower md");
          ("readme.txt", NFile true "lower txt")]
         eq_refl eq_refl eq_refl eq_refl eq_refl eq_refl eq_refl eq_refl
         eq_refl eq_refl) _).
    vm_compute. reflexivity.
  - split; reflexivity.
Defined.

(* --------------------------------------------------------------------- *)
(** ** A search whose directory cannot be described                      *)
(* --------------------------------------------------------------------- *)

(** When [os.Stat] fails on the directory to search, the search page is
    made all the same and holds no result; the error is logged unless it
    is a permission error, which the callback passes over. *)
Theorem handleSearch_root_stat_failure (re : RegexpLib) (os : OS)
    (fuel : nat) (s : Server) (relpath query : string) (isregexp : bool)
    (e : error) (tr : list Syscall) :
  os_Stat os (Path.Join [dir s; relpath]) = failed e ->
  (isregexp = true -> exists exp, Compile re query = ok exp) ->
  exists tr',
    handleSearch re os fuel s relpath query isregexp tr
    = Done (ExecuteTemplate "search.html"
              (mkSearchContext query relpath query []),
            if IsPermission e then None else Some e) tr'.
Proof.
  intros Hstat Hcompile. unfold handleSearch.
  assert (Hwalk : forall exp lowerq,
    walk.WalkDir os fuel (Path.Join [dir s; relpath])
      (search_fn re (Path.Join [dir s; relpath]) exp lowerq)
      (walk.mkState ∅ None tr [])
    = Done (if IsPermission e then None else Some e)
        (walk.mkState ∅ None (tr ++ [SysStat (Path.Join [dir s; relpath])])
           [])).
  { intros exp lowerq.
    rewrite (WalkDir_root_stat_failure os fuel _ _ _ e Hstat).
    unfold search_fn, Path.Rel. rewrite String.eqb_refl.
    destruct (IsPermission e); reflexivity. }
  destruct isregexp.
  - destruct (Hcompile eq_refl) as (exp & ->). rewrite Hwalk.
    eexists. reflexivity.
  - rewrite Hwalk. eexists. reflexivity.
Qed.

Lemma handleSearch_root_stat_failure_witness :
  exists tr',
    handleSearch LitRegexp.lib (MemFS.mount two_files []) 5 (mkServer "/r")
      "/gone" "a" false []
    = Done (ExecuteTemplate "search.html" (mkSearchContext "a" "/gone" "a" []),
            Some ENOENT) tr'.
Proof.
  exact (handleSearch_root_stat_failure LitRegexp.lib
           (MemFS.mount two_files []) 5 (mkServer "/r") "/gone" "a" false
           ENOENT [] eq_refl
           (fun H => ltac:(discriminate H))).
Defined.

(* --------------------------------------------------------------------- *)
(** ** Links in a listing                                                *)
(* --------------------------------------------------------------------- *)

(** The entry [Populate] makes of a symbolic link: it goes with the
    directories exactly when [os.Stat] of its path succeeds and finds a
    directory.  The error of [PopulateFrom] is dropped: a link whose
    target cannot be described is listed like a link to a file. *)
Theorem populated_link (os : OS) (root dirpath : string) (f : fs.FileInfo) :
  fs.Type_ (fs.Mode f) = fs.ModeSymlink ->
  let e := populated os root dirpath f in
  GoesToDir e
    = match os_Stat os (Path.Join [root; dirpath; fs.Name f]) with
      | ok st => fs.IsDir (fs.Mode st)
      | failed _ => false
      end
  /\ IconName e = if GoesToDir e then "folder-shortcut" else "file-shortcut".
Proof.
  intros Hlink e. subst e.
  unfold populated, PopulateFrom, GoesToDir, IconName, mode.
  cbn [info TargetMode]. rewrite Hlink.
  change (N.eqb fs.ModeSymlink fs.ModeSymlink) with true. cbv iota.
  change (N.eqb fs.ModeSymlink fs.ModeDir) with false. cbv iota.
  destruct (os_Stat os (Path.Join [root; dirpath; fs.Name f])) as [st|err];
    cbn [info TargetMode]; rewrite Hlink;
    change (N.eqb fs.ModeSymlink fs.ModeSymlink) with true;
    change (N.eqb fs.ModeSymlink fs.ModeDir) with false; cbv iota.
  - split; reflexivity.
  - split; reflexivity.
Qed.

Lemma populated_link_witness :
  GoesToDir (populated (MemFS.mount sibling_link []) "/" "/r"
               (MemFS.info_of "a" (NLink "d"))) = true
  /\ IconName (populated (MemFS.mount sibling_link []) "/" "/r"
                 (MemFS.info_of "a" (NLink "d"))) = "folder-shortcut".
Proof.
  exact (populated_link (MemFS.mount sibling_link []) "/" "/r"
           (MemFS.info_of "a" (NLink "d")) eq_refl).
Defined.

(* --------------------------------------------------------------------- *)
(** ** Requests that cannot be served                                    *)
(* --------------------------------------------------------------------- *)

(** Plain names that lead nowhere, through no link, do not resolve. *)
Lemma resolve_missing (root : node) (links : nat) (follow : bool)
    (names : list string) :
  forall cur t,
    forallb valid_name names = true ->
    MemFS.lookup root cur = Some t ->
    MemFS.lookup root (cur ++ names) = None ->
    (forall k x, MemFS.lookup root (cur ++ firstn k names) = Some x ->
                 is_link x = false) ->
    exists e,
      MemFS.resolve root links follow cur names = failed e
      /\ (e = ENOENT \/ e = ENOTDIR).
Proof.
  induction names as [|c names IH]; intros cur t Hv Ht Hnone Hnl.
  - rewrite app_nil_r in Hnone. congruence.
  - apply Forall_valid_cons in Hv. destruct Hv as [Hc Hv].
    destruct (valid_name_inv c Hc) as (H1 & H2 & H3 & _).
    rewrite resolve_eq, Ht.
    destruct t as [r data | r es | target | typ]; try (eexists; eauto; fail).
    rewrite H1, H2, H3. simpl orb. cbv iota.
    destruct (MemFS.assoc c es) as [y|] eqn:Hy; [|eexists; eauto].
    assert (Hlook : MemFS.lookup root (cur ++ [c]) = Some y)
      by (apply (lookup_entry root cur r es c y Ht Hy)).
    assert (Hyl : is_link y = false).
    { apply (Hnl 1 y). exact Hlook. }
    destruct (IH (cur ++ [c]) y Hv Hlook) as (e & He & Hcase).
    + now rewrite <- app_assoc.
    + intros k x Hx. apply (Hnl (S k) x). simpl firstn.
      now rewrite <- app_assoc in Hx.
    + exists e. split; [|exact Hcase].
      destruct y; try discriminate; exact He.
Qed.

(** A request, by GET or HEAD and without [dir] parameter, for a path
    [os.Open] refuses is answered with status 404 whatever the reason:
    with the error of a missing entry when the cleaned path leads nowhere
    below the served directory, and with the permission error when it
    leads to a file or directory that cannot be read. *)
Theorem ServeHTTP_cannot_open_is_404 (re : RegexpLib)
    (md : string -> result string) (whole : node) (ps : list string)
    (fuel : nat) (r : Request) :
  forallb valid_name ps = true ->
  is_dir whole = true ->
  Method r = "GET" \/ Method r = "HEAD" ->
  Query_Get r "dir" = "" ->
  Path.IsAbs (URL_Path r) = true ->
  let q := ps ++ Path.clean_elems (URL_Path r) in
  let reply :=
    ServeHTTP re md (MemFS.mount whole []) fuel (mkServer (abs_path ps)) r in
  match MemFS.lookup whole q with
  | None =>
      (forall k x, MemFS.lookup whole (firstn k q) = Some x ->
                   is_link x = false) ->
      exists e, reply = Reply_Error e StatusNotFound
                /\ (e = ENOENT \/ e = ENOTDIR)
  | Some (NFile false _) | Some (NDir false _) =>
      reply = Reply_Error EACCES StatusNotFound
  | Some _ => True
  end.
Proof.
  intros Hps Hwhole Hm Hdir Habs q reply.
  pose proof (clean_elems_rooted _ Habs) as Hv.
  assert (Hqv : forallb valid_name q = true)
    by (subst q; rewrite forallb_app, Hps; exact Hv).
  assert (Hreply : reply
            = match MemFS.namei whole [] true (abs_path q) with
              | ok x =>
                  match MemFS.Open whole [] (abs_path q) with
                  | ok file =>
                      ServeHTTP re md (MemFS.mount whole []) fuel
                        (mkServer (abs_path ps)) r
                  | failed e => Reply_Error e StatusNotFound
                  end
              | failed e => Reply_Error e StatusNotFound
              end).
  { subst reply. unfold ServeHTTP.
    assert (Hmeth : String.eqb (Method r) "GET" || String.eqb (Method r) "HEAD"
                    = true) by (destruct Hm as [-> | ->]; reflexivity).
    rewrite Hmeth, Hdir. simpl negb. cbv iota zeta.
    change (dir (mkServer (abs_path ps))) with (abs_path ps).
    rewrite (Join_dir_Clean (abs_path ps) (URL_Path r))
      by (auto; discriminate).
    rewrite Join_abs_path by assumption. fold q.
    simpl os_Open. unfold MemFS.Open.
    destruct (MemFS.namei whole [] true (abs_path q)) as [x|e];
      [|reflexivity].
    destruct x as [[|] data | [|] es | target | typ]; reflexivity. }
  destruct (MemFS.lookup whole q) as [x|] eqn:Hx.
  - destruct x as [[|] data | [|] es | target | typ]; try exact I;
      rewrite Hreply;
      rewrite (namei_abs_path whole true q _ Hqv Hx eq_refl Hwhole);
      unfold MemFS.Open;
      rewrite (namei_abs_path whole true q _ Hqv Hx eq_refl Hwhole);
      reflexivity.
  - intros Hnl. rewrite Hreply.
    destruct q as [|n q'] eqn:Hq; [discriminate|].
    destruct whole as [| r0 es0 | |] eqn:Hw; try discriminate.
    destruct (resolve_missing (NDir r0 es0) MemFS.MAXSYMLINKS true
                (n :: q') [] (NDir r0 es0) Hqv eq_refl Hx Hnl)
      as (e & He & Hcase).
    exists e. split; [|exact Hcase].
    unfold MemFS.namei.
    change (String.eqb (abs_path (n :: q')) "") with false.
    change (Path.IsAbs (abs_path (n :: q'))) with true. cbv iota.
    rewrite SplitSlash_abs_path by (auto; discriminate).
    rewrite resolve_eq. simpl MemFS.lookup. simpl orb. cbv iota.
    now rewrite He.
Qed.

Lemma ServeHTTP_cannot_open_is_404_witness :
  ServeHTTP LitRegexp.lib paragraph (MemFS.mount served []) 0
    (mkServer "/srv") (get "/pub/../secret/" [])
  = Reply_Error EACCES StatusNotFound.
Proof.
  exact (ServeHTTP_cannot_open_is_404 LitRegexp.lib paragraph served ["srv"]
           0 (get "/pub/../secret/" []) eq_refl eq_refl (or_introl eq_refl)
           eq_refl eq_refl).
Defined.

(* --------------------------------------------------------------------- *)
(** ** A walk that a callback ends                                       *)
(* --------------------------------------------------------------------- *)

Lemma emit_until_app {U : Type} (emit : list string -> node -> U -> U)
    (ret : list string -> node -> option error)
    (a b : list (list string * node)) (u : U) :
  emit_until emit ret (a ++ b) u
    = match emit_until emit ret a u with
      | (Some e, u') => (Some e, u')
      | (None, u') => emit_until emit ret b u'
      end.
Proof.
  revert u. induction a as [|o a IH]; intros u; [reflexivity|].
  simpl. destruct (ret (fst o) (snd o)); [reflexivity | apply IH].
Qed.

Lemma emit_until_error {U : Type} (emit : list string -> node -> U -> U)
    (ret : list string -> node -> option error)
    (l : list (list string * node)) (u : U) (e : error) :
  fst (emit_until emit ret l u) = Some e ->
  exists names x, ret names x = Some e.
Proof.
  revert u. induction l as [|o l IH]; intros u; [discriminate|].
  simpl. destruct (ret (fst o) (snd o)) as [e'|] eqn:Hret.
  - simpl. intros H. inversion H; subst. eauto.
  - apply IH.
Qed.

Lemma objects_of_head (names : list string) (x : node) :
  exists rest, objects_of names x = (names, x) :: rest.
Proof. destruct x; simpl; eauto. Qed.

Section LinkFreeAbort.
Context {U : Type}.
Variable whole : node.
Variable ps : list string.
Hypothesis Hps : forallb valid_name ps = true.
Hypothesis Hwhole : is_dir whole = true.

(** A callback that, shown an object of the tree, adds to its variables
    by [emit] and answers [ret], which is never [SkipDir]. *)
Variable fn : WalkDirFunc U.
Variable emit : list string -> node -> U -> U.
Variable ret : list string -> node -> option error.
Hypothesis ret_error :
  forall names x e, ret names x = Some e -> error_eqb e SkipDir = false.
Hypothesis fn_ret :
  forall names x s,
    forallb valid_name names = true ->
    MemFS.lookup whole (ps ++ names) = Some x ->
    is_link x = false ->
    exists s',
      walk.run_visit (MemFS.mount whole [])
        (Some (walk.getinfo (MemFS.mount whole []) (abs_path (ps ++ names))))
        (fn (abs_path (ps ++ names)) None) (walk.set_stat None s)
      = Done (ret names x) s'
      /\ walk.user s' = emit names x (walk.user s).

Lemma walkDir_link_free_until (fuel : nat) :
  forall (x : node) (names : list string) (d : fs.DirEntry)
         (s : walk.State U),
    depth x <= fuel ->
    forallb valid_name names = true ->
    MemFS.lookup whole (ps ++ names) = Some x ->
    link_free x = true ->
    fs.DirEntry_IsDir d = is_dir x ->
    N.eqb (fs.DirEntry_Type d) fs.ModeSymlink = false ->
    unvisited_below (ps ++ names) (walk.visited s) ->
    exists s',
      walk.walkDir (MemFS.mount whole []) fuel (abs_path (ps ++ names)) d fn s
        = Done (fst (emit_until emit ret (objects_of names x) (walk.user s)))
            s'
      /\ walk.user s'
         = snd (emit_until emit ret (objects_of names x) (walk.user s))
      /\ visited_below (ps ++ names) (walk.visited s) (walk.visited s').
Proof.
  induction fuel as [|fuel IH];
    intros x names d s Hdepth Hnames Hx Hfree Hisdir Htype Hnew.
  { pose proof (depth_pos x). lia. }
  destruct (link_free_mode x Hfree) as (Hnl & _ & _).
  destruct (fn_ret names x s Hnames Hx Hnl) as (s1 & Hrun & Huser).
  pose proof (run_visit_visited _ _ _ _ _ _ Hrun) as Hvis.
  change (walk.visited (walk.set_stat None s)) with (walk.visited s) in Hvis.
  assert (Hq : forallb valid_name (ps ++ names) = true)
    by (rewrite forallb_app, Hps; exact Hnames).
  destruct (ret names x) as [e|] eqn:Hret.
  { (* the callback ends the walk here *)
    destruct (objects_of_head names x) as (rest & ->).
    cbn [emit_until fst snd]. rewrite Hret. cbn [fst snd].
    exists s1.
    rewrite (walkDir_callback_error _ fuel _ d fn s e s1 Hrun).
    rewrite (ret_error names x e Hret).
    split; [reflexivity|]. split; [exact Huser|].
    rewrite Hvis. apply visited_below_refl. }
  destruct x as [r data | r es | target | typ]; try discriminate.
  - (* a file *)
    cbn [objects_of emit_until fst snd]. rewrite Hret. cbn [fst snd].
    exists s1. rewrite (walkDir_other _ fuel _ d fn s s1 Hrun Hisdir Htype).
    split; [reflexivity|]. split; [exact Huser|].
    rewrite Hvis. apply visited_below_refl.
  - (* a directory *)
    destruct (link_free_dir r es Hfree) as (-> & Hvalid & Hdist & Hsub).
    assert (Hfresh : abs_path (ps ++ names) ∉ walk.visited s1).
    { rewrite Hvis. rewrite <- (app_nil_r (ps ++ names)). now apply Hnew. }
    assert (Hread : os_ReadDir (MemFS.mount whole []) (abs_path (ps ++ names))
              = (map (fun e => fs.dirent (abs_path (ps ++ names)) (fst e)
                                 (fs.Type_ (MemFS.mode_of (snd e)))) es, None)).
    { simpl os_ReadDir. unfold MemFS.ReadDir.
      now rewrite (namei_abs_path whole true _ (NDir true es)). }
    rewrite (walkDir_enter _ fuel _ d fn s s1 _ Hrun Hisdir Hfresh Hread).
    rewrite objects_of_dir.
    cbn [emit_until fst snd]. rewrite Hret, <- Huser.
    set (s2 := walk.log (SysReadDir (abs_path (ps ++ names)))
                 (walk.set_visited
                    ({[abs_path (ps ++ names)]} ∪ walk.visited s1) s1)).
    change (walk.user s1) with (walk.user s2).
    assert (Hloop :
      forall l (s0 : walk.State U),
        (forall n y, In (n, y) l -> In (n, y) es) ->
        distinct (map fst l) = true ->
        (forall n y, In (n, y) l ->
           unvisited_below (ps ++ names ++ [n]) (walk.visited s0)) ->
        exists s',
          walk.range_dirs
            (fun name1 d1 =>
               walk.walkDir (MemFS.mount whole []) fuel name1 d1 fn)
            (abs_path (ps ++ names))
            (map (fun e => fs.dirent (abs_path (ps ++ names)) (fst e)
                             (fs.Type_ (MemFS.mode_of (snd e)))) l) s0
          = Done (fst (emit_until emit ret (entries_objects names l)
                         (walk.user s0))) s'
          /\ walk.user s'
             = snd (emit_until emit ret (entries_objects names l)
                      (walk.user s0))
          /\ visited_below (ps ++ names) (walk.visited s0) (walk.visited s')).
    { induction l as [|[n y] l IHl]; intros s0 Hsubl Hdl Hnewl.
      { exists s0. split; [reflexivity|]. split; [reflexivity|].
        apply visited_below_refl. }
      assert (Hin : In (n, y) es) by (apply Hsubl; now left).
      assert (Hn : valid_name n = true).
      { rewrite forallb_forall in Hvalid. apply Hvalid.
        change n with (fst (n, y)). now apply in_map. }
      assert (Hy : MemFS.lookup whole (ps ++ names ++ [n]) = Some y).
      { rewrite app_assoc.
        apply (lookup_entry whole (ps ++ names) true es n y Hx).
        now apply assoc_distinct. }
      assert (Hnames' : forallb valid_name (names ++ [n]) = true).
      { rewrite forallb_app, Hnames. simpl. now rewrite Hn. }
      pose proof (Hsub n y Hin) as Hyfree.
      destruct (link_free_mode y Hyfree) as (_ & Hydir & Hytype).
      destruct (IH y (names ++ [n])
                  (fs.dirent (abs_path (ps ++ names)) n
                     (fs.Type_ (MemFS.mode_of y))) s0)
        as (s3 & Hwalk & Huser3 & Hbelow3); try assumption.
      { pose proof (depth_entry true es n y Hin). lia. }
      { simpl. now rewrite IsDir_Type. }
      { simpl. now rewrite Type_idem. }
      { apply (Hnewl n y). now left. }
      assert (Hbelow3' :
        visited_below (ps ++ names) (walk.visited s0) (walk.visited s3)).
      { intros p Hp. destruct (Hbelow3 _ Hp) as [Hold | (r' & Hr' & Heq)];
          [now left|].
        right. exists (n :: r'). split.
        - simpl. now rewrite Hn.
        - rewrite Heq. rewrite <- !app_assoc. reflexivity. }
      assert (Hstep :
        walk.walkDir (MemFS.mount whole []) fuel
          (Path.Join [abs_path (ps ++ names);
                      fs.DirEntry_Name
                        (fs.dirent (abs_path (ps ++ names)) n
                           (fs.Type_ (MemFS.mode_of y)))])
          (fs.dirent (abs_path (ps ++ names)) n (fs.Type_ (MemFS.mode_of y)))
          fn s0
        = Done (fst (emit_until emit ret (objects_of (names ++ [n]) y)
                       (walk.user s0))) s3).
      { simpl fs.DirEntry_Name.
        rewrite (Join_abs_path (ps ++ names) [n]) by (simpl; now rewrite ?Hn).
        rewrite <- app_assoc. exact Hwalk. }
      unfold entries_objects. simpl flat_map.
      fold (entries_objects names l). rewrite emit_until_app.
      destruct (emit_until emit ret (objects_of (names ++ [n]) y)
                  (walk.user s0)) as [[e|] u3] eqn:Hfirst;
        cbn [fst snd] in Hstep, Huser3.
      { (* the walk ended below this entry *)
        exists s3. simpl map.
        erewrite (range_dirs_error _ _ _ _ s0 e s3 Hstep).
        assert (He : error_eqb e SkipDir = false).
        { destruct (emit_until_error emit ret (objects_of (names ++ [n]) y)
                      (walk.user s0) e)
            as (names0 & x0 & Hret0); [now rewrite Hfirst|].
          exact (ret_error names0 x0 e Hret0). }
        rewrite He. cbn [fst snd].
        split; [reflexivity|]. split; [exact Huser3 | exact Hbelow3']. }
      simpl in Hdl. apply andb_prop in Hdl. destruct Hdl as [Hnotin Hdl].
      apply negb_true_iff in Hnotin.
      destruct (IHl s3) as (s4 & Hrest & Huser4 & Hbelow4).
      { intros n' y' Hin'. apply Hsubl. now right. }
      { exact Hdl. }
      { intros m z Hm r Hr Hp.
        destruct (Hbelow3 _ Hp) as [Hold | (r' & Hr' & Heq)].
        - revert Hold. apply (Hnewl m z); [now right | exact Hr].
        - apply abs_path_inj in Heq.
          + rewrite <- !app_assoc in Heq.
            apply app_inv_head in Heq. apply app_inv_head in Heq.
            simpl in Heq. inversion Heq; subst m.
            assert (Hex : existsb (String.eqb n) (map fst l) = true).
            { apply existsb_exists. exists n. split; [|apply String.eqb_refl].
              change n with (fst (n, z)). now apply in_map. }
            congruence.
          + rewrite !forallb_app, Hps, Hnames, Hr. simpl.
            assert (Hmv : valid_name m = true).
            { rewrite forallb_forall in Hvalid. apply Hvalid.
              change m with (fst (m, z)). apply in_map. apply Hsubl.
              now right. }
            now rewrite Hmv.
          + rewrite !forallb_app, Hps, Hnames, Hr'. simpl. now rewrite Hn. }
      exists s4. simpl map.
      erewrite (range_dirs_next _ _ _ _ s0 s3 Hstep).
      rewrite <- Huser3.
      split; [exact Hrest|]. split; [exact Huser4|].
      intros p Hp. destruct (Hbelow4 _ Hp) as [Hold | Hnewp]; [|now right].
      now apply Hbelow3'. }
    destruct (Hloop es s2) as (s' & Hrange & Huser' & Hbelow').
    { auto. }
    { exact Hdist. }
    { intros n y Hin r Hr Hp. subst s2. simpl in Hp.
      apply elem_of_union in Hp. destruct Hp as [Hp | Hp].
      - apply elem_of_singleton in Hp. apply abs_path_inj in Hp.
        + rewrite <- !app_assoc in Hp. apply app_inv_head in Hp.
          rewrite <- (app_nil_r names) in Hp at 2.
          apply app_inv_head in Hp. discriminate.
        + assert (Hn : valid_name n = true).
          { rewrite forallb_forall in Hvalid. apply Hvalid.
            change n with (fst (n, y)). now apply in_map. }
          rewrite !forallb_app, Hps, Hnames, Hr. simpl. now rewrite Hn.
        + exact Hq.
      - rewrite Hvis in Hp. revert Hp.
        replace ((ps ++ names ++ [n]) ++ r) with ((ps ++ names) ++ n :: r)
          by (rewrite <- !app_assoc; reflexivity).
        apply Hnew. simpl. rewrite Hr.
        assert (Hn : valid_name n = true).
        { rewrite forallb_forall in Hvalid. apply Hvalid.
          change n with (fst (n, y)). now apply in_map. }
        now rewrite Hn. }
    exists s'. split; [exact Hrange|]. split; [exact Huser'|].
    intros p Hp. destruct (Hbelow' _ Hp) as [Hold | Hnewp]; [|now right].
    subst s2. simpl in Hold. apply elem_of_union in Hold.
    destruct Hold as [Hold | Hold].
    + apply elem_of_singleton in Hold. right. exists []. split; [reflexivity|].
      now rewrite app_nil_r.
    + left. now rewrite <- Hvis.
  - (* a device, pipe or socket *)
    cbn [objects_of emit_until fst snd]. rewrite Hret. cbn [fst snd].
    exists s1. rewrite (walkDir_other _ fuel _ d fn s s1 Hrun Hisdir Htype).
    split; [reflexivity|]. split; [exact Huser|].
    rewrite Hvis. apply visited_below_refl.
Qed.

(** [WalkDir] from the directory at [ps]. *)
Lemma WalkDir_link_free_until (fuel : nat) (x : node) (s : walk.State U) :
  MemFS.lookup whole ps = Some x ->
  link_free x = true ->
  depth x <= fuel ->
  exists s',
    walk.WalkDir (MemFS.mount whole []) fuel (abs_path ps) fn s
      = Done (fst (emit_until emit ret (objects_of [] x) (walk.user s))) s'
    /\ walk.user s' = snd (emit_until emit ret (objects_of [] x) (walk.user s)).
Proof.
  intros Hx Hfree Hdepth.
  destruct (link_free_mode x Hfree) as (Hnl & Hdir & Htype).
  assert (Hstat : os_Stat (MemFS.mount whole []) (abs_path ps)
                  = ok (MemFS.info_of (MemFS.basename (abs_path ps)) x)).
  { simpl os_Stat. unfold MemFS.Stat.
    now rewrite (namei_abs_path whole true ps x). }
  unfold walk.WalkDir, walk.sys_Stat. monad_unfold. rewrite Hstat.
  set (s0 := walk.log (SysStat (abs_path ps)) (walk.set_visited ∅ s)).
  destruct (walkDir_link_free_until fuel x []
              (fs.statDirEntry (MemFS.info_of (MemFS.basename (abs_path ps)) x))
              s0) as (s' & Hwalk & Huser & _);
    try assumption; try reflexivity.
  - now rewrite app_nil_r.
  - intros r Hr. apply not_elem_of_empty.
  - rewrite app_nil_r in Hwalk. exists s'. split; [exact Hwalk | exact Huser].
Qed.

End LinkFreeAbort.

Lemma emit_until_fail_at (f : list string * node -> string)
    (target : string) (e : error) (l : list (list string * node))
    (acc : list string) :
  emit_until (fun names x u => u ++ [f (names, x)])
    (fun names x => if String.eqb (f (names, x)) target then Some e else None)
    l acc
  = (if existsb (String.eqb target) (map f l) then Some e else None,
     acc ++ take_until target (map f l)).
Proof.
  revert acc. induction l as [|[names x] l IH]; intros acc.
  - simpl. now rewrite app_nil_r.
  - cbn [emit_until map existsb take_until fst snd].
    rewrite (String.eqb_sym target).
    destruct (String.eqb (f (names, x)) target); [reflexivity|].
    rewrite IH. cbn [orb]. now rewrite <- app_assoc.
Qed.



(* --------------------------------------------------------------------- *)
(** ** A directory with more READMEs than two                            *)
(* --------------------------------------------------------------------- *)


(* --------------------------------------------------------------------- *)
(** ** What [SkipDir] needs                                              *)
(* --------------------------------------------------------------------- *)

Section StatKept.
Context {U : Type}.
Variable os : OS.
Variable name : string.
Variable tr0 : list Syscall.

Lemma run_visit_stat_kept {A} (v : Visit U A) :
  forall s a s',
    walk.run_visit os (Some (walk.getinfo os name)) v s = Done a s' ->
    stat_kept os name tr0 s -> stat_kept os name tr0 s'.
Proof.
  induction v as [a0 | k IH | p k IH | k IH | u k IH | msg];
    intros s a s' Hrun Hs; simpl in Hrun.
  - monad_unfold. inversion Hrun; subst. exact Hs.
  - unfold mbind, M_mbind, M_bind in Hrun.
    destruct (walk.getinfo os name s) as [r s0| |] eqn:Hget; try discriminate.
    apply (IH r s0 a s' Hrun).
    unfold walk.getinfo, walk.sys_Stat in Hget. monad_unfold.
    destruct Hs as (added & Htr & Hst).
    destruct (walk.stat s) as [i|] eqn:Hstat.
    + inversion Hget; subst. exists added. rewrite Hstat. auto.
    + simpl in Hget. destruct (os_Stat os name) as [i|e] eqn:Hos;
        simpl in Hget; inversion Hget; subst;
        exists (added ++ [SysStat name]); simpl; rewrite Htr, <- app_assoc;
        (split; [reflexivity|]); intros i' Hi'; [|discriminate].
      inversion Hi'; subst. split; [exact Hos|].
      apply in_or_app. right. now left.
  - unfold walk.sys_Stat in Hrun. unfold mbind, M_mbind, M_bind in Hrun.
    simpl in Hrun. apply (IH _ _ a s' Hrun).
    destruct Hs as (added & Htr & Hst).
    exists (added ++ [SysStat p]). simpl. rewrite Htr, <- app_assoc.
    split; [reflexivity|]. intros i Hi. destruct (Hst i Hi) as [H1 H2].
    split; [exact H1|]. apply in_or_app. now left.
  - unfold mbind, M_mbind, M_bind in Hrun. simpl in Hrun.
    apply (IH _ _ a s' Hrun). exact Hs.
  - unfold mbind, M_mbind, M_bind in Hrun. simpl in Hrun.
    apply (IH _ a s' Hrun). exact Hs.
  - monad_unfold. discriminate.
Qed.

End StatKept.

(** When [walkDir] returns after the callback answered [SkipDir], the
    callback had asked for [info] and the [os.Stat] of the entry made for
    it, during that call, had succeeded; [walkDir] does nothing more, and
    what it returns goes by that description: nil for a directory,
    [SkipDir] for anything else. *)
Theorem walkDir_SkipDir_return_needs_stat
    {U : Type} (os : OS) (fuel : nat) (name : string) (d : fs.DirEntry)
    (fn : WalkDirFunc U) (s s1 s2 : walk.State U) (r : option error) :
  walk.run_visit os (Some (walk.getinfo os name)) (fn name None)
    (walk.set_stat None s) = Done (Some SkipDir) s1 ->
  walk.walkDir os (S fuel) name d fn s = Done r s2 ->
  exists i added,
    walk.trace s1 = walk.trace s ++ added
    /\ In (SysStat name) added
    /\ os_Stat os name = ok i
    /\ walk.stat s1 = Some i
    /\ s2 = s1
    /\ r = if fs.IsDir (fs.Mode i) then None else Some SkipDir.
Proof.
  intros Hrun Hwalk.
  assert (Hkept : stat_kept os name (walk.trace s) s1).
  { apply (run_visit_stat_kept os name (walk.trace s) _ _ _ _ Hrun).
    exists []. simpl. rewrite app_nil_r. split; [reflexivity|].
    intros i Hi. discriminate. }
  destruct Hkept as (added & Htr & Hst).
  rewrite (walkDir_callback_error os fuel name d fn s SkipDir s1 Hrun) in Hwalk.
  simpl in Hwalk. destruct (walk.stat s1) as [i|] eqn:Hstat; [|discriminate].
  destruct (Hst i eq_refl) as [Hos Hin].
  exists i, added. repeat split; try assumption.
  - destruct (fs.IsDir (fs.Mode i)); now inversion Hwalk.
  - destruct (fs.IsDir (fs.Mode i)); now inversion Hwalk.
Qed.

Lemma walkDir_SkipDir_return_needs_stat_witness :
  exists i added,
    [SysStat "/r/a"] = [] ++ added
    /\ In (SysStat "/r/a") added
    /\ os_Stat (MemFS.mount two_files []) "/r/a" = ok i
    /\ Some (fs.mkFileInfo "a" 1%N 420%N 0%N) = Some i
    /\ walk.mkState ∅ (Some (fs.mkFileInfo "a" 1%N 420%N 0%N))
         [SysStat "/r/a"] ["/r/a"]
       = walk.mkState ∅ (Some (fs.mkFileInfo "a" 1%N 420%N 0%N))
           [SysStat "/r/a"] ["/r/a"]
    /\ Some SkipDir = if fs.IsDir (fs.Mode i) then None else Some SkipDir.
Proof.
  exact (walkDir_SkipDir_return_needs_stat (MemFS.mount two_files []) 0
           "/r/a" (fs.dirent "/r" "a" 0%N) (skip_at "/r/a")
           (walk.mkState ∅ None [] [])
           (walk.mkState ∅ (Some (fs.mkFileInfo "a" 1%N 420%N 0%N))
              [SysStat "/r/a"] ["/r/a"])
           (walk.mkState ∅ (Some (fs.mkFileInfo "a" 1%N 420%N 0%N))
              [SysStat "/r/a"] ["/r/a"])
           (Some SkipDir) eq_refl eq_refl).
Defined.
